(** * Verification of the multi-client session and batch-execution core

    A shallow embedding of the Python sources
      - app/core/security.py           (credential encryption),
      - app/core/mofsl_api_wrapper.py  (session cache and broker gateway),
      - app/api/orders.py              (batch execution and exit flow),
      - app/api/tokens.py              (instrument search),
    followed by the properties proved about them.

    Conventions of the embedding.
      - A Python [str] is the Rocq [string] of its UTF-8 encoding (text
        that can be encoded: no lone surrogates). [len], slicing, [strip]
        and [int] go by code points, with the tables of Unicode 14;
        [lower] and [upper] are the case mappings of the Unicode database,
        an interface ([CaseMapping]) of which only the ASCII range is
        spelled out.
      - A Python [int] is a [Z]; a [Decimal] is a pair coefficient/exponent.
      - An aware [datetime] is the number of microseconds on the proleptic
        UTC time line (a [Z]); the calendar range check of Python
        (years 1..9999) is not modelled.
      - JSON documents are values of [JVal]; JSON floats are left out.
      - Code with effects lives in the monad [Py]: it threads the process
        state [World] (session cache, trace of observable events) and
        returns either a value or a raised exception.
      - Everything the process cannot decide by itself (clock, network peer,
        database, key material) is an oracle in [Env]; oracles may depend
        on the trace so far. *)

From Stdlib Require Import ZArith Ascii String List Bool Lia.
From Stdlib Require OrderedTypeEx.
From stdpp Require Import base option list gmap strings pretty sorting.

#[local] Set Warnings "-register-all".
Open Scope string_scope.
Open Scope list_scope.
Open Scope Z_scope.

(** ** Python values *)

Module Python.

(** *** Strings

    Concatenation, comparison, [in], [startswith] and [replace] give the
    same result on a text and on its UTF-8 encoding; [len], slicing and
    [strip] count code points. *)

(** a byte that continues a code point *)
Definition is_continuation (c : ascii) : bool :=
  let n := nat_of_ascii c in (128 <=? n)%nat && (n <? 192)%nat.

(** [len(s)]: the number of code points *)
Fixpoint str_len (s : string) : nat :=
  match s with
  | EmptyString => O
  | String c s' => ((if is_continuation c then 0 else 1) + str_len s')%nat
  end.

(** [list(s)]: the code points of [s], each as the text of one character *)
Definition starts_continuation (s : string) : bool :=
  match s with
  | String c _ => is_continuation c
  | EmptyString => false
  end.

Fixpoint chars (s : string) : list string :=
  match s with
  | EmptyString => []
  | String c s' =>
      match chars s' with
      | ch :: rest =>
          if starts_continuation s' then String c ch :: rest
          else String c EmptyString :: ch :: rest
      | [] => [String c EmptyString]
      end
  end.

(** [''.join(l)] *)
Definition concat_str (l : list string) : string :=
  foldr String.append EmptyString l.

Definition byte (n : N) : ascii := ascii_of_N n.

(** [chr(n)] *)
Definition chr (n : N) : string :=
  (if n <? 128 then String (byte n) EmptyString
   else if n <? 2048 then
     String (byte (192 + n / 64)) (String (byte (128 + n mod 64)) EmptyString)
   else if n <? 65536 then
     String (byte (224 + n / 4096))
       (String (byte (128 + (n / 64) mod 64))
          (String (byte (128 + n mod 64)) EmptyString))
   else
     String (byte (240 + n / 262144))
       (String (byte (128 + (n / 4096) mod 64))
          (String (byte (128 + (n / 64) mod 64))
             (String (byte (128 + n mod 64)) EmptyString))))%N.

(** [ord(ch)] for the text of one character *)
Definition ord (ch : string) : N :=
  (match map N_of_ascii (list_ascii_of_string ch) with
   | [b] => b
   | [b1; b2] => (b1 - 192) * 64 + (b2 - 128)
   | [b1; b2; b3] => (b1 - 224) * 4096 + (b2 - 128) * 64 + (b3 - 128)
   | [b1; b2; b3; b4] =>
       (b1 - 240) * 262144 + (b2 - 128) * 4096 + (b3 - 128) * 64 + (b4 - 128)
   | _ => 0
   end)%N.

(** the code points on which [isspace()] holds *)
Definition whitespace : list N :=
  [9; 10; 11; 12; 13; 28; 29; 30; 31; 32; 133; 160; 5760; 8192; 8193; 8194;
   8195; 8196; 8197; 8198; 8199; 8200; 8201; 8202; 8232; 8233; 8239; 8287;
   12288]%N.

(** [ch.isspace()] *)
Definition is_space (ch : string) : bool := bool_decide (ord ch ∈ whitespace).

Fixpoint dropwhile {A} (p : A -> bool) (l : list A) : list A :=
  match l with
  | [] => []
  | x :: l' => if p x then dropwhile p l' else l
  end.

(** [s.lstrip()] and [s.rstrip()] *)
Definition lstrip (s : string) : string :=
  concat_str (dropwhile is_space (chars s)).

Definition rstrip (s : string) : string :=
  concat_str (reverse (dropwhile is_space (reverse (chars s)))).

(** [s.strip()] *)
Definition strip (s : string) : string := rstrip (lstrip s).

(** [s.isascii()] *)
Fixpoint is_ascii (s : string) : bool :=
  match s with
  | EmptyString => true
  | String c s' => (nat_of_ascii c <? 128)%nat && is_ascii s'
  end.

Definition is_upper (c : ascii) : bool :=
  let n := nat_of_ascii c in (65 <=? n)%nat && (n <=? 90)%nat.

Definition lower_char (c : ascii) : ascii :=
  if is_upper c then ascii_of_nat (nat_of_ascii c + 32) else c.

(** [s.lower()] on ASCII text *)
Fixpoint ascii_lower (s : string) : string :=
  match s with
  | EmptyString => EmptyString
  | String c s' => String (lower_char c) (ascii_lower s')
  end.

Definition is_lower (c : ascii) : bool :=
  let n := nat_of_ascii c in (97 <=? n)%nat && (n <=? 122)%nat.

Definition upper_char (c : ascii) : ascii :=
  if is_lower c then ascii_of_nat (nat_of_ascii c - 32) else c.

(** [s.upper()] on ASCII text *)
Fixpoint ascii_upper (s : string) : string :=
  match s with
  | EmptyString => EmptyString
  | String c s' => String (upper_char c) (ascii_upper s')
  end.

(** [s.lower()] and [s.upper()]: the case mappings of the Unicode database
    (with their special cases, which can change the length of a text). Of
    the tables only the ASCII range is spelled out, where they exchange
    the letters A-Z and a-z. *)
Class CaseMapping := {
  lower : string -> string;
  upper : string -> string;
  lower_ascii : forall s, is_ascii s = true -> lower s = ascii_lower s;
  upper_ascii : forall s, is_ascii s = true -> upper s = ascii_upper s
}.

(** [s.startswith(p)] *)
Definition startswith (s p : string) : bool := String.prefix p s.

(** [needle in hay] *)
Fixpoint contains (needle hay : string) : bool :=
  String.prefix needle hay ||
  match hay with
  | EmptyString => false
  | String _ hay' => contains needle hay'
  end.

(** truth value of a string: [bool(s)] *)
Definition str_truthy (s : string) : bool :=
  match s with EmptyString => false | _ => true end.

(** [s[:n]] for [n >= 0]: the first [n] code points *)
Fixpoint str_take (n : nat) (s : string) : string :=
  match s with
  | EmptyString => EmptyString
  | String c s' =>
      if is_continuation c then String c (str_take n s')
      else
        match n with
        | O => EmptyString
        | S n' => String c (str_take n' s')
        end
  end.

(** [sep.join(l)] *)
Fixpoint join (sep : string) (l : list string) : string :=
  match l with
  | [] => ""
  | [x] => x
  | x :: l' => x +:+ sep +:+ join sep l'
  end.

(** [str(n)] for an [int] *)
Definition str_int (n : Z) : string := pretty n.

(** [bool(n)] for an [int] *)
Definition int_truthy (n : Z) : bool := negb (n =? 0).

(** *** Lists *)

(** [l[:n]], with Python's reading of a negative bound *)
Definition slice_to {A} (l : list A) (n : Z) : list A :=
  if n <? 0 then take (Z.to_nat (Z.of_nat (length l) + n)) l
  else take (Z.to_nat n) l.

(** *** Decimal: coefficient * 10^exponent (finite values only) *)

Record Decimal := { dec_coeff : Z; dec_exp : Z }.

(** [bool(d)] *)
Definition dec_truthy (d : Decimal) : bool := negb (dec_coeff d =? 0).
(** [d <= 0] *)
Definition dec_le0 (d : Decimal) : bool := dec_coeff d <=? 0.
(** [d >= 0] *)
Definition dec_ge0 (d : Decimal) : bool := 0 <=? dec_coeff d.

(** [bool(x)] for an [Optional[Decimal]] *)
Definition opt_dec_truthy (d : option Decimal) : bool :=
  match d with None => false | Some d => dec_truthy d end.

(** [a or b] on [Optional[Decimal]] *)
Definition dec_or (a b : option Decimal) : option Decimal :=
  if opt_dec_truthy a then a else b.

(** *** datetime and timedelta, in microseconds *)

Definition us_per_second : Z := 1000000.
Definition us_per_hour : Z := 3600 * us_per_second.
Definition us_per_day : Z := 24 * us_per_hour.

(** [timedelta(days=d, hours=h, minutes=m)] *)
Definition timedelta (d h m : Z) : Z :=
  d * us_per_day + h * us_per_hour + m * 60 * us_per_second.

(** the calendar day of [t], as a day number, and the time within it *)
Definition date_of (t : Z) : Z := t / us_per_day.
Definition time_of_day (t : Z) : Z := t mod us_per_day.

(** [t.hour] *)
Definition hour (t : Z) : Z := time_of_day t / us_per_hour.

(** [t.replace(hour=h, minute=m, second=s, microsecond=us)] *)
Definition replace_time (t h m s us : Z) : Z :=
  date_of t * us_per_day + h * us_per_hour + m * 60 * us_per_second
  + s * us_per_second + us.

(** *** JSON documents *)

Inductive JVal :=
| JNull
| JBool (b : bool)
| JInt (n : Z)
| JStr (s : string)
| JList (l : list JVal)
| JObj (fields : list (string * JVal)).

(** [bool(v)] *)
Definition truthy (v : JVal) : bool :=
  match v with
  | JNull => false
  | JBool b => b
  | JInt n => negb (n =? 0)
  | JStr s => str_truthy s
  | JList l => match l with [] => false | _ => true end
  | JObj f => match f with [] => false | _ => true end
  end.

(** lookup in a dict given as its items *)
Fixpoint assoc (k : string) (f : list (string * JVal)) : option JVal :=
  match f with
  | [] => None
  | (k', v) :: f' => if String.eqb k k' then Some v else assoc k f'
  end.

(** [d[k] = v]: overwrite in place, else append *)
Fixpoint assoc_set (k : string) (v : JVal) (f : list (string * JVal))
  : list (string * JVal) :=
  match f with
  | [] => [(k, v)]
  | (k', v') :: f' =>
      if String.eqb k k' then (k, v) :: f' else (k', v') :: assoc_set k v f'
  end.

(** [repr(v)] and [str(v)]; escapes inside quoted strings are not
    modelled. *)
Fixpoint repr (v : JVal) : string :=
  match v with
  | JNull => "None"
  | JBool true => "True"
  | JBool false => "False"
  | JInt n => str_int n
  | JStr s => "'" +:+ s +:+ "'"
  | JList l => "[" +:+ join ", " (map repr l) +:+ "]"
  | JObj f =>
      "{" +:+ join ", " (map (fun kv => "'" +:+ fst kv +:+ "': " +:+ repr (snd kv)) f)
      +:+ "}"
  end.

Definition str (v : JVal) : string :=
  match v with
  | JStr s => s
  | _ => repr v
  end.

(** [v == "success"] *)
Definition is_str (v : JVal) (s : string) : bool :=
  match v with JStr s' => String.eqb s' s | _ => false end.

(** the first of [fields] that is a key of the dict with a true value *)
Fixpoint first_truthy (fields : list string) (d : list (string * JVal))
  : option JVal :=
  match fields with
  | [] => None
  | f :: fs =>
      match assoc f d with
      | Some v => if truthy v then Some v else first_truthy fs d
      | None => first_truthy fs d
      end
  end.

(** *** Exceptions *)

Inductive Exn :=
| ValueError (msg : string)
| TypeError (msg : string)
| AttributeError (msg : string)
| HTTPError (msg : string)                         (* httpx.HTTPError *)
| HTTPException (status_code : Z) (detail : string) (* fastapi *)
| ValidationError (title : string) (errors : list (string * string))
| DatabaseError (msg : string).

Definition render_field_error (e : string * string) : string :=
  fst e +:+ ": " +:+ snd e.

(** [str(e)]; the text of a pydantic validation error is abbreviated to its
    title and its field messages. *)
Definition str_exn (e : Exn) : string :=
  match e with
  | ValueError m | TypeError m | AttributeError m | HTTPError m
  | DatabaseError m => m
  | HTTPException c d => str_int c +:+ ": " +:+ d
  | ValidationError t errs =>
      str_int (Z.of_nat (length errs)) +:+ " validation error for " +:+ t
      +:+ "; " +:+ join "; " (map render_field_error errs)
  end.

Inductive Res (A : Type) :=
| Ok (a : A)
| Raise (e : Exn).
Arguments Ok {A} a.
Arguments Raise {A} e.

Definition is_ok {A} (r : Res A) : bool :=
  match r with Ok _ => true | Raise _ => false end.

(** [v.get(k, default)]; anything but a dict has no [get] *)
Definition get (v : JVal) (k : string) (dflt : JVal) : Res JVal :=
  match v with
  | JObj f => Ok (default dflt (assoc k f))
  | _ => Raise (AttributeError "object has no attribute 'get'")
  end.

(** [int(s)] for a string: optional sign, decimal digits, single
    underscores between digits, surrounding whitespace. The digits are the
    decimal digits of Unicode, which come in runs of ten; the whitespace is
    that of [isspace()] without the four separators 28 to 31. *)
Definition digit_zeros : list N :=
  [48; 1632; 1776; 1984; 2406; 2534; 2662; 2790; 2918; 3046; 3174; 3302;
   3430; 3558; 3664; 3792; 3872; 4160; 4240; 6112; 6160; 6470; 6608; 6784;
   6800; 6992; 7088; 7232; 7248; 42528; 43216; 43264; 43472; 43504; 43600;
   44016; 65296; 66720; 68912; 69734; 69872; 69942; 70096; 70384; 70736;
   70864; 71248; 71360; 71472; 71904; 72016; 72784; 73040; 73120; 92768;
   92864; 93008; 120782; 120792; 120802; 120812; 120822; 123200; 123632;
   125264; 130032]%N.

Definition digit_val (ch : string) : option Z :=
  let n := ord ch in
  match List.find (fun z => (z <=? n) && (n <? z + 10))%N digit_zeros with
  | Some z => Some (Z.of_N (n - z))
  | None => None
  end.

Definition is_int_space (ch : string) : bool :=
  is_space ch && negb (bool_decide (ord ch ∈ [28; 29; 30; 31]%N)).

Fixpoint parse_digits (s : list string) (acc : Z) (after_digit : bool)
  : option Z :=
  match s with
  | [] => if after_digit then Some acc else None
  | ch :: s' =>
      match digit_val ch with
      | Some d => parse_digits s' (10 * acc + d) true
      | None =>
          if String.eqb ch "_" && after_digit then parse_digits s' acc false
          else None
      end
  end.

Definition int_of_str (s : string) : option Z :=
  match reverse (dropwhile is_int_space
                   (reverse (dropwhile is_int_space (chars s)))) with
  | "-" :: r => Z.opp <$> parse_digits r 0 false
  | "+" :: r => parse_digits r 0 false
  | r => parse_digits r 0 false
  end.

(** [int(v)] *)
Definition int (v : JVal) : Res Z :=
  match v with
  | JInt n => Ok n
  | JBool b => Ok (if b then 1 else 0)
  | JStr s =>
      match int_of_str s with
      | Some n => Ok n
      | None =>
          Raise (ValueError ("invalid literal for int() with base 10: " +:+ repr v))
      end
  | _ => Raise (TypeError "int() argument must be a string or a number")
  end.

(** a comprehension [[x for x in l if p x]] whose test may raise *)
Fixpoint filter_res {A} (p : A -> Res bool) (l : list A) : Res (list A) :=
  match l with
  | [] => Ok []
  | x :: l' =>
      match p x with
      | Raise e => Raise e
      | Ok b =>
          match filter_res p l' with
          | Raise e => Raise e
          | Ok r => Ok (if b then x :: r else r)
          end
      end
  end.

(** *** More of [str] *)

(** [s.replace(old, new)] for a non-empty [old]: the occurrences of [old]
    are found from the left and do not overlap; [skip] counts the characters
    of a match still to be passed over. *)
Fixpoint replace_from (old new : string) (skip : nat) (s : string) : string :=
  match s with
  | EmptyString => EmptyString
  | String c s' =>
      match skip with
      | S n => replace_from old new n s'
      | O =>
          if String.prefix old s
          then new +:+ replace_from old new (String.length old - 1) s'
          else String c (replace_from old new 0 s')
      end
  end.

(** for an empty [old], [new] goes in front of every character and at the
    end *)
Fixpoint replace_empty (new s : string) : string :=
  match s with
  | EmptyString => new
  | String c s' => new +:+ String c (replace_empty new s')
  end.

Definition str_replace (s old new : string) : string :=
  match old with
  | EmptyString => replace_empty new s
  | _ => replace_from old new 0 s
  end.

(** [v is None] *)
Definition is_none (v : JVal) : bool :=
  match v with JNull => true | _ => false end.

(** [isinstance(v, dict)] *)
Definition is_dict_value (v : JVal) : bool :=
  match v with JObj _ => true | _ => false end.

(** [sorted(items)] for the items of a dict: tuples are compared by their
    first components, the keys, which are distinct; strings compare by code
    point, character by character. Insertion from the right is a stable
    sort. *)
Fixpoint insert_item {A} (x : string * A) (l : list (string * A))
  : list (string * A) :=
  match l with
  | [] => [x]
  | y :: l' =>
      if String.leb (fst x) (fst y) then x :: y :: l' else y :: insert_item x l'
  end.

Definition sorted_items {A} (l : list (string * A)) : list (string * A) :=
  foldr insert_item [] l.

End Python.

Export Python.

(** ** app/core/security.py *)

Module Security.

(** The primitives [CredentialCrypto] is built on, with the part of their
    contracts the class relies on: UTF-8 text encoding, standard base64 and
    the Fernet token scheme of the [cryptography] package. [entropy] is what
    [Fernet.encrypt] draws for one token (initialisation vector and time
    stamp). *)
Class CryptoLib := {
  bytes : Type;
  bytes_empty : bytes;
  fernet : Type;
  entropy : Type;
  (* str.encode('utf-8') / bytes.decode('utf-8') *)
  utf8_encode : string -> bytes;
  utf8_decode : bytes -> option string;
  (* base64.b64encode / base64.b64decode *)
  b64encode : bytes -> bytes;
  b64decode : bytes -> option bytes;
  (* Fernet.encrypt / Fernet.decrypt (no ttl) *)
  fernet_encrypt : fernet -> entropy -> bytes -> bytes;
  fernet_decrypt : fernet -> bytes -> option bytes;

  utf8_decode_encode : forall s, utf8_decode (utf8_encode s) = Some s;
  utf8_encode_decode : forall b s, utf8_decode b = Some s -> utf8_encode s = b;
  utf8_decode_empty : utf8_decode bytes_empty = Some "";
  b64decode_encode : forall b, b64decode (b64encode b) = Some b;
  b64encode_empty : b64encode bytes_empty = bytes_empty;
  b64encode_ascii : forall b, is_Some (utf8_decode (b64encode b));
  fernet_decrypt_encrypt :
    forall k r b, fernet_decrypt k (fernet_encrypt k r b) = Some b;
  fernet_token_nonempty : forall k r b, fernet_encrypt k r b <> bytes_empty
}.

Section CredentialCrypto.
Context `{CryptoLib}.

(** [CredentialCrypto.encrypt_data]; [self.fernet] is [k]. *)
Definition encrypt_data (k : fernet) (r : entropy) (data : string)
  : Res string :=
  if negb (str_truthy data) then Ok ""
  else
    let data_bytes := utf8_encode data in
    let encrypted_data := fernet_encrypt k r data_bytes in
    match utf8_decode (b64encode encrypted_data) with
    | Some s => Ok s
    | None => Raise (ValueError "Failed to encrypt data")
    end.

(** [CredentialCrypto.decrypt_data] *)
Definition decrypt_data (k : fernet) (encrypted_data : string)
  : Res string :=
  if negb (str_truthy encrypted_data) then Ok ""
  else
    let failed :=
      Raise (ValueError
        "Failed to decrypt data. Data may be corrupted or key may be invalid.")
    in
    match b64decode (utf8_encode encrypted_data) with
    | None => failed
    | Some encrypted_bytes =>
        match fernet_decrypt k encrypted_bytes with
        | None => failed
        | Some decrypted_bytes =>
            match utf8_decode decrypted_bytes with
            | None => failed
            | Some s => Ok s
            end
        end
    end.

(** The module-level [decrypt_data]. [crypto] is the outcome of
    [get_crypto_instance()]: the process-wide instance built from the
    FERNET_KEY of the environment, or the [ValueError] its construction
    raises when the key is missing or malformed. *)
Definition global_decrypt_data (crypto : Res fernet) (encrypted_data : string)
  : Res string :=
  match crypto with
  | Raise e => Raise e
  | Ok k => decrypt_data k encrypted_data
  end.

(** The module-level [encrypt_data]; [r] is the entropy its token draws. *)
Definition global_encrypt_data (crypto : Res fernet) (r : entropy)
    (data : string) : Res string :=
  match crypto with
  | Raise e => Raise e
  | Ok k => encrypt_data k r data
  end.

(** [decrypt_data(value)] for a value of any type: what is not a [str] has
    no [encode], and the failure is reported as any other. *)
Definition decrypt_value (crypto : Res fernet) (value : JVal) : Res string :=
  match value with
  | JStr s => global_decrypt_data crypto s
  | _ =>
      match crypto with
      | Raise e => Raise e
      | Ok _ =>
          if truthy value then
            Raise (ValueError
              "Failed to decrypt data. Data may be corrupted or key may be invalid.")
          else Ok ""
      end
  end.

Definition required_fields : list string :=
  ["api_key"; "secret_key"; "user_id"; "password"].

(** [validate_credential_data] *)
Definition validate_credential_data (data : list (string * JVal)) : bool :=
  forallb (fun field =>
             match assoc field data with
             | Some v => truthy v
             | None => false
             end)
          required_fields.

(** the loop of [encrypt_client_credentials]; the [n]-th call of
    [encrypt_data] draws the entropy [r n] *)
Fixpoint encrypt_items (crypto : Res fernet) (r : nat -> entropy) (n : nat)
    (items encrypted_creds : list (string * JVal))
  : Res (list (string * JVal)) :=
  match items with
  | [] => Ok encrypted_creds
  | (key, value) :: rest =>
      if truthy value then
        match global_encrypt_data crypto (r n) (str value) with
        | Raise e => Raise e
        | Ok c =>
            encrypt_items crypto r (S n) rest
              (assoc_set ("encrypted_" +:+ key) (JStr c) encrypted_creds)
        end
      else encrypt_items crypto r n rest encrypted_creds
  end.

(** [encrypt_client_credentials] *)
Definition encrypt_client_credentials (crypto : Res fernet)
    (r : nat -> entropy) (credentials : list (string * JVal))
  : Res (list (string * JVal)) :=
  if negb (validate_credential_data credentials) then
    Raise (ValueError
      "Invalid credential data. All fields (api_key, secret_key, user_id, password) are required.")
  else encrypt_items crypto r 0 credentials [].

(** the loop of [decrypt_client_credentials] *)
Fixpoint decrypt_items (crypto : Res fernet)
    (items decrypted_creds : list (string * JVal))
  : Res (list (string * JVal)) :=
  match items with
  | [] => Ok decrypted_creds
  | (key, value) :: rest =>
      if startswith key "encrypted_" && truthy value then
        let original_key := str_replace key "encrypted_" "" in
        match decrypt_value crypto value with
        | Raise e => Raise e
        | Ok plain =>
            decrypt_items crypto rest
              (assoc_set original_key (JStr plain) decrypted_creds)
        end
      else decrypt_items crypto rest decrypted_creds
  end.

(** [decrypt_client_credentials] *)
Definition decrypt_client_credentials (crypto : Res fernet)
    (encrypted_credentials : list (string * JVal))
  : Res (list (string * JVal)) :=
  decrypt_items crypto encrypted_credentials [].

End CredentialCrypto.

End Security.

(** ** Records shared by the wrapper and the endpoints *)

(** app/models/models.py, [Client]: the columns the core reads. *)
Record Client := {
  id : Z;
  client_code : string;
  is_active : bool;
  encrypted_mofsl_api_key_interactive : option string;
  encrypted_mofsl_secret_key_interactive : option string;
  encrypted_mofsl_user_id_interactive : option string;
  encrypted_mofsl_password_interactive : option string;
  encrypted_mofsl_api_key_commodity : option string;
  encrypted_mofsl_secret_key_commodity : option string;
  encrypted_mofsl_user_id_commodity : option string;
  encrypted_mofsl_password_commodity : option string
}.

(** app/schemas/schemas.py, [OrderCreate] (fields of [OrderBase]). *)
Record OrderCreate := {
  oc_client_id : Z;
  oc_token_id : Z;
  oc_order_type : string;
  oc_transaction_type : string;
  oc_product_type : string;
  oc_quantity : Z;
  oc_price : option Decimal;
  oc_trigger_price : option Decimal;
  oc_disclosed_quantity : Z;
  oc_exchange : string;
  oc_validity : string;
  oc_remarks : option string
}.

(** app/models/models.py, [Order]: the row written after a placement. *)
Record OrderModel := {
  om_order_id : string;
  om_client_id : Z;
  om_token_id : Z;
  om_order_type : string;
  om_transaction_type : string;
  om_product_type : JVal;
  om_quantity : Z;
  om_price : option Decimal;
  om_trigger_price : option Decimal;
  om_exchange : string;
  om_validity : option string;
  om_status : string;
  om_remarks : string
}.

(** [AuthToken] of mofsl_api_wrapper.py *)
Record AuthToken := {
  token : JVal;
  at_client_id : Z;
  expires_at : Z;
  token_type : string;
  created_at : Z
}.

(** [AuthToken.is_expired], at clock reading [now] *)
Definition is_expired (now : Z) (t : AuthToken) : bool := expires_at t <=? now.

(** What the process does that an observer outside can see. *)
Inductive Event :=
| EvDecrypt (ciphertext : string)
| EvHttpPost (url : string) (bearer : option string) (payload : JVal)
| EvDbAdd (row : OrderModel)
| EvDbCommit.

(** an upstream call *)
Definition is_upstream (e : Event) : bool :=
  match e with EvHttpPost _ _ _ => true | _ => false end.
(** a credential decryption *)
Definition is_decrypt (e : Event) : bool :=
  match e with EvDecrypt _ => true | _ => false end.

Record HttpResponse := {
  status_code : Z;
  json : Res JVal        (* the outcome of [response.json()] *)
}.

(** Process state: [MOFSLApiWrapper._auth_tokens] and the trace. *)
Record World := {
  auth_tokens : gmap Z AuthToken;
  trace : list Event
}.

(** ** The monad of effectful code *)

Definition Py (A : Type) : Type := World -> Res A * World.

Definition ret {A} (a : A) : Py A := fun w => (Ok a, w).
Definition raise {A} (e : Exn) : Py A := fun w => (Raise e, w).
Definition bind {A B} (m : Py A) (k : A -> Py B) : Py B :=
  fun w => match m w with
           | (Ok a, w') => k a w'
           | (Raise e, w') => (Raise e, w')
           end.
(** [try: m  except Exception as e: h e] *)
Definition try_except {A} (m : Py A) (h : Exn -> Py A) : Py A :=
  fun w => match m w with
           | (Ok a, w') => (Ok a, w')
           | (Raise e, w') => h e w'
           end.
Definition lift {A} (r : Res A) : Py A := fun w => (r, w).
Definition emit (e : Event) : Py unit :=
  fun w => (Ok tt, {| auth_tokens := auth_tokens w; trace := trace w ++ [e] |}).
Definition get_trace : Py (list Event) := fun w => (Ok (trace w), w).
Definition get_tokens : Py (gmap Z AuthToken) := fun w => (Ok (auth_tokens w), w).
Definition put_tokens (m : gmap Z AuthToken) : Py unit :=
  fun w => (Ok tt, {| auth_tokens := m; trace := trace w |}).

(** a task under [asyncio.gather(..., return_exceptions=True)]: the
    exception it raises becomes its result *)
Definition attempt {A} (m : Py A) : Py (Res A) :=
  fun w => let (r, w') := m w in (Ok r, w').

Notation "'let*' x ':=' m 'in' k" := (bind m (fun x => k))
  (at level 10, x name, m at level 100, k at level 200).
Notation "m ';;' k" := (bind m (fun _ => k))
  (at level 100, k at level 200, right associativity).

(** ** app/core/mofsl_api_wrapper.py *)

Module Wrapper.
Import Security.

Section MOFSLApiWrapper.
Context `{CryptoLib} `{CaseMapping}.

(** The surroundings of the process. *)
Record Env := {
  (* datetime.now(timezone.utc) *)
  env_clock : list Event -> Z;
  (* the peer answering a POST: a response, or a transport failure *)
  env_http : list Event -> string -> option string -> JVal -> Res HttpResponse;
  (* get_crypto_instance(): the instance built from FERNET_KEY, or the
     exception its construction raises *)
  env_crypto : Res fernet;
  (* pyotp.TOTP(secret).now() *)
  env_totp : list Event -> string -> Res string;
  (* db.query(Client).filter(Client.id == i).first() *)
  env_db_client : list Event -> Z -> Res (option Client);
  (* db.query(Client).filter(...).all(), by optional id filter *)
  env_db_clients : list Event -> option (list Z) -> Res (list Client);
  (* db.commit(): the exception it raises, if any *)
  env_db_commit : list Event -> option Exn;
  (* reading an attribute of a row of the session: the exception the
     session raises, if any (a row is reloaded after a commit, and cannot
     be after a commit that failed) *)
  env_db_row : list Event -> option Exn;
  (* str(float(d)) *)
  env_float_str : Decimal -> string;
  (* int((t1 - t0).total_seconds() * 1000) *)
  env_elapsed_ms : Z -> Z -> Z;
  (* MOFSLEnvironment: base url of the deployment *)
  env_base_url : string
}.

Variable env : Env.

Definition clock : Py Z := fun w => (Ok (env_clock env (trace w)), w).

(** [http_client.post(url, json=payload, headers=...)] *)
Definition http_post (url : string) (bearer : option string) (payload : JVal)
  : Py HttpResponse :=
  let* tr := get_trace in
  emit (EvHttpPost url bearer payload);;
  lift (env_http env tr url bearer payload).

(** [decrypt_data(c)] of security.py, through the process-wide instance *)
Definition decrypt (c : string) : Py string :=
  emit (EvDecrypt c);;
  lift (global_decrypt_data (env_crypto env) c).

Record MOFSLCredentials := {
  api_key : string;
  secret_key : string;
  user_id : string;
  password : string;
  dob : option string;
  totp_secret : option string
}.

(** [MOFSLCredentials.validate] *)
Definition validate (c : MOFSLCredentials) : bool :=
  forallb (fun field => str_truthy field && str_truthy (strip field))
          [api_key c; secret_key c; user_id c; password c].

Definition opt_str_truthy (o : option string) : bool :=
  match o with Some s => str_truthy s | None => false end.

Definition segment_fields (client : Client) (segment : string)
  : Res (list (option string)) :=
  if String.eqb segment "interactive" then
    Ok [encrypted_mofsl_api_key_interactive client;
        encrypted_mofsl_secret_key_interactive client;
        encrypted_mofsl_user_id_interactive client;
        encrypted_mofsl_password_interactive client]
  else if String.eqb segment "commodity" then
    Ok [encrypted_mofsl_api_key_commodity client;
        encrypted_mofsl_secret_key_commodity client;
        encrypted_mofsl_user_id_commodity client;
        encrypted_mofsl_password_commodity client]
  else Raise (ValueError ("Invalid segment: " +:+ segment)).

(** [_decrypt_client_credentials] *)
Definition _decrypt_client_credentials (client : Client) (segment : string)
  : Py MOFSLCredentials :=
  try_except
    (let* fields := lift (segment_fields client segment) in
     if negb (forallb opt_str_truthy fields) then
       raise (ValueError ("Missing " +:+ segment +:+ " credentials for client "
                          +:+ client_code client))
     else
       match fields with
       | [Some k; Some s; Some u; Some p] =>
           let* k' := decrypt k in
           let* s' := decrypt s in
           let* u' := decrypt u in
           let* p' := decrypt p in
           let credentials :=
             {| api_key := k'; secret_key := s'; user_id := u';
                password := p'; dob := None; totp_secret := None |} in
           if negb (validate credentials) then
             raise (ValueError ("Invalid decrypted credentials for client "
                                +:+ client_code client))
           else ret credentials
       | _ => raise (ValueError ("Missing " +:+ segment
                                 +:+ " credentials for client "
                                 +:+ client_code client))
       end)
    (fun e => raise (ValueError ("Failed to decrypt credentials: " +:+ str_exn e))).

(** [_prepare_auth_payload]; a failing TOTP generation only logs. *)
Definition _prepare_auth_payload (credentials : MOFSLCredentials) : Py JVal :=
  let payload := [("userid", JStr (user_id credentials));
                  ("password", JStr (password credentials));
                  ("apikey", JStr (api_key credentials))] in
  let payload :=
    match dob credentials with
    | Some d => if str_truthy d then assoc_set "2FA" (JStr d) payload else payload
    | None => payload
    end in
  let* tr := get_trace in
  let payload :=
    match totp_secret credentials with
    | Some sec =>
        if str_truthy sec then
          match env_totp env tr sec with
          | Ok code => assoc_set "totp" (JStr code) payload
          | Raise _ => payload
          end
        else payload
    | None => payload
    end in
  ret (JObj payload).

(** [_calculate_token_expiry], at clock reading [now] *)
Definition _calculate_token_expiry (now : Z) : Z :=
  let ist_offset := timedelta 0 5 30 in
  let ist_now := now + ist_offset in
  let expiry_ist :=
    if hour ist_now <? 6 then replace_time ist_now 6 0 0 0
    else replace_time (ist_now + timedelta 1 0 0) 6 0 0 0 in
  expiry_ist - ist_offset.

Definition http_label (code : Z) : string := "HTTP " +:+ str_int code.

(** the [error_msg] both response handlers compute for a non-200 answer *)
Definition http_error_msg (response : HttpResponse) : string :=
  match json response with
  | Ok error_data =>
      match get error_data "message" (JStr (http_label (status_code response))) with
      | Ok m => str m
      | Raise _ => http_label (status_code response)
      end
  | Raise _ => http_label (status_code response)
  end.

(** [_handle_auth_response] *)
Definition _handle_auth_response (response : HttpResponse) (client : Client)
  : Res unit :=
  if status_code response =? 200 then
    let body :=
      match json response with
      | Raise e => Raise e
      | Ok response_data =>
          match get response_data "status" JNull with
          | Raise e => Raise e
          | Ok st =>
              if is_str st "success" then Ok tt
              else
                match get response_data "AuthToken" JNull with
                | Raise e => Raise e
                | Ok a =>
                    if truthy a then Ok tt
                    else
                      match get response_data "message" (JStr "Unknown error") with
                      | Raise e => Raise e
                      | Ok error_msg =>
                          Raise (ValueError ("Authentication failed: " +:+ str error_msg))
                      end
                end
          end
      end in
    match body with
    | Ok u => Ok u
    | Raise (ValueError m) => Raise (ValueError m)
    | Raise e => Raise (ValueError ("Invalid response format: " +:+ str_exn e))
    end
  else
    Raise (ValueError ("Authentication failed: " +:+ http_error_msg response)).

(** [_extract_auth_token] *)
Definition _extract_auth_token (response_data : JVal) : Res JVal :=
  let token_fields := ["AuthToken"; "authToken"; "token"; "access_token"] in
  match response_data with
  | JObj d =>
      match first_truthy token_fields d with
      | Some v => Ok v
      | None => Raise (ValueError "Auth token not found in response")
      end
  | _ => Raise (TypeError "response is not a mapping")
  end.

Definition auth_url : string :=
  env_base_url env +:+ "/rest/login/v3/authdirectapi".

(** the [try] block of [authenticate_client] *)
Definition authenticate_fresh (client : Client) (segment : string)
  : Py AuthToken :=
  let* credentials := _decrypt_client_credentials client segment in
  let* auth_payload := _prepare_auth_payload credentials in
  let* response := http_post auth_url None auth_payload in
  lift (_handle_auth_response response client);;
  let* response_data := lift (json response) in
  let* auth_token_value := lift (_extract_auth_token response_data) in
  let* now := clock in
  let token_expiry := _calculate_token_expiry now in
  let auth_token :=
    {| token := auth_token_value; at_client_id := id client;
       expires_at := token_expiry; token_type := "Bearer";
       created_at := now |} in
  let* tokens := get_tokens in
  put_tokens (<[id client := auth_token]> tokens);;
  ret auth_token.

(** [authenticate_client] *)
Definition authenticate_client (client : Client) (segment : string)
    (force_refresh : bool) : Py AuthToken :=
  let* tokens := get_tokens in
  let* now := clock in
  let fresh :=
    try_except (authenticate_fresh client segment)
      (fun e =>
         match e with
         | HTTPError m => raise (HTTPError m)
         | _ => raise (ValueError ("Authentication failed: " +:+ str_exn e))
         end) in
  match (if force_refresh then None else tokens !! id client) with
  | Some existing_token =>
      if negb (is_expired now existing_token) then ret existing_token
      else fresh
  | None => fresh
  end.

(** [get_cached_token] *)
Definition get_cached_token (client_id : Z) : Py (option AuthToken) :=
  let* tokens := get_tokens in
  let* now := clock in
  match tokens !! client_id with
  | Some t =>
      if negb (is_expired now t) then ret (Some t)
      else (put_tokens (delete client_id tokens);; ret None)
  | None => ret None
  end.

(** [invalidate_token] *)
Definition invalidate_token (client_id : Z) : Py bool :=
  let* tokens := get_tokens in
  match tokens !! client_id with
  | Some _ => put_tokens (delete client_id tokens);; ret true
  | None => ret false
  end.

Definition logout_url : string := env_base_url env +:+ "/rest/login/v2/logout".

(** [logout_client]: the request carries the [Authorization] header and no
    body; the status of the answer is only logged. *)
Definition logout_client (client : Client) : Py bool :=
  let* cached := get_cached_token (id client) in
  match cached with
  | None => ret true
  | Some t =>
      try_except
        (http_post logout_url (Some ("Bearer " +:+ str (token t))) JNull;;
         invalidate_token (id client);;
         ret true)
        (fun _ => invalidate_token (id client);; ret false)
  end.

(** *** Broker gateway *)

(** [_make_authenticated_request] *)
Definition _make_authenticated_request (endpoint : string) (auth_token : JVal)
    (payload : JVal) : Py JVal :=
  let url := env_base_url env +:+ endpoint in
  try_except
    (let* response := http_post url (Some ("Bearer " +:+ str auth_token)) payload in
     if status_code response =? 200 then
       let body :=
         match json response with
         | Raise e => Raise e
         | Ok response_data =>
             match get response_data "status" JNull with
             | Raise e => Raise e
             | Ok st =>
                 if is_str st "success"
                    || match response_data with
                       | JObj d => bool_decide (is_Some (assoc "data" d))
                       | _ => false
                       end
                 then Ok response_data
                 else
                   match get response_data "message" (JStr "Unknown error") with
                   | Raise e => Raise e
                   | Ok error_msg =>
                       Raise (ValueError ("API error: " +:+ str error_msg))
                   end
             end
         end in
       match body with
       | Ok d => ret d
       | Raise (ValueError m) => raise (ValueError m)
       | Raise e => raise (ValueError ("Invalid response format: " +:+ str_exn e))
       end
     else
       raise (ValueError ("Request failed: " +:+ http_error_msg response)))
    (fun e =>
       match e with
       | HTTPError m => raise (HTTPError m)
       | _ => raise (ValueError ("Request failed: " +:+ str_exn e))
       end).

(** [get_positions] *)
Definition get_positions (auth_token : JVal) (client_code : string)
  : Py (list JVal) :=
  let payload := JObj [("clientcode", JStr client_code)] in
  let* response_data :=
    _make_authenticated_request "/rest/report/v1/getposition" auth_token payload in
  let* positions_data := lift (get response_data "data" (JList [])) in
  match positions_data with
  | JList l => ret l
  | v => ret (if truthy v then [v] else [])
  end.

(** [_validate_order_details] *)
Definition _validate_order_details (order_details : OrderCreate) : Res unit :=
  if negb (int_truthy (oc_quantity order_details))
     || (oc_quantity order_details <=? 0) then
    Raise (ValueError "Order quantity must be greater than 0")
  else if (bool_decide (oc_order_type order_details ∈ ["LMT"; "SL"]))
          && (negb (opt_dec_truthy (oc_price order_details))
              || match oc_price order_details with
                 | Some p => dec_le0 p
                 | None => false
                 end) then
    Raise (ValueError
      "Price is required and must be greater than 0 for limit orders")
  else if (bool_decide (oc_order_type order_details ∈ ["SLM"; "SL"]))
          && (negb (opt_dec_truthy (oc_trigger_price order_details))
              || match oc_trigger_price order_details with
                 | Some p => dec_le0 p
                 | None => false
                 end) then
    Raise (ValueError
      "Trigger price is required and must be greater than 0 for stop-loss orders")
  else if int_truthy (oc_disclosed_quantity order_details)
          && (oc_quantity order_details <? oc_disclosed_quantity order_details) then
    Raise (ValueError "Disclosed quantity cannot be greater than total quantity")
  else Ok tt.

(** [mapping.get(k, dflt)] on a literal dict of strings *)
Fixpoint mapping_get (m : list (string * string)) (k dflt : string) : string :=
  match m with
  | [] => dflt
  | (k', v) :: m' => if String.eqb k k' then v else mapping_get m' k dflt
  end.

Definition order_type_mapping : list (string * string) :=
  [("MKT", "MARKET"); ("LMT", "LIMIT"); ("SLM", "SL-M"); ("SL", "SL")].
Definition transaction_type_mapping : list (string * string) :=
  [("BUY", "B"); ("SELL", "S")].
Definition product_type_mapping : list (string * string) :=
  [("MIS", "MIS"); ("CNC", "CNC"); ("NRML", "NRML")].
Definition validity_mapping : list (string * string) :=
  [("DAY", "DAY"); ("IOC", "IOC"); ("GTD", "GTD")].

(** [_map_order_to_mofsl_payload] *)
Definition _map_order_to_mofsl_payload (order_details : OrderCreate)
    (client_code : string) : JVal :=
  let payload :=
    [("clientcode", JStr client_code);
     ("symboltoken", JStr (str_int (oc_token_id order_details)));
     ("transactiontype",
      JStr (mapping_get transaction_type_mapping
              (oc_transaction_type order_details)
              (oc_transaction_type order_details)));
     ("ordertype",
      JStr (mapping_get order_type_mapping
              (oc_order_type order_details) (oc_order_type order_details)));
     ("producttype",
      JStr (mapping_get product_type_mapping
              (oc_product_type order_details) (oc_product_type order_details)));
     ("quantity", JStr (str_int (oc_quantity order_details)));
     ("exchange", JStr (oc_exchange order_details));
     ("validity",
      JStr (mapping_get validity_mapping (oc_validity order_details) "DAY"))] in
  let payload :=
    match oc_price order_details with
    | Some p => assoc_set "price" (JStr (env_float_str env p)) payload
    | None => payload
    end in
  let payload :=
    match oc_trigger_price order_details with
    | Some p => assoc_set "triggerprice" (JStr (env_float_str env p)) payload
    | None => payload
    end in
  let payload :=
    if int_truthy (oc_disclosed_quantity order_details)
       && (0 <? oc_disclosed_quantity order_details)
    then assoc_set "disclosedquantity"
           (JStr (str_int (oc_disclosed_quantity order_details))) payload
    else payload in
  let payload :=
    match oc_remarks order_details with
    | Some r =>
        if str_truthy r then assoc_set "remarks" (JStr (str_take 100 r)) payload
        else payload
    | None => payload
    end in
  JObj payload.

Definition order_id_fields : list string :=
  ["uniqueorderid"; "orderid"; "order_id"; "orderId"].

(** [_extract_order_id] *)
Definition _extract_order_id (response_data : JVal) : Res string :=
  match response_data with
  | JObj root =>
      let data_section := default (JObj []) (assoc "data" root) in
      let nested :=
        match data_section with
        | JObj d => first_truthy order_id_fields d
        | _ => None
        end in
      match nested with
      | Some v => Ok (str v)
      | None =>
          match first_truthy order_id_fields root with
          | Some v => Ok (str v)
          | None => Raise (ValueError "Order ID not found in response")
          end
      end
  | _ => Raise (AttributeError "object has no attribute 'get'")
  end.

(** [place_order] *)
Definition place_order (auth_token : JVal) (order_details : OrderCreate)
    (client_code : string) : Py string :=
  lift (_validate_order_details order_details);;
  let payload := _map_order_to_mofsl_payload order_details client_code in
  let* response_data :=
    _make_authenticated_request "/rest/secure/v1/placeorder" auth_token payload in
  lift (_extract_order_id response_data).

(** *** The other calls of the gateway *)

(** the list every fetcher makes of the "data" of an answer: the list
    itself, a value that is no list alone in a list, nothing for a false
    value *)
Definition data_list (response_data : JVal) : Res (list JVal) :=
  match get response_data "data" (JList []) with
  | Raise e => Raise e
  | Ok (JList l) => Ok l
  | Ok v => Ok (if truthy v then [v] else [])
  end.

(** [get_holdings] *)
Definition get_holdings (auth_token : JVal) (client_code : string)
  : Py (list JVal) :=
  let payload := JObj [("clientcode", JStr client_code)] in
  let* response_data :=
    _make_authenticated_request "/rest/report/v1/getdpholding" auth_token payload in
  lift (data_list response_data).

Definition valid_exchanges : list string := ["NSE"; "BSE"; "MCX"; "NCDEX"; "CDS"].

(** [search_instruments] *)
Definition search_instruments (auth_token : JVal) (exchange : string)
  : Py (list JVal) :=
  if negb (bool_decide (upper exchange ∈ valid_exchanges)) then
    raise (ValueError ("Invalid exchange: " +:+ exchange
                       +:+ ". Valid exchanges: "
                       +:+ repr (JList (map JStr valid_exchanges))))
  else
    let payload := JObj [("exchangename", JStr (upper exchange))] in
    let* response_data :=
      _make_authenticated_request "/rest/report/v1/getscripsbyexchangename"
        auth_token payload in
    lift (data_list response_data).

(** [get_client_profile]: the result is a dict *)
Definition get_client_profile (auth_token : JVal) (client_code : string)
  : Py JVal :=
  let payload := JObj [("clientcode", JStr client_code)] in
  let* response_data :=
    _make_authenticated_request "/rest/report/v1/profile" auth_token payload in
  let* profile_data := lift (get response_data "data" (JObj [])) in
  ret (if is_dict_value profile_data then profile_data else JObj []).

(** the [portfolio_summary] dict *)
Record PortfolioSummary := {
  ps_client_code : string;
  ps_timestamp : Z;
  ps_positions : list JVal;
  ps_holdings : list JVal;
  ps_profile : JVal;
  ps_errors : list string
}.

Definition fetch_error {A} (what : string) (r : Res A) : list string :=
  match r with
  | Raise e => ["Failed to fetch " +:+ what +:+ ": " +:+ str_exn e]
  | Ok _ => []
  end.

(** [get_portfolio_summary]; the three fetches are started in the order of
    the task list. *)
Definition get_portfolio_summary (client : Client) (segment : string)
  : Py PortfolioSummary :=
  let* auth_token := authenticate_client client segment false in
  let* positions :=
    attempt (get_positions (token auth_token) (client_code client)) in
  let* holdings :=
    attempt (get_holdings (token auth_token) (client_code client)) in
  let* profile :=
    attempt (get_client_profile (token auth_token) (client_code client)) in
  let* now := clock in
  ret {| ps_client_code := client_code client;
         ps_timestamp := now;
         ps_positions := match positions with Ok l => l | Raise _ => [] end;
         ps_holdings := match holdings with Ok l => l | Raise _ => [] end;
         ps_profile := match profile with Ok d => d | Raise _ => JObj [] end;
         ps_errors := fetch_error "positions" positions
                      ++ fetch_error "holdings" holdings
                      ++ fetch_error "profile" profile |}.

Definition success_keywords : list string :=
  ["success"; "successful"; "completed"; "done"].

(** [_check_order_operation_success] *)
Definition _check_order_operation_success (response_data : JVal)
    (operation : string) : Res bool :=
  match get response_data "status" JNull with
  | Raise e => Raise e
  | Ok st =>
      if is_str st "success" then Ok true
      else
        match get response_data "message" (JStr "") with
        | Raise e => Raise e
        | Ok (JStr m) =>
            let message := lower m in
            if existsb (fun keyword => contains keyword message) success_keywords
            then Ok true
            else
              match get response_data "data" (JObj []) with
              | Raise e => Raise e
              | Ok (JObj d) =>
                  Ok (is_str (default JNull (assoc "status" d)) "success")
              | Ok _ => Ok false
              end
        | Ok _ => Raise (AttributeError "object has no attribute 'lower'")
        end
  end.

(** [cancel_order] *)
Definition cancel_order (auth_token : JVal) (unique_order_id client_code : string)
  : Py bool :=
  let payload := JObj [("clientcode", JStr client_code);
                       ("uniqueorderid", JStr unique_order_id)] in
  let* response_data :=
    _make_authenticated_request "/rest/secure/v1/cancelorder" auth_token payload in
  lift (_check_order_operation_success response_data "cancel").

(** [get_order_status] *)
Definition get_order_status (auth_token : JVal)
    (unique_order_id client_code : string) : Py JVal :=
  let payload := JObj [("clientcode", JStr client_code);
                       ("uniqueorderid", JStr unique_order_id)] in
  let* response_data :=
    _make_authenticated_request "/rest/report/v1/getorderdetail" auth_token payload in
  lift (get response_data "data" (JObj [])).

(** [get_order_book] *)
Definition get_order_book (auth_token : JVal) (client_code : string)
  : Py (list JVal) :=
  let payload := JObj [("clientcode", JStr client_code)] in
  let* response_data :=
    _make_authenticated_request "/rest/report/v1/getorderbook" auth_token payload in
  lift (data_list response_data).

End MOFSLApiWrapper.
End Wrapper.

(** ** app/schemas/schemas.py: construction of an [OrderCreate] *)

Module Schemas.

Definition matches (allowed : list string) (s : string) : bool :=
  bool_decide (s ∈ allowed).

Definition check (ok : bool) (field msg : string) : list (string * string) :=
  if ok then [] else [(field, msg)].

(** [OrderCreate(...)]: the field constraints of [OrderBase] and the two
    validators of [OrderCreate]. A validator runs on a value that was passed
    (also when it is [None]) and passed its field constraint;
    [trigger_price] and [disclosed_quantity] are [None] when the keyword is
    left out, and the field then takes its default. *)
Definition OrderCreate_init (client_id token_id : Z)
    (order_type transaction_type : string) (product_type : JVal) (quantity : Z)
    (price : option Decimal) (trigger_price : option (option Decimal))
    (disclosed_quantity : option Z)
    (exchange validity : string) (remarks : option string) : Res OrderCreate :=
  let pattern := "String should match pattern" in
  let errors :=
   (check (0 <? client_id) "client_id" "Input should be greater than 0"
    ++ check (0 <? token_id) "token_id" "Input should be greater than 0"
    ++ check (matches ["MKT"; "LMT"; "SLM"; "SL"] order_type) "order_type" pattern
    ++ check (matches ["BUY"; "SELL"] transaction_type) "transaction_type" pattern
    ++ match product_type with
       | JStr p => check (matches ["MIS"; "CNC"; "NRML"] p) "product_type" pattern
       | _ => [("product_type", "Input should be a valid string")]
       end
    ++ check (0 <? quantity) "quantity" "Input should be greater than 0"
    ++ match price with
       | Some p =>
           check (dec_ge0 p) "price" "Input should be greater than or equal to 0"
       | None =>
           check (negb (matches ["LMT"; "SL"] order_type)) "price"
             "Value error, Price is required for limit and stop-loss orders"
       end
    ++ match trigger_price with
       | Some (Some p) =>
           check (dec_ge0 p) "trigger_price"
             "Input should be greater than or equal to 0"
       | Some None =>
           check (negb (matches ["SLM"; "SL"] order_type)) "trigger_price"
             "Value error, Trigger price is required for stop-loss orders"
       | None => []
       end
    ++ match disclosed_quantity with
       | Some d =>
           check (0 <=? d) "disclosed_quantity"
             "Input should be greater than or equal to 0"
       | None => []
       end
    ++ check (matches ["NSE"; "BSE"; "MCX"; "NCDEX"] exchange) "exchange" pattern
    ++ check (matches ["DAY"; "IOC"; "GTD"] validity) "validity" pattern
    ++ match remarks with
       | Some r =>
           check (Nat.leb (str_len r) 500) "remarks"
             "String should have at most 500 characters"
       | None => []
       end)%list in
  match errors, product_type with
  | [], JStr p =>
      Ok {| oc_client_id := client_id; oc_token_id := token_id;
            oc_order_type := order_type;
            oc_transaction_type := transaction_type;
            oc_product_type := p; oc_quantity := quantity;
            oc_price := price;
            oc_trigger_price := default None trigger_price;
            oc_disclosed_quantity := default 0 disclosed_quantity;
            oc_exchange := exchange;
            oc_validity := validity; oc_remarks := remarks |}
  | _, _ => Raise (ValidationError "OrderCreate" errors)
  end.

End Schemas.

(** ** app/api/orders.py *)

Module Orders.
Import Security Wrapper Schemas.

Record ClientOrder := {
  co_client_id : Z;
  co_quantity : Z;
  co_price : option Decimal;
  co_remarks : option string
}.

Record BatchOrderRequest := {
  token_id : string;
  symbol : string;
  exchange : string;
  order_type : string;
  transaction_type : string;
  product_type : string;
  default_price : option Decimal;
  trigger_price : option Decimal;
  segment : string;
  validity : string;
  client_orders : list ClientOrder;
  dry_run : bool;
  max_concurrent : Z
}.

Record OrderExecutionResult := {
  r_client_id : Z;
  r_client_code : string;
  r_quantity : Z;
  r_price : option Decimal;
  success : bool;
  order_id : option string;
  error_message : option string;
  execution_time_ms : option Z
}.

(** the [summary] and [execution_metadata] dicts of a batch response; the
    success rate is kept as the fraction (100 * successful, total) *)
Record BatchSummary := {
  total_orders : Z;
  successful_orders : Z;
  failed_orders : Z;
  success_rate : Z * Z;
  total_quantity : Z;
  s_symbol : string;
  s_transaction_type : string;
  s_order_type : string;
  batch_execution_time_ms : Z;
  avg_order_execution_ms : Z;
  s_max_concurrent : Z;
  s_dry_run : bool;
  timestamp : Z
}.

Record BatchOrderResponse := {
  b_success : bool;
  b_message : string;
  summary : BatchSummary;
  results : list OrderExecutionResult
}.

Record ExitOrderRequest := {
  x_exchange : string;
  x_order_type : string;
  x_price : option Decimal;
  x_segment : string;
  client_filter : option (list Z);
  min_quantity : Z;
  x_dry_run : bool
}.

(** one entry of the [results] of an exit response *)
Record ClientExitResult := {
  e_client_id : Z;
  e_client_code : string;
  e_success : bool;
  e_error_message : option string;
  positions_exited : Z;
  total_positions : option Z
}.

Record ExitResponse := {
  x_success : bool;
  x_message : string;
  clients_processed : Z;
  clients_with_positions : Z;
  total_positions_exited : Z;
  x_results : list ClientExitResult
}.

Definition len {A} (l : list A) : Z := Z.of_nat (length l).

Section Endpoints.
Context `{CryptoLib}.
Variable env : Env.

(** [get_client_with_validation] *)
Definition get_client_with_validation (client_id : Z) (segment : string)
  : Py Client :=
  let* tr := get_trace in
  let* found := lift (env_db_client env tr client_id) in
  match found with
  | None =>
      raise (ValueError ("Client with ID " +:+ str_int client_id +:+ " not found"))
  | Some client =>
      if negb (is_active client) then
        raise (ValueError ("Client " +:+ client_code client +:+ " is inactive"))
      else if String.eqb segment "interactive" then
        if negb (forallb opt_str_truthy
                   [encrypted_mofsl_api_key_interactive client;
                    encrypted_mofsl_secret_key_interactive client;
                    encrypted_mofsl_user_id_interactive client;
                    encrypted_mofsl_password_interactive client]) then
          raise (ValueError ("Client " +:+ client_code client
                             +:+ " does not have interactive credentials"))
        else ret client
      else if String.eqb segment "commodity" then
        if negb (forallb opt_str_truthy
                   [encrypted_mofsl_api_key_commodity client;
                    encrypted_mofsl_secret_key_commodity client;
                    encrypted_mofsl_user_id_commodity client;
                    encrypted_mofsl_password_commodity client]) then
          raise (ValueError ("Client " +:+ client_code client
                             +:+ " does not have commodity credentials"))
        else ret client
      else ret client
  end.

Definition batch_remarks (batch_request : BatchOrderRequest)
    (client_order : ClientOrder) : string :=
  match co_remarks client_order with
  | Some r => if str_truthy r then r else "Batch order - " +:+ symbol batch_request
  | None => "Batch order - " +:+ symbol batch_request
  end.

(** [create_order_from_request] *)
Definition create_order_from_request (batch_request : BatchOrderRequest)
    (client_order : ClientOrder) (token_id : Z) : Res OrderCreate :=
  let order_price := dec_or (co_price client_order) (default_price batch_request) in
  OrderCreate_init (co_client_id client_order) token_id
    (order_type batch_request) (transaction_type batch_request)
    (JStr (product_type batch_request)) (co_quantity client_order)
    order_price (Some (trigger_price batch_request)) None
    (exchange batch_request) (validity batch_request)
    (Some (batch_remarks batch_request client_order)).

(** [db.commit()] *)
Definition db_commit : Py unit :=
  let* tr := get_trace in
  emit EvDbCommit;;
  match env_db_commit env tr with
  | Some e => raise e
  | None => ret tt
  end.

(** the first read of an attribute of a row after a commit: the session
    loads the row again, or refuses *)
Definition row_read : Py unit :=
  let* tr := get_trace in
  match env_db_row env tr with
  | Some e => raise e
  | None => ret tt
  end.

(** the [try] block of [execute_single_order] *)
Definition execute_single_order_body (start_time : Z) (client_id : Z)
    (client_order : ClientOrder) (batch_request : BatchOrderRequest)
    (token_id : Z) : Py OrderExecutionResult :=
  let* client := get_client_with_validation client_id (segment batch_request) in
  let* order_create :=
    lift (create_order_from_request batch_request client_order token_id) in
  let price := dec_or (co_price client_order) (default_price batch_request) in
  if dry_run batch_request then
    let* now := clock env in
    ret {| r_client_id := client_id; r_client_code := client_code client;
           r_quantity := co_quantity client_order; r_price := price;
           success := true; order_id := Some "DRY_RUN";
           error_message := None;
           execution_time_ms := Some (env_elapsed_ms env start_time now) |}
  else
    let* order_id := place_order env (JStr "") order_create (client_code client) in
    let db_order :=
      {| om_order_id := order_id; om_client_id := client_id;
         om_token_id := token_id;
         om_order_type := order_type batch_request;
         om_transaction_type := transaction_type batch_request;
         om_product_type := JStr (product_type batch_request);
         om_quantity := co_quantity client_order; om_price := price;
         om_trigger_price := trigger_price batch_request;
         om_exchange := exchange batch_request;
         om_validity := Some (validity batch_request);
         om_status := "PENDING";
         om_remarks := batch_remarks batch_request client_order |} in
    emit (EvDbAdd db_order);;
    db_commit;;
    let* now := clock env in
    row_read;;
    ret {| r_client_id := client_id; r_client_code := client_code client;
           r_quantity := co_quantity client_order; r_price := price;
           success := true; order_id := Some order_id;
           error_message := None;
           execution_time_ms := Some (env_elapsed_ms env start_time now) |}.

(** the outcome built by the [except] block of [execute_single_order] *)
Definition failed_outcome (client_order : ClientOrder)
    (batch_request : BatchOrderRequest) (client_id : Z) (error_message : string)
    (execution_time : Z) : OrderExecutionResult :=
  {| r_client_id := client_id;
     r_client_code := "CLIENT_" +:+ str_int client_id;
     r_quantity := co_quantity client_order;
     r_price := dec_or (co_price client_order) (default_price batch_request);
     success := false; order_id := None;
     error_message := Some error_message;
     execution_time_ms := Some execution_time |}.

(** [execute_single_order] *)
Definition execute_single_order (client_id : Z) (client_order : ClientOrder)
    (batch_request : BatchOrderRequest) (token_id : Z)
  : Py OrderExecutionResult :=
  let* start_time := clock env in
  try_except
    (execute_single_order_body start_time client_id client_order
       batch_request token_id)
    (fun e =>
       let* now := clock env in
       ret (failed_outcome client_order batch_request client_id (str_exn e)
              (env_elapsed_ms env start_time now))).

(** [asyncio.gather] over the tasks with [return_exceptions=True]: every task
    runs to its end, here one after the other in list order, which is a
    schedule the semaphore admits as soon as it has one permit; an exception
    leaving a task becomes its entry of the result list. (With a semaphore
    of no permit no task would ever start and the call would not return;
    total functions do not show that, and the properties of the batch
    assume a bound of at least one. The interleavings are the subject of
    the admission model below.) *)
Fixpoint gather {A} (tasks : list (Py A)) : Py (list (Res A)) :=
  match tasks with
  | [] => ret []
  | t :: ts =>
      fun w =>
        let (r, w') := t w in
        match gather ts w' with
        | (Ok rs, w'') => (Ok (r :: rs), w'')
        | (Raise e, w'') => (Raise e, w'')
        end
  end.

(** the batch-level checks of [execute_batch_orders] *)
Definition batch_precondition (request : BatchOrderRequest) : option Exn :=
  if bool_decide (order_type request ∈ ["LMT"; "SL"])
     && negb (opt_dec_truthy (default_price request))
     && negb (existsb (fun co => opt_dec_truthy (co_price co))
                (client_orders request)) then
    Some (HTTPException 400 "Price is required for limit orders")
  else if bool_decide (order_type request ∈ ["SLM"; "SL"])
          && negb (opt_dec_truthy (trigger_price request)) then
    Some (HTTPException 400 "Trigger price is required for stop-loss orders")
  else None.

(** [valid_orders = [co for co in request.client_orders if co.quantity > 0]] *)
Definition valid_orders (request : BatchOrderRequest) : list ClientOrder :=
  filter (fun co => 0 < co_quantity co) (client_orders request).

(** the loop over the gathered results *)
Definition process_result (request : BatchOrderRequest)
    (co : ClientOrder) (result : Res OrderExecutionResult)
  : OrderExecutionResult :=
  match result with
  | Raise e =>
      {| r_client_id := co_client_id co;
         r_client_code := "CLIENT_" +:+ str_int (co_client_id co);
         r_quantity := co_quantity co;
         r_price := dec_or (co_price co) (default_price request);
         success := false; order_id := None;
         error_message := Some (str_exn e);
         execution_time_ms := Some 0 |}
  | Ok r => r
  end.

Definition sum_Z (l : list Z) : Z := foldr Z.add 0 l.

(** [execute_batch_orders] *)
Definition execute_batch_orders (request : BatchOrderRequest)
  : Py BatchOrderResponse :=
  let* execution_start := clock env in
  try_except
    (let token_id := 1 in
     match batch_precondition request with
     | Some e => raise e
     | None =>
         let valid_orders := valid_orders request in
         match valid_orders with
         | [] => raise (HTTPException 400 "No valid orders with quantity > 0")
         | _ =>
             (* asyncio.Semaphore(request.max_concurrent) *)
             if max_concurrent request <? 0 then
               raise (ValueError "Semaphore initial value must be >= 0")
             else
             let execute_with_semaphore (client_order : ClientOrder) :=
               execute_single_order (co_client_id client_order) client_order
                 request token_id in
             let tasks := map execute_with_semaphore valid_orders in
             let* results := gather tasks in
             let execution_results :=
               zip_with (process_result request) valid_orders results in
             let successful_orders := filter (fun r => success r = true) execution_results in
             let failed_orders := filter (fun r => success r = false) execution_results in
             let total_quantity := sum_Z (map r_quantity successful_orders) in
             let avg_execution_time :=
               match execution_results with
               | [] => 0
               | _ =>
                   sum_Z (map (fun r => default 0 (execution_time_ms r))
                            execution_results)
                   `quot` len execution_results
               end in
             let* now := clock env in
             ret {| b_success := 0 <? len successful_orders;
                    b_message :=
                      "Batch execution completed: "
                      +:+ str_int (len successful_orders) +:+ "/"
                      +:+ str_int (len valid_orders) +:+ " orders successful";
                    summary :=
                      {| total_orders := len valid_orders;
                         successful_orders := len successful_orders;
                         failed_orders := len failed_orders;
                         success_rate :=
                           (100 * len successful_orders, len valid_orders);
                         total_quantity := total_quantity;
                         s_symbol := symbol request;
                         s_transaction_type := transaction_type request;
                         s_order_type := order_type request;
                         batch_execution_time_ms :=
                           env_elapsed_ms env execution_start now;
                         avg_order_execution_ms := avg_execution_time;
                         s_max_concurrent := max_concurrent request;
                         s_dry_run := dry_run request;
                         timestamp := now |};
                    results := execution_results |}
         end
     end)
    (fun e =>
       match e with
       | HTTPException c d => raise (HTTPException c d)
       | _ =>
           raise (HTTPException 500
                    ("Batch order execution failed: " +:+ str_exn e))
       end).

(** *** Exit flow *)

(** [get_client_positions_for_token] *)
Definition get_client_positions_for_token (client : Client)
    (token_mofsl_id : string) (segment : string) : Py (list JVal) :=
  try_except
    (let* auth_token := authenticate_client env client segment false in
     let* all_positions := get_positions env (token auth_token) (client_code client) in
     lift (filter_res
             (fun pos =>
                match get pos "token" (JStr "") with
                | Raise e => Raise e
                | Ok t => Ok (String.eqb (strip (str t)) (strip token_mofsl_id))
                end)
             all_positions))
    (fun _ => ret []).

(** [int(pos.get('quantity', 0))] *)
Definition position_quantity (pos : JVal) : Res Z :=
  match get pos "quantity" (JInt 0) with
  | Raise e => Raise e
  | Ok q => int q
  end.

(** the comprehension building [exit_positions] *)
Definition exit_positions (request : ExitOrderRequest) (positions : list JVal)
  : Res (list JVal) :=
  filter_res
    (fun pos =>
       match position_quantity pos with
       | Raise e => Raise e
       | Ok q => Ok (min_quantity request <=? Z.abs q)
       end)
    positions.

(** the first loop of [exit_all_positions]: per client, the positions to
    exit, or the error entry of a client whose positions cannot be read *)
Fixpoint collect_exits (request : ExitOrderRequest) (token_mofsl_id : string)
    (clients : list Client)
  : Py (list (Client * list JVal) * list ClientExitResult) :=
  match clients with
  | [] => ret ([], [])
  | client :: rest =>
      let* r :=
        try_except
          (let* positions :=
             get_client_positions_for_token client token_mofsl_id
               (x_segment request) in
           let* exit_positions := lift (exit_positions request positions) in
           ret (inl exit_positions))
          (fun e => ret (inr e)) in
      let* acc := collect_exits request token_mofsl_id rest in
      match r with
      | inl [] => ret acc
      | inl exit_positions => ret ((client, exit_positions) :: fst acc, snd acc)
      | inr e =>
          ret (fst acc,
               {| e_client_id := id client; e_client_code := client_code client;
                  e_success := false;
                  e_error_message :=
                    Some ("Failed to fetch positions: " +:+ str_exn e);
                  positions_exited := 0; total_positions := None |}
               :: snd acc)
      end
  end.

(** the exit side and quantity for a position of net quantity
    [current_qty]; [None] is the [continue] on a flat position *)
Definition exit_transaction (current_qty : Z) : option (string * Z) :=
  if current_qty =? 0 then None
  else Some (if 0 <? current_qty then "SELL" else "BUY", Z.abs current_qty).

(** the body of the loop over one client's positions; the result tells
    whether [client_exit_count] goes up *)
Definition exit_position (request : ExitOrderRequest) (token_mofsl_id : string)
    (client : Client) (auth_token : AuthToken) (position : JVal) : Py bool :=
  let* current_qty := lift (position_quantity position) in
  match exit_transaction current_qty with
  | None => ret false
  | Some (exit_transaction, exit_quantity) =>
      if x_dry_run request then ret true
      else
        let* product := lift (get position "product_type" (JStr "MIS")) in
        let remarks := "Exit order for " +:+ token_mofsl_id in
        let* exit_order :=
          lift (OrderCreate_init (id client) 1 (x_order_type request)
                  exit_transaction product exit_quantity (x_price request)
                  None None (x_exchange request) "DAY" (Some remarks)) in
        let* order_id :=
          place_order env (token auth_token) exit_order (client_code client) in
        emit (EvDbAdd
                {| om_order_id := order_id; om_client_id := id client;
                   om_token_id := 1;
                   om_order_type := x_order_type request;
                   om_transaction_type := exit_transaction;
                   om_product_type := product;
                   om_quantity := exit_quantity;
                   om_price := x_price request;
                   om_trigger_price := None;
                   om_exchange := x_exchange request;
                   om_validity := None;
                   om_status := "PENDING"; om_remarks := remarks |});;
        ret true
  end.

(** the loop of [execute_client_exit], with its two accumulators *)
Fixpoint exit_loop (request : ExitOrderRequest) (token_mofsl_id : string)
    (client : Client) (auth_token : AuthToken) (positions : list JVal)
    (client_exit_count : Z) (client_errors : list string)
  : Py (Z * list string) :=
  match positions with
  | [] => ret (client_exit_count, client_errors)
  | position :: rest =>
      let* r :=
        try_except
          (let* counted :=
             exit_position request token_mofsl_id client auth_token position in
           ret (inl counted))
          (fun e => ret (inr e)) in
      match r with
      | inl counted =>
          exit_loop request token_mofsl_id client auth_token rest
            (if counted : bool then client_exit_count + 1 else client_exit_count)
            client_errors
      | inr e =>
          exit_loop request token_mofsl_id client auth_token rest
            client_exit_count
            (client_errors ++ ["Position exit failed: " +:+ str_exn e])
      end
  end.

(** [execute_client_exit]. The client is a row of the session the tasks
    share: the first read of it in the task, the read after the commit and
    the read in the [except] block go to the session, and an exception of
    the last one leaves the task. *)
Definition execute_client_exit (request : ExitOrderRequest)
    (token_mofsl_id : string) (client_positions_tuple : Client * list JVal)
  : Py ClientExitResult :=
  let (client, positions) := client_positions_tuple in
  try_except
    (row_read;;
     let* auth_token := authenticate_client env client (x_segment request) false in
     let* acc :=
       exit_loop request token_mofsl_id client auth_token positions 0 [] in
     let (client_exit_count, client_errors) := acc in
     db_commit;;
     row_read;;
     ret {| e_client_id := id client; e_client_code := client_code client;
            e_success := bool_decide (client_errors = []);
            e_error_message :=
              match client_errors with
              | [] => None
              | _ => Some (join "; " client_errors)
              end;
            positions_exited := client_exit_count;
            total_positions := Some (len positions) |})
    (fun e =>
       row_read;;
       ret {| e_client_id := id client; e_client_code := client_code client;
              e_success := false; e_error_message := Some (str_exn e);
              positions_exited := 0;
              total_positions := Some (len positions) |}).

(** [exit_all_positions] *)
Definition exit_all_positions (token_mofsl_id : string)
    (request : ExitOrderRequest) : Py ExitResponse :=
  try_except
    (let* tr := get_trace in
     let* clients :=
       lift (env_db_clients env tr
               (match client_filter request with
                | Some (_ :: _ as f) => Some f
                | _ => None
                end)) in
     match clients with
     | [] => raise (HTTPException 404 "No active clients found for exit operation")
     | _ =>
         let* collected := collect_exits request token_mofsl_id clients in
         let (clients_to_exit, exit_results) := collected in
         match clients_to_exit with
         | [] =>
             ret {| x_success := true;
                    x_message :=
                      "No positions found to exit for the specified token";
                    clients_processed := len clients;
                    clients_with_positions := 0;
                    total_positions_exited := 0;
                    x_results := exit_results |}
         | _ =>
             let tasks :=
               map (execute_client_exit request token_mofsl_id) clients_to_exit in
             let* client_results := gather tasks in
             let final_results :=
              (map (fun result =>
                      match result with
                      | Raise e =>
                          {| e_client_id := 0; e_client_code := "UNKNOWN";
                             e_success := false;
                             e_error_message := Some (str_exn e);
                             positions_exited := 0; total_positions := None |}
                      | Ok r => r
                      end)
                   client_results
               ++ exit_results)%list in
             let successful_exits := filter (fun r => e_success r = true) final_results in
             ret {| x_success := 0 <? len successful_exits;
                    x_message :=
                      "Exit operation completed for token " +:+ token_mofsl_id;
                    clients_processed := len clients;
                    clients_with_positions := len clients_to_exit;
                    total_positions_exited :=
                      sum_Z (map positions_exited final_results);
                    x_results := final_results |}
         end
     end)
    (fun e =>
       match e with
       | HTTPException c d => raise (HTTPException c d)
       | _ => raise (HTTPException 500 ("Exit operation failed: " +:+ str_exn e))
       end).

End Endpoints.

(** *** Admission of the batch tasks

    [execute_batch_orders] creates [asyncio.Semaphore(request.max_concurrent)]
    and one task per valid order, each running
    [async with semaphore: return await execute_single_order(...)].
    A task is [Queued] until it has acquired the semaphore, [InFlight] while
    it is inside the [async with] block (where the upstream call is made and
    awaited) and [Finished] once it has released it. The event loop may
    switch between tasks at every [await], so any task that can move may be
    the next to move. *)

Inductive Phase := Queued | InFlight | Finished.

#[global] Instance Phase_eq_dec : EqDecision Phase.
Proof. solve_decision. Defined.

Record Sched := {
  sem_value : Z;           (* Semaphore._value *)
  phases : list Phase      (* one per task, in the order of [valid_orders] *)
}.

Definition start (request : BatchOrderRequest) : Sched :=
  {| sem_value := max_concurrent request;
     phases := map (fun _ => Queued) (valid_orders request) |}.

Inductive step : Sched -> Sched -> Prop :=
| step_acquire s i :
    phases s !! i = Some Queued ->
    0 < sem_value s ->
    step s {| sem_value := sem_value s - 1;
              phases := <[i := InFlight]> (phases s) |}
| step_release s i :
    phases s !! i = Some InFlight ->
    step s {| sem_value := sem_value s + 1;
              phases := <[i := Finished]> (phases s) |}.

(** the number of tasks between acquire and release *)
Definition in_flight (s : Sched) : Z :=
  Z.of_nat (length (filter (fun p => p = InFlight) (phases s))).

End Orders.

(** ** app/api/tokens.py *)

Module Tokens.

Section Search.
Context `{CaseMapping}.

(** [str(instrument.get(k, '')).lower()] *)
Definition field_lower (instrument : JVal) (k : string) : Res string :=
  match get instrument k (JStr "") with
  | Raise e => Raise e
  | Ok v => Ok (lower (str v))
  end.

(** the test of the comprehension in [filter_instruments] *)
Definition matches_query (query_lower : string) (instrument : JVal) : Res bool :=
  match field_lower instrument "symbol" with
  | Raise e => Raise e
  | Ok symbol =>
      match field_lower instrument "name" with
      | Raise e => Raise e
      | Ok name =>
          match field_lower instrument "token" with
          | Raise e => Raise e
          | Ok token =>
              Ok (contains query_lower symbol || contains query_lower name
                  || contains query_lower token || startswith symbol query_lower)
          end
      end
  end.

(** [sort_key] *)
Definition sort_key (query_lower : string) (item : JVal) : Res nat :=
  match field_lower item "symbol" with
  | Raise e => Raise e
  | Ok symbol =>
      Ok (if String.eqb symbol query_lower then 0%nat
          else if startswith symbol query_lower then 1%nat
          else 2%nat)
  end.

Fixpoint map_res {A B} (f : A -> Res B) (l : list A) : Res (list B) :=
  match l with
  | [] => Ok []
  | x :: l' =>
      match f x with
      | Raise e => Raise e
      | Ok y =>
          match map_res f l' with
          | Raise e => Raise e
          | Ok r => Ok (y :: r)
          end
      end
  end.

(** [list.sort(key=...)] is a stable sort: insertion from the right, an
    element going in front of the elements whose key is not smaller. *)
Fixpoint insert_keyed {A} (x : nat * A) (l : list (nat * A)) : list (nat * A) :=
  match l with
  | [] => [x]
  | y :: l' => if (fst x <=? fst y)%nat then x :: y :: l' else y :: insert_keyed x l'
  end.

Definition sort_keyed {A} (l : list (nat * A)) : list (nat * A) :=
  foldr insert_keyed [] l.

(** [filter_instruments] *)
Definition filter_instruments (instruments : list JVal) (query : string)
  : Res (list JVal) :=
  if negb (str_truthy query) || (str_len query <? 2)%nat then
    Ok (slice_to instruments 100)
  else
    let query_lower := lower query in
    match filter_res (matches_query query_lower) instruments with
    | Raise e => Raise e
    | Ok filtered =>
        match map_res (sort_key query_lower) filtered with
        | Raise e => Raise e
        | Ok keys => Ok (slice_to (map snd (sort_keyed (zip keys filtered))) 50)
        end
    end.

(** [search_tokens], from the catalog [instruments_data] on: filtering, then
    the cut at [limit] *)
Definition limited_results (instruments_data : list JVal) (q : string)
    (limit : Z) : Res (list JVal) :=
  match filter_instruments instruments_data q with
  | Raise e => Raise e
  | Ok filtered_instruments => Ok (slice_to filtered_instruments limit)
  end.

End Search.

(** [get_cache_key]; [kwargs] holds the keyword arguments as the call
    gives them *)
Definition get_cache_key (endpoint : string) (kwargs : list (string * JVal))
  : string :=
  let params :=
    join "_"
      (map (fun kv => fst kv +:+ ":" +:+ str (snd kv))
         (filter (fun kv => is_none (snd kv) = false) (sorted_items kwargs))) in
  "trading_platform:" +:+ endpoint +:+ ":" +:+ params.

End Tokens.

(** ** app/api/clients.py *)

Module Clients.
Import Security.

(** app/schemas/schemas.py, [ClientCredentials] *)
Record ClientCredentials := {
  broker_name : string;
  cc_api_key : string;
  cc_secret_key : string;
  cc_user_id : string;
  cc_password : string
}.

(** the field constraints of [ClientCredentials] *)
Definition ClientCredentials_valid (c : ClientCredentials) : bool :=
  bool_decide (broker_name c ∈ ["mofsl_interactive"; "mofsl_commodity"; "zerodha"])
  && forallb (fun bound : string * nat =>
                (1 <=? str_len (fst bound))%nat
                && (str_len (fst bound) <=? snd bound)%nat)
       [(cc_api_key c, 500%nat); (cc_secret_key c, 500%nat);
        (cc_user_id c, 100%nat); (cc_password c, 100%nat)].

(** [check_credential_existence] *)
Definition check_credential_existence (client : Client) : bool * bool :=
  let present (o : option string) :=
    match o with Some s => str_truthy s | None => false end in
  (present (encrypted_mofsl_api_key_interactive client)
   && present (encrypted_mofsl_secret_key_interactive client)
   && present (encrypted_mofsl_user_id_interactive client)
   && present (encrypted_mofsl_password_interactive client),
   present (encrypted_mofsl_api_key_commodity client)
   && present (encrypted_mofsl_secret_key_commodity client)
   && present (encrypted_mofsl_user_id_commodity client)
   && present (encrypted_mofsl_password_commodity client)).

Section UpdateCredentials.
Context `{CryptoLib}.

(** the four calls of [encrypt_data] of one branch of
    [update_client_credentials], in the order of the assignments *)
Definition encrypt_four (crypto : Res fernet) (r : nat -> entropy)
    (credentials : ClientCredentials) : Res (string * string * string * string) :=
  match global_encrypt_data crypto (r 0%nat) (cc_api_key credentials) with
  | Raise e => Raise e
  | Ok a =>
      match global_encrypt_data crypto (r 1%nat) (cc_secret_key credentials) with
      | Raise e => Raise e
      | Ok s =>
          match global_encrypt_data crypto (r 2%nat) (cc_user_id credentials) with
          | Raise e => Raise e
          | Ok u =>
              match global_encrypt_data crypto (r 3%nat) (cc_password credentials) with
              | Raise e => Raise e
              | Ok p => Ok (a, s, u, p)
              end
          end
      end
  end.

(** [update_client_credentials], from the client found to the row that is
    committed: the assignments of the branch chosen by [broker_name] *)
Definition assign_credentials (crypto : Res fernet) (r : nat -> entropy)
    (client : Client) (credentials : ClientCredentials) : Res Client :=
  if String.eqb (broker_name credentials) "mofsl_interactive" then
    match encrypt_four crypto r credentials with
    | Raise e => Raise e
    | Ok (a, s, u, p) =>
        Ok {| id := id client; client_code := client_code client;
              is_active := is_active client;
              encrypted_mofsl_api_key_interactive := Some a;
              encrypted_mofsl_secret_key_interactive := Some s;
              encrypted_mofsl_user_id_interactive := Some u;
              encrypted_mofsl_password_interactive := Some p;
              encrypted_mofsl_api_key_commodity :=
                encrypted_mofsl_api_key_commodity client;
              encrypted_mofsl_secret_key_commodity :=
                encrypted_mofsl_secret_key_commodity client;
              encrypted_mofsl_user_id_commodity :=
                encrypted_mofsl_user_id_commodity client;
              encrypted_mofsl_password_commodity :=
                encrypted_mofsl_password_commodity client |}
    end
  else if String.eqb (broker_name credentials) "mofsl_commodity" then
    match encrypt_four crypto r credentials with
    | Raise e => Raise e
    | Ok (a, s, u, p) =>
        Ok {| id := id client; client_code := client_code client;
              is_active := is_active client;
              encrypted_mofsl_api_key_interactive :=
                encrypted_mofsl_api_key_interactive client;
              encrypted_mofsl_secret_key_interactive :=
                encrypted_mofsl_secret_key_interactive client;
              encrypted_mofsl_user_id_interactive :=
                encrypted_mofsl_user_id_interactive client;
              encrypted_mofsl_password_interactive :=
                encrypted_mofsl_password_interactive client;
              encrypted_mofsl_api_key_commodity := Some a;
              encrypted_mofsl_secret_key_commodity := Some s;
              encrypted_mofsl_user_id_commodity := Some u;
              encrypted_mofsl_password_commodity := Some p |}
    end
  else
    Raise (HTTPException 400
             ("Unsupported broker: " +:+ broker_name credentials)).

End UpdateCredentials.

End Clients.

(** ** Sample inputs

    Concrete surroundings to run the definitions on. *)

Module Samples.
Import Security Wrapper Orders.

(** A small instance of the primitives, to run the definitions on: text and
    bytes coincide, base64 is the identity and a token is its plaintext
    behind one byte of entropy. *)
#[refine] Instance toy_crypto : CryptoLib := {|
  bytes := string;
  bytes_empty := "";
  fernet := unit;
  entropy := ascii;
  utf8_encode := fun s => s;
  utf8_decode := Some;
  b64encode := fun b => b;
  b64decode := Some;
  fernet_encrypt := fun _ r b => String r b;
  fernet_decrypt := fun _ t =>
    match t with String _ b => Some b | EmptyString => None end
|}.
Proof. all: intros; simpl in *; try congruence; eauto. Defined.

(** the case mappings, on ASCII text *)
#[refine] Instance ascii_case : CaseMapping := {|
  lower := ascii_lower;
  upper := ascii_upper
|}.
Proof. all: reflexivity. Defined.

Definition sample_client : Client :=
  {| id := 1; client_code := "CL001"; is_active := true;
     encrypted_mofsl_api_key_interactive := Some "#key";
     encrypted_mofsl_secret_key_interactive := Some "#secret";
     encrypted_mofsl_user_id_interactive := Some "#user";
     encrypted_mofsl_password_interactive := Some "#pass";
     encrypted_mofsl_api_key_commodity := Some "#ckey";
     encrypted_mofsl_secret_key_commodity := Some "#csecret";
     encrypted_mofsl_user_id_commodity := Some "#cuser";
     encrypted_mofsl_password_commodity := Some "#cpass" |}.

(** an upstream answer that every handler of the wrapper accepts *)
Definition sample_response : HttpResponse :=
  {| status_code := 200;
     json := Ok (JObj [("status", JStr "success");
                       ("AuthToken", JStr "tok-1");
                       ("data", JObj [("uniqueorderid", JStr "ORD1")])]) |}.

(** a peer that always answers [sample_response], a database holding
    [sample_client], a clock standing at [now] *)
Definition sample_env (now : Z) : Env :=
  {| env_clock := fun _ => now;
     env_http := fun _ _ _ _ => Ok sample_response;
     env_crypto := Ok tt;
     env_totp := fun _ _ => Raise (ValueError "no TOTP secret");
     env_db_client := fun _ i => Ok (if i =? 1 then Some sample_client else None);
     env_db_clients := fun _ _ => Ok [sample_client];
     env_db_commit := fun _ => None;
     env_db_row := fun _ => None;
     env_float_str := fun d => str_int (dec_coeff d) +:+ "e" +:+ str_int (dec_exp d);
     env_elapsed_ms := fun t0 t1 => (t1 - t0) / 1000;
     env_base_url := "https://openapi.motilaloswaluat.com" |}.

Definition empty_world : World := {| auth_tokens := ∅; trace := [] |}.

Definition sample_token (expiry : Z) : AuthToken :=
  {| token := JStr "tok-0"; at_client_id := 1; expires_at := expiry;
     token_type := "Bearer"; created_at := 0 |}.

(** a world whose cache holds a session of [sample_client] *)
Definition cached_world (expiry : Z) : World :=
  {| auth_tokens := {[ 1 := sample_token expiry ]}; trace := [] |}.

(** a market order for [quantity] units on behalf of client [client] *)
Definition order_for (client quantity : Z) : ClientOrder :=
  {| co_client_id := client; co_quantity := quantity; co_price := None;
     co_remarks := None |}.

Definition market_batch (orders : list ClientOrder) (dry : bool) (k : Z)
  : BatchOrderRequest :=
  {| token_id := "2885"; symbol := "RELIANCE"; exchange := "NSE";
     order_type := "MKT"; transaction_type := "BUY"; product_type := "MIS";
     default_price := None; trigger_price := None; segment := "interactive";
     validity := "DAY"; client_orders := orders; dry_run := dry;
     max_concurrent := k |}.

Definition market_exit (min_qty : Z) (dry : bool) : ExitOrderRequest :=
  {| x_exchange := "NSE"; x_order_type := "MKT"; x_price := None;
     x_segment := "interactive"; client_filter := None;
     min_quantity := min_qty; x_dry_run := dry |}.

(** a position as the broker reports it *)
Definition position (quantity : Z) : JVal :=
  JObj [("token", JStr "2885"); ("quantity", JInt quantity);
        ("product_type", JStr "MIS")].

(** a catalog entry *)
Definition instrument (symbol name : string) : JVal :=
  JObj [("symbol", JStr symbol); ("name", JStr name); ("token", JStr "1")].

(** the session a first authentication creates when the clock stands at
    [now] *)
Definition first_session (now : Z) : AuthToken :=
  {| token := JStr "tok-1"; at_client_id := 1;
     expires_at := _calculate_token_expiry now;
     token_type := "Bearer"; created_at := now |}.

(** the world after a first authentication, for the interactive segment,
    when the clock stands at [now] *)
Definition interactive_world (now : Z) : World :=
  snd (authenticate_client (sample_env now) sample_client "interactive" false
         empty_world).

(** a limit order for ten units at [price] *)
Definition limit_order (price : option Decimal) : OrderCreate :=
  {| oc_client_id := 1; oc_token_id := 1; oc_order_type := "LMT";
     oc_transaction_type := "BUY"; oc_product_type := "MIS";
     oc_quantity := 10; oc_price := price; oc_trigger_price := None;
     oc_disclosed_quantity := 0; oc_exchange := "NSE"; oc_validity := "DAY";
     oc_remarks := None |}.

(** three orders under a bound of two *)
Definition three_orders : BatchOrderRequest :=
  market_batch [order_for 1 10; order_for 2 5; order_for 3 7] false 2.

(** a catalog that lists a symbol containing "R" before the symbol "R" *)
Definition small_catalog : list JVal :=
  [instrument "AR" "Archies"; instrument "R" "Ravi Kumar"].

(** [sample_env] with another peer *)
Definition with_peer (now : Z)
    (peer : list Event -> string -> option string -> JVal -> Res HttpResponse)
  : Env :=
  {| env_clock := env_clock (sample_env now);
     env_http := peer;
     env_crypto := env_crypto (sample_env now);
     env_totp := env_totp (sample_env now);
     env_db_client := env_db_client (sample_env now);
     env_db_clients := env_db_clients (sample_env now);
     env_db_commit := env_db_commit (sample_env now);
     env_db_row := env_db_row (sample_env now);
     env_float_str := env_float_str (sample_env now);
     env_elapsed_ms := env_elapsed_ms (sample_env now);
     env_base_url := env_base_url (sample_env now) |}.

(** a peer that cannot be reached *)
Definition down_env (now : Z) : Env :=
  with_peer now (fun _ _ _ _ => Raise (HTTPError "connection refused")).

(** an answer that reports an error and still carries a "data" field *)
Definition refused_response : HttpResponse :=
  {| status_code := 200;
     json := Ok (JObj [("status", JStr "error");
                       ("message", JStr "Invalid token");
                       ("data", JList [])]) |}.

Definition refusing_env (now : Z) : Env :=
  with_peer now (fun _ _ _ _ => Ok refused_response).

(** a database that refuses every commit and, once a commit was tried,
    every read of a row *)
Definition failing_db_env (now : Z) : Env :=
  {| env_clock := env_clock (sample_env now);
     env_http := env_http (sample_env now);
     env_crypto := env_crypto (sample_env now);
     env_totp := env_totp (sample_env now);
     env_db_client := env_db_client (sample_env now);
     env_db_clients := env_db_clients (sample_env now);
     env_db_commit := fun _ => Some (DatabaseError "commit failed");
     env_db_row := fun tr =>
       if existsb (fun ev => match ev with EvDbCommit => true | _ => false end) tr
       then Some (DatabaseError "transaction has been rolled back")
       else None;
     env_float_str := env_float_str (sample_env now);
     env_elapsed_ms := env_elapsed_ms (sample_env now);
     env_base_url := env_base_url (sample_env now) |}.

(** [sample_client] without credentials for the commodity segment *)
Definition interactive_only_client : Client :=
  {| id := 2; client_code := "CL002"; is_active := true;
     encrypted_mofsl_api_key_interactive := Some "#key";
     encrypted_mofsl_secret_key_interactive := Some "#secret";
     encrypted_mofsl_user_id_interactive := Some "#user";
     encrypted_mofsl_password_interactive := Some "#pass";
     encrypted_mofsl_api_key_commodity := None;
     encrypted_mofsl_secret_key_commodity := None;
     encrypted_mofsl_user_id_commodity := None;
     encrypted_mofsl_password_commodity := None |}.

(** new credentials for the commodity segment *)
Definition sample_credentials : Clients.ClientCredentials :=
  {| Clients.broker_name := "mofsl_commodity";
     Clients.cc_api_key := "k2"; Clients.cc_secret_key := "s2";
     Clients.cc_user_id := "u2"; Clients.cc_password := "p2" |}.

(** a credential dict with an entry that is empty *)
Definition credentials_dict : list (string * JVal) :=
  [("api_key", JStr "key"); ("secret_key", JStr "secret");
   ("user_id", JInt 4711); ("password", JStr "pass"); ("dob", JStr "")].

(** the entropy of the [n]-th encryption *)
Definition sample_entropy (n : nat) : ascii := ascii_of_nat (35 + n).

End Samples.

(** ** Vocabulary of the properties

    Predicates and helper functions the statements of the next part are
    written with. Where the text says "as the specification words it", the
    definition follows the specification, not the code. *)

Module Vocabulary.
Import Security Wrapper Schemas Orders Tokens.

(** *** Effects *)

(** [keeps m]: running [m] leaves the session cache alone and only extends
    the trace. *)
Definition keeps {A} (m : Py A) : Prop :=
  forall w r w', m w = (r, w') ->
    auth_tokens w' = auth_tokens w /\ exists evs, trace w' = trace w ++ evs.

(** [silent m]: running [m] changes nothing. *)
Definition silent {A} (m : Py A) : Prop :=
  forall w r w', m w = (r, w') -> w' = w.

(** [adds P m]: running [m] only extends the trace, and only by events that
    satisfy [P]. *)
Definition adds {A} (P : Event -> Prop) (m : Py A) : Prop :=
  forall w r w', m w = (r, w') ->
    exists evs, trace w' = trace w ++ evs /\ Forall P evs.

(** *** Sessions *)

(** The daily cutoff in the words of the specification, on local time:
    before 06:00 the session ends today at 06:00, from 06:00 on it ends
    tomorrow at 06:00. *)
Definition daily_cutoff (local : Z) : Z :=
  if time_of_day local <? 6 * us_per_hour
  then date_of local * us_per_day + 6 * us_per_hour
  else (date_of local + 1) * us_per_day + 6 * us_per_hour.

(** UTC to the broker's local time (IST, UTC+5:30) *)
Definition to_ist (t : Z) : Z := t + timedelta 0 5 30.

(** *** Orders *)

(** a price that is present and above zero *)
Definition positive_price (p : option Decimal) : Prop :=
  exists d, p = Some d /\ 0 < dec_coeff d.

(** The local invariants of an instruction, in the words of the
    specification. *)
Definition instruction_invariants (o : OrderCreate) : Prop :=
  0 < oc_quantity o
  /\ (oc_order_type o ∈ ["LMT"; "SL"] -> positive_price (oc_price o))
  /\ (oc_order_type o ∈ ["SLM"; "SL"] -> positive_price (oc_trigger_price o))
  /\ oc_disclosed_quantity o <= oc_quantity o.

(** the truth value of a test that may raise *)
Definition ok_true (r : Res bool) : bool :=
  match r with Ok b => b | Raise _ => false end.


(** a position on the token asked for: the texts are equal once the
    surrounding whitespace is stripped *)
Definition on_token (token_mofsl_id : string) (pos : JVal) : bool :=
  match get pos "token" (JStr "") with
  | Ok t => String.eqb (strip (str t)) (strip token_mofsl_id)
  | Raise _ => false
  end.


(** *** Admission *)

(** the number of [InFlight] entries of a list of phases *)
Definition count_in_flight (l : list Phase) : Z :=
  Z.of_nat (length (filter (fun p => p = InFlight) l)).

(** The invariant: the free permits and the tasks in flight add up to the
    bound the semaphore was created with. *)
Definition balanced (k : Z) (s : Sched) : Prop :=
  0 <= sem_value s /\ sem_value s + in_flight s = k.

(** *** Search *)

(** the items of [l] whose key is [k], in the order of [l] *)
Definition tier {A} (k : nat) (l : list (nat * A)) : list (nat * A) :=
  filter (fun x => fst x = k) l.

(** the order of the items of a dict under [sorted]: by key *)
Definition key_le {A} (x y : string * A) : Prop :=
  String.leb (fst x) (fst y) = true.

(** a catalog entry is a JSON object *)
Definition is_dict (v : JVal) : Prop := exists f, v = JObj f.

Section Search.
Context `{CaseMapping}.

(** [item] passes the test of the comprehension *)
Definition matching (query_lower : string) (item : JVal) : bool :=
  ok_true (matches_query query_lower item).

(** [item] has sort key [k]: 0 its symbol is the query, 1 its symbol starts
    with the query, 2 otherwise *)
Definition ranked (query_lower : string) (k : nat) (item : JVal) : bool :=
  match sort_key query_lower item with
  | Ok n => (n =? k)%nat
  | Raise _ => false
  end.

(** The eighth claim as the specification words it, on a result list: an
    item never comes after an item of a later tier. *)
Definition tier_ordered (query_lower : string) (l : list JVal) : Prop :=
  forall (i j : nat) a b ka kb,
    (i < j)%nat -> l !! i = Some a -> l !! j = Some b ->
    sort_key query_lower a = Ok ka -> sort_key query_lower b = Ok kb ->
    (ka <= kb)%nat.

End Search.

Section WithEnv.
Context `{CryptoLib}.
Variable env : Env.

(** The seventh claim as the specification words it, for a client holding
    a session: authenticating for [segment] makes a new session, by a call
    upstream, that takes the place of the cached one. *)
Definition switch_replaces (client : Client) (segment : string) (w : World)
  : Prop :=
  forall r w',
    authenticate_client env client segment false w = (r, w') ->
    is_ok r = true ->
    trace w' <> trace w.

(** the one POST an authenticated request makes *)
Definition request_event (endpoint : string) (auth_token payload : JVal)
  : Event :=
  EvHttpPost (env_base_url env +:+ endpoint)
    (Some ("Bearer " +:+ str auth_token)) payload.

(** the task [execute_batch_orders] creates for one valid order *)
Definition task (request : BatchOrderRequest) (co : ClientOrder)
  : Py OrderExecutionResult :=
  execute_single_order env (co_client_id co) co request 1.

(** The third claim as the specification words it: with no valid order the
    call returns a response that reports zero orders. *)
Definition empty_batch_is_reported (request : BatchOrderRequest) (w : World)
  : Prop :=
  valid_orders request = [] ->
  exists response w',
    execute_batch_orders env request w = (Ok response, w')
    /\ total_orders (summary response) = 0.






(** what a batch may add to the trace: no decryption; requests only to the
    place-order endpoint, under a bearer token that is empty *)
Definition batch_event (ev : Event) : Prop :=
  match ev with
  | EvDecrypt _ => False
  | EvHttpPost url bearer _ =>
      url = env_base_url env +:+ "/rest/secure/v1/placeorder"
      /\ bearer = Some "Bearer "
  | _ => True
  end.

(** an event that neither places an order nor records one *)
Definition places_no_order (ev : Event) : Prop :=
  match ev with
  | EvDbAdd _ => False
  | EvHttpPost url _ _ =>
      url <> env_base_url env +:+ "/rest/secure/v1/placeorder"
  | _ => True
  end.

End WithEnv.

End Vocabulary.

(** * Properties *)

(** ** Credential encryption *)

Module SecurityProps.
Import Security Samples Vocabulary.

Section RoundTrip.
Context `{CryptoLib}.

Lemma b64encode_nonempty (b : bytes) : b <> bytes_empty -> b64encode b <> bytes_empty.
Proof.
  intros Hb He. apply Hb.
  pose proof (b64decode_encode b) as H1.
  rewrite He, <- b64encode_empty, b64decode_encode in H1. congruence.
Qed.

Lemma decode_nonempty (b : bytes) (s : string) :
  b <> bytes_empty -> utf8_decode b = Some s -> str_truthy s = true.
Proof.
  intros Hb Hd. destruct s as [|c s]; [|done].
  exfalso. apply Hb.
  apply utf8_encode_decode in Hd.
  pose proof (utf8_encode_decode _ _ utf8_decode_empty). congruence.
Qed.

(** C10. Decrypting what [encrypt_data] produced under the same key gives
    the plaintext back, whatever entropy the token drew; the empty string
    is mapped to the empty string by both functions. *)
Theorem decrypt_encrypt_roundtrip (k : fernet) (r : entropy) (s : string) :
  (exists c, encrypt_data k r s = Ok c /\ decrypt_data k c = Ok s)
  /\ encrypt_data k r "" = Ok "" /\ decrypt_data k "" = Ok "".
Proof.
  split; [|done].
  unfold encrypt_data. destruct (str_truthy s) eqn:Hs; simpl.
  - destruct (b64encode_ascii (fernet_encrypt k r (utf8_encode s))) as [c Hc].
    rewrite Hc. exists c. split; [done|].
    unfold decrypt_data.
    rewrite (decode_nonempty _ _
               (b64encode_nonempty _ (fernet_token_nonempty k r _)) Hc).
    simpl. rewrite (utf8_encode_decode _ _ Hc), b64decode_encode.
    by rewrite fernet_decrypt_encrypt, utf8_decode_encode.
  - destruct s; [|done]. by exists "".
Qed.

End RoundTrip.

(** The round trip, run on the small instance. *)
Lemma decrypt_encrypt_roundtrip_witness :
  exists c, encrypt_data (H := toy_crypto) tt "x"%char "secret" = Ok c
            /\ decrypt_data (H := toy_crypto) tt c = Ok "secret".
Proof. exact (proj1 (decrypt_encrypt_roundtrip (H := toy_crypto) tt "x"%char "secret")). Defined.

End SecurityProps.

(** ** Reasoning about effectful code *)

Module PyLogic.
Import Security Wrapper Vocabulary.

Lemma silent_keeps {A} (m : Py A) : silent m -> keeps m.
Proof.
  intros Hs w r w' Hrun. rewrite (Hs _ _ _ Hrun).
  split; [done|]. exists []. by rewrite app_nil_r.
Qed.

Lemma silent_ret {A} (a : A) : silent (ret a).
Proof. by intros w r w' [= <- <-]. Qed.
Lemma silent_raise {A} e : silent (@raise A e).
Proof. by intros w r w' [= <- <-]. Qed.
Lemma silent_lift {A} (x : Res A) : silent (lift x).
Proof. by intros w r w' [= <- <-]. Qed.
Lemma silent_get_trace : silent get_trace.
Proof. by intros w r w' [= <- <-]. Qed.
Lemma silent_get_tokens : silent get_tokens.
Proof. by intros w r w' [= <- <-]. Qed.
Lemma silent_clock `{CryptoLib} (env : Env) : silent (clock env).
Proof. by intros w r w' [= <- <-]. Qed.

Lemma keeps_emit e : keeps (emit e).
Proof. intros w r w' [= <- <-]. split; [done|]. by exists [e]. Qed.

Lemma keeps_bind {A B} (m : Py A) (k : A -> Py B) :
  keeps m -> (forall a, keeps (k a)) -> keeps (bind m k).
Proof.
  intros Hm Hk w r w' Hb. unfold bind in Hb.
  destruct (m w) as [[a|e] w1] eqn:E.
  - destruct (Hm _ _ _ E) as [T1 [ev1 V1]].
    destruct (Hk _ _ _ _ Hb) as [T2 [ev2 V2]].
    split; [congruence|]. exists (ev1 ++ ev2). by rewrite V2, V1, app_assoc.
  - injection Hb as <- <-. exact (Hm _ _ _ E).
Qed.

Lemma keeps_try_except {A} (m : Py A) (h : Exn -> Py A) :
  keeps m -> (forall e, keeps (h e)) -> keeps (try_except m h).
Proof.
  intros Hm Hh w r w' Hb. unfold try_except in Hb.
  destruct (m w) as [[a|e] w1] eqn:E.
  - injection Hb as <- <-. exact (Hm _ _ _ E).
  - destruct (Hm _ _ _ E) as [T1 [ev1 V1]].
    destruct (Hh _ _ _ _ Hb) as [T2 [ev2 V2]].
    split; [congruence|]. exists (ev1 ++ ev2). by rewrite V2, V1, app_assoc.
Qed.

Create HintDb py discriminated.
#[export] Hint Resolve silent_ret silent_raise silent_lift silent_get_trace
  silent_get_tokens silent_clock : py.
#[export] Hint Resolve keeps_emit : py.

(** Structural proof of a [keeps] goal: split at binds and handlers, case
    on every branch of the code, close the leaves from the hint base. *)
Ltac keeps_tac :=
  repeat first
    [ apply keeps_bind; [|intros]
    | apply keeps_try_except; [|intros]
    | solve [ eauto with py ]
    | solve [ apply silent_keeps; eauto with py ]
    | progress cbv beta zeta
    | case_match ].

Section Wrapper.
Context `{CryptoLib}.
Variable env : Env.

Lemma keeps_decrypt c : keeps (decrypt env c).
Proof. unfold decrypt. keeps_tac. Qed.

Lemma keeps_http_post u b p : keeps (http_post env u b p).
Proof. unfold http_post. keeps_tac. Qed.

Hint Resolve keeps_decrypt keeps_http_post : py.

Lemma keeps__decrypt_client_credentials c s :
  keeps (_decrypt_client_credentials env c s).
Proof. unfold _decrypt_client_credentials. keeps_tac. Qed.

Lemma keeps__prepare_auth_payload c : keeps (_prepare_auth_payload env c).
Proof. unfold _prepare_auth_payload. keeps_tac. Qed.

Lemma keeps__make_authenticated_request e t p :
  keeps (_make_authenticated_request env e t p).
Proof. unfold _make_authenticated_request. keeps_tac. Qed.

Hint Resolve keeps__make_authenticated_request : py.

Lemma keeps_place_order t o c : keeps (place_order env t o c).
Proof. unfold place_order. keeps_tac. Qed.

Lemma keeps_get_positions t c : keeps (get_positions env t c).
Proof. unfold get_positions. keeps_tac. Qed.

Lemma http_post_world u b p w r w' :
  http_post env u b p w = (r, w') ->
  w' = {| auth_tokens := auth_tokens w; trace := trace w ++ [EvHttpPost u b p] |}.
Proof.
  unfold http_post, bind, get_trace, emit, lift. simpl. by intros [= _ <-].
Qed.

(** What the [try] block of [authenticate_client] does to the world: it
    always ends with the cache as it was or with the new session stored, and
    a new session comes from a call to the authentication endpoint. *)
Lemma authenticate_fresh_spec client segment w r w' :
  authenticate_fresh env client segment w = (r, w') ->
  (exists evs, trace w' = trace w ++ evs)
  /\ match r with
     | Ok tok =>
         expires_at tok = _calculate_token_expiry (env_clock env (trace w'))
         /\ at_client_id tok = id client
         /\ auth_tokens w' = <[id client := tok]> (auth_tokens w)
         /\ exists pre payload,
              trace w' = trace w ++ pre ++ [EvHttpPost (auth_url env) None payload]
     | Raise _ => auth_tokens w' = auth_tokens w
     end.
Proof.
  unfold authenticate_fresh. intros Hrun.
  unfold bind at 1 in Hrun.
  destruct (_decrypt_client_credentials _ _ _ _) as [[creds|e] w1] eqn:E1.
  2:{ injection Hrun as <- <-.
      destruct (keeps__decrypt_client_credentials _ _ _ _ _ E1); eauto. }
  destruct (keeps__decrypt_client_credentials _ _ _ _ _ E1) as [T1 [ev1 V1]].
  unfold bind at 1 in Hrun.
  destruct (_prepare_auth_payload _ _ _) as [[payload|e] w2] eqn:E2;
    destruct (keeps__prepare_auth_payload _ _ _ _ E2) as [T2 [ev2 V2]].
  2:{ injection Hrun as <- <-. split; [|congruence].
      rewrite V2, V1. exists (ev1 ++ ev2). by rewrite app_assoc. }
  unfold bind at 1 in Hrun.
  destruct (http_post _ _ _ _ _) as [[response|e] w3] eqn:E3;
    pose proof (http_post_world _ _ _ _ _ _ E3) as W3;
    assert (Hev : trace w3 = trace w ++ (ev1 ++ ev2)
                             ++ [EvHttpPost (auth_url env) None payload])
      by (rewrite W3; simpl; by rewrite V2, V1, !app_assoc);
    assert (Htk : auth_tokens w3 = auth_tokens w)
      by (rewrite W3; simpl; congruence).
  2:{ injection Hrun as <- <-. eauto. }
  clear - Hrun Hev Htk.
  unfold bind, lift, clock, get_tokens, put_tokens, ret in Hrun.
  destruct (_handle_auth_response response client);
    [|injection Hrun as <- <-; eauto].
  destruct (json response); [|injection Hrun as <- <-; eauto].
  destruct (_extract_auth_token _); [|injection Hrun as <- <-; eauto].
  injection Hrun as <- <-. simpl. rewrite Htk. eauto 10.
Qed.

(** The two ways [authenticate_client] can end: served from the cache with
    the world untouched, or through the [try] block. *)
Lemma authenticate_client_cases client segment force_refresh w r w' :
  authenticate_client env client segment force_refresh w = (r, w') ->
  (force_refresh = false
   /\ (exists t, auth_tokens w !! id client = Some t
                 /\ is_expired (env_clock env (trace w)) t = false
                 /\ r = Ok t)
   /\ w' = w)
  \/ (exists r0,
        authenticate_fresh env client segment w = (r0, w')
        /\ match r0 with
           | Ok t => r = Ok t
           | Raise _ => exists e, r = Raise e
           end).
Proof.
  unfold authenticate_client, bind, get_tokens, clock, try_except. simpl.
  intros Hrun.
  assert (Hfresh :
    match authenticate_fresh env client segment w with
    | (Ok a, w'0) => (Ok a, w'0)
    | (Raise e, w'0) =>
        match e with
        | HTTPError m => raise (HTTPError m)
        | _ => raise (ValueError ("Authentication failed: " +:+ str_exn e))
        end w'0
    end = (r, w') ->
    exists r0, authenticate_fresh env client segment w = (r0, w')
               /\ match r0 with
                  | Ok t => r = Ok t
                  | Raise _ => exists e, r = Raise e
                  end).
  { destruct (authenticate_fresh env client segment w) as [[t|e] w1].
    - intros [= <- <-]. by exists (Ok t).
    - intros Hr. exists (Raise e).
      destruct e; injection Hr as <- <-; eauto. }
  destruct force_refresh; [right; by apply Hfresh|].
  destruct (auth_tokens w !! id client) as [t|] eqn:Hc; [|right; by apply Hfresh].
  destruct (is_expired _ t) eqn:Hexp; simpl in Hrun; [right; by apply Hfresh|].
  left. injection Hrun as <- <-. eauto 10.
Qed.

End Wrapper.
End PyLogic.

(** ** Session manager *)

Module SessionProps.
Import Security Wrapper PyLogic Samples Vocabulary.

Lemma hour_lt (t h : Z) : hour t < h <-> time_of_day t < h * us_per_hour.
Proof.
  unfold hour, time_of_day, us_per_day, us_per_hour, us_per_second.
  split; intros Hh.
  - apply Z.nle_gt. intros Hle.
    assert (h <= t mod (24 * (3600 * 1000000)) / (3600 * 1000000))
      by (apply Z.div_le_lower_bound; lia).
    lia.
  - apply Z.div_lt_upper_bound; lia.
Qed.

Lemma date_of_next_day (t : Z) : date_of (t + timedelta 1 0 0) = date_of t + 1.
Proof.
  unfold date_of, timedelta.
  replace (t + (1 * us_per_day + 0 * us_per_hour + 0 * 60 * us_per_second))
    with (t + 1 * us_per_day) by lia.
  apply Z.div_add. unfold us_per_day, us_per_hour, us_per_second. lia.
Qed.

Section Session.
Context `{CryptoLib}.
Variable env : Env.

Lemma calculate_token_expiry_cutoff (now : Z) :
  to_ist (_calculate_token_expiry now) = daily_cutoff (to_ist now).
Proof.
  unfold _calculate_token_expiry, daily_cutoff, to_ist.
  set (ist_now := now + timedelta 0 5 30).
  destruct (Z.ltb_spec (hour ist_now) 6) as [Hh|Hh];
    destruct (Z.ltb_spec (time_of_day ist_now) (6 * us_per_hour)) as [Ht|Ht];
    try (apply hour_lt in Hh; lia);
    try (apply hour_lt in Ht; lia).
  - unfold replace_time. lia.
  - unfold replace_time. rewrite date_of_next_day. lia.
Qed.

(** C1. With [force_refresh] false and a cached session that has not
    expired at the time of the call, [authenticate_client] returns that
    very session and leaves the world as it was: the cache is unchanged and
    the trace gains no event, so no credential is decrypted and nothing is
    sent upstream. The segment asked for plays no part. *)
Theorem authenticate_client_cached (client : Client) (segment : string)
    (w : World) (existing : AuthToken) :
  auth_tokens w !! id client = Some existing ->
  env_clock env (trace w) < expires_at existing ->
  authenticate_client env client segment false w = (Ok existing, w).
Proof.
  intros Hc Hnow.
  unfold authenticate_client, bind, get_tokens, clock. simpl.
  rewrite Hc. unfold is_expired.
  destruct (Z.leb_spec (expires_at existing) (env_clock env (trace w)));
    [lia|done].
Qed.

(** C4. The expiry of a session is the daily cutoff in the broker's local
    time: read in IST, the expiry computed at clock reading [now] is 06:00
    of the same day when the local time of [now] is before 06:00, and 06:00
    of the next day otherwise. Every session that [authenticate_client]
    creates carries the expiry computed at the clock reading of its
    creation; a session it returns without creating one is the cached one. *)
Theorem token_expiry_daily_cutoff (client : Client) (segment : string)
    (force_refresh : bool) (w w' : World) (tok : AuthToken) :
  authenticate_client env client segment force_refresh w = (Ok tok, w') ->
  (forall now, to_ist (_calculate_token_expiry now) = daily_cutoff (to_ist now))
  /\ ((auth_tokens w !! id client = Some tok /\ w' = w)
      \/ to_ist (expires_at tok)
         = daily_cutoff (to_ist (env_clock env (trace w')))).
Proof.
  intros Hrun. split; [apply calculate_token_expiry_cutoff|].
  destruct (authenticate_client_cases _ _ _ _ _ _ _ Hrun)
    as [(_ & (t & Ht & _ & [= <-]) & ->) | (r0 & Hfresh & Hr0)].
  - by left.
  - right. destruct r0 as [t|e]; [|by destruct Hr0].
    injection Hr0 as <-.
    destruct (authenticate_fresh_spec _ _ _ _ _ _ Hfresh) as (_ & -> & _).
    apply calculate_token_expiry_cutoff.
Qed.

(** C7, as the code has it. The cache is a map from client ids to sessions,
    and [authenticate_client] touches the entry of its client only. When it
    returns a session, that session is the one entry of the client, and a
    client that had a session still has one, never two. Either the cached
    session was served: it had not expired, [force_refresh] was false, and
    the world is unchanged, whatever segment was asked for. Or a new session
    was made by a call to the authentication endpoint and stored over what
    the client had, for whatever segment that was. When authentication
    fails the cache is unchanged. *)
Theorem one_session_per_client (client : Client) (segment : string)
    (force_refresh : bool) (w w' : World) (r : Res AuthToken) :
  authenticate_client env client segment force_refresh w = (r, w') ->
  (forall j, j <> id client -> auth_tokens w' !! j = auth_tokens w !! j)
  /\ match r with
     | Ok tok =>
         auth_tokens w' !! id client = Some tok
         /\ (is_Some (auth_tokens w !! id client) ->
             size (auth_tokens w') = size (auth_tokens w))
         /\ ((force_refresh = false
              /\ auth_tokens w !! id client = Some tok
              /\ is_expired (env_clock env (trace w)) tok = false
              /\ w' = w)
             \/ (auth_tokens w' = <[id client := tok]> (auth_tokens w)
                 /\ exists pre payload,
                      trace w'
                      = trace w ++ pre ++ [EvHttpPost (auth_url env) None payload]))
     | Raise _ => auth_tokens w' = auth_tokens w
     end.
Proof.
  intros Hrun.
  destruct (authenticate_client_cases _ _ _ _ _ _ _ Hrun)
    as [(Hforce & (t & Ht & Hexp & ->) & ->) | (r0 & Hfresh & Hr0)].
  - split; [done|]. split; [done|]. split; [done|]. by left.
  - destruct (authenticate_fresh_spec _ _ _ _ _ _ Hfresh) as (_ & Hspec).
    destruct r0 as [t|e].
    + subst r. destruct Hspec as (_ & _ & Hins & Hpost).
      split; [intros j Hj; by rewrite Hins, lookup_insert_ne|].
      split; [by rewrite Hins, lookup_insert_eq|]. split; [|by right].
      intros [old Hold]. rewrite Hins.
      rewrite <- (insert_delete_id _ _ _ Hold) at 2.
      rewrite <- (insert_delete_eq (auth_tokens w)).
      rewrite !map_size_insert_None by apply lookup_delete_eq. done.
    + destruct Hr0 as [e' ->]. rewrite Hspec. done.
Qed.

End Session.

(** C1 on a run: a session valid until time 100 is served at time 5. *)
Lemma authenticate_client_cached_witness :
  authenticate_client (sample_env 5) sample_client "commodity" false
    (cached_world 100)
  = (Ok (sample_token 100), cached_world 100).
Proof.
  apply (authenticate_client_cached (sample_env 5) sample_client "commodity"
           (cached_world 100) (sample_token 100)).
  - reflexivity.
  - simpl. lia.
Defined.

Lemma first_authentication (now : Z) :
  authenticate_client (sample_env now) sample_client "interactive" false
    empty_world
  = (Ok (first_session now),
     {| auth_tokens := {[ 1 := first_session now ]};
        trace := [EvDecrypt "#key"; EvDecrypt "#secret"; EvDecrypt "#user";
                  EvDecrypt "#pass";
                  EvHttpPost
                    "https://openapi.motilaloswaluat.com/rest/login/v3/authdirectapi"
                    None
                    (JObj [("userid", JStr "user"); ("password", JStr "pass");
                           ("apikey", JStr "key")])] |}).
Proof. reflexivity. Qed.

(** C4 on a run: a first authentication at the epoch, which is 05:30 local
    time, makes a session that ends at 06:00 local time of the same day. *)
Lemma token_expiry_daily_cutoff_witness :
  to_ist (expires_at (first_session 0)) = 0 * us_per_day + 6 * us_per_hour.
Proof.
  destruct (token_expiry_daily_cutoff (sample_env 0) sample_client
              "interactive" false empty_world _ _ (first_authentication 0))
    as [_ [[Hcached _] | Hexpiry]].
  - discriminate Hcached.
  - rewrite Hexpiry. reflexivity.
Defined.

(** C7 fails on the code: with the session made for the interactive segment
    still valid, authenticating for the commodity segment makes no new
    session; the interactive one is served and nothing is sent upstream. *)
Lemma segment_switch_counterexample :
  authenticate_client (sample_env 0) sample_client "commodity" false
    (interactive_world 0)
  = (Ok (first_session 0), interactive_world 0)
  /\ ~ switch_replaces (sample_env 0) sample_client "commodity"
         (interactive_world 0).
Proof.
  split; [reflexivity|].
  intros Hclaim. by apply (Hclaim (Ok (first_session 0)) (interactive_world 0)).
Qed.

(** C7 (as amended) on a run: once the interactive session has expired,
    authenticating for the commodity segment stores the new session over
    it; the cache holds that one session. *)
Lemma one_session_per_client_witness :
  exists tok w',
    authenticate_client (sample_env (2 * us_per_day)) sample_client "commodity"
      false (interactive_world 0) = (Ok tok, w')
    /\ auth_tokens w' = {[ 1 := tok ]}
    /\ size (auth_tokens w') = 1%nat.
Proof.
  destruct (authenticate_client (sample_env (2 * us_per_day)) sample_client
              "commodity" false (interactive_world 0))
    as [[tok|e] w'] eqn:Hrun; [|vm_compute in Hrun; discriminate].
  destruct (one_session_per_client _ _ _ _ _ _ _ Hrun)
    as (_ & _ & Hsize & [(_ & Hold & _) | (Hnew & _)]).
  - exfalso. vm_compute in Hrun. injection Hrun as <- _.
    vm_compute in Hold. discriminate.
  - exists tok, w'. split; [done|]. split.
    + rewrite Hnew. apply insert_singleton_eq.
    + rewrite Hsize; [reflexivity|]. by eexists.
Defined.

(** The three readings of the specification: at 05:00, 06:00 and 23:00
    local time on day [d], the expiry read in local time. *)
Example expiry_at_0500 (d : Z) :
  to_ist (_calculate_token_expiry
            (d * us_per_day + 5 * us_per_hour - timedelta 0 5 30))
  = d * us_per_day + 6 * us_per_hour.
Proof.
  rewrite calculate_token_expiry_cutoff.
  unfold daily_cutoff, to_ist, time_of_day, date_of, timedelta, us_per_day,
    us_per_hour, us_per_second.
  case_match; Z.div_mod_to_equations; lia.
Qed.

Example expiry_at_0600 (d : Z) :
  to_ist (_calculate_token_expiry
            (d * us_per_day + 6 * us_per_hour - timedelta 0 5 30))
  = (d + 1) * us_per_day + 6 * us_per_hour.
Proof.
  rewrite calculate_token_expiry_cutoff.
  unfold daily_cutoff, to_ist, time_of_day, date_of, timedelta, us_per_day,
    us_per_hour, us_per_second.
  case_match; Z.div_mod_to_equations; lia.
Qed.

Example expiry_at_2300 (d : Z) :
  to_ist (_calculate_token_expiry
            (d * us_per_day + 23 * us_per_hour - timedelta 0 5 30))
  = (d + 1) * us_per_day + 6 * us_per_hour.
Proof.
  rewrite calculate_token_expiry_cutoff.
  unfold daily_cutoff, to_ist, time_of_day, date_of, timedelta, us_per_day,
    us_per_hour, us_per_second.
  case_match; Z.div_mod_to_equations; lia.
Qed.

End SessionProps.

(** ** Broker gateway *)

Module GatewayProps.
Import Security Wrapper PyLogic Samples Vocabulary.

Lemma price_check (p : option Decimal) :
  negb (opt_dec_truthy p) || match p with Some d => dec_le0 d | None => false end
  = false
  <-> positive_price p.
Proof.
  unfold positive_price, opt_dec_truthy, dec_truthy, dec_le0.
  destruct p as [d|]; simpl.
  - rewrite orb_false_iff, negb_false_iff, negb_true_iff, Z.eqb_neq, Z.leb_gt.
    split; [intros [? ?]; eauto | intros (d' & [= <-] & ?); lia].
  - split; [done | intros (d' & ? & ?); done].
Qed.

Lemma validate_ok (o : OrderCreate) :
  instruction_invariants o -> _validate_order_details o = Ok tt.
Proof.
  intros (Hq & Hp & Ht & Hd). unfold _validate_order_details, int_truthy.
  replace (oc_quantity o =? 0) with false by lia.
  replace (oc_quantity o <=? 0) with false by lia.
  replace (oc_quantity o <? oc_disclosed_quantity o) with false by lia.
  rewrite andb_false_r. simpl.
  destruct (bool_decide (oc_order_type o ∈ ["LMT"; "SL"])) eqn:E1;
    destruct (bool_decide (oc_order_type o ∈ ["SLM"; "SL"])) eqn:E2; simpl;
    try (apply bool_decide_eq_true in E1; apply Hp, price_check in E1; rewrite E1);
    try (apply bool_decide_eq_true in E2; apply Ht, price_check in E2; rewrite E2);
    done.
Qed.

Lemma validate_raise (o : OrderCreate) :
  ~ instruction_invariants o ->
  exists msg, _validate_order_details o = Raise (ValueError msg).
Proof.
  intros Hn. unfold _validate_order_details.
  destruct (negb (int_truthy (oc_quantity o)) || (oc_quantity o <=? 0)) eqn:Eq;
    [eauto|].
  destruct (bool_decide (oc_order_type o ∈ ["LMT"; "SL"]) && _) eqn:Ep; [eauto|].
  destruct (bool_decide (oc_order_type o ∈ ["SLM"; "SL"]) && _) eqn:Et; [eauto|].
  destruct (int_truthy (oc_disclosed_quantity o) && _) eqn:Ed; [eauto|].
  exfalso. apply Hn.
  apply orb_false_iff in Eq as [_ Eq]. apply Z.leb_gt in Eq.
  split; [done|]. split; [|split].
  - intros Hin. rewrite (bool_decide_eq_true_2 _ Hin) in Ep.
    by apply price_check.
  - intros Hin. rewrite (bool_decide_eq_true_2 _ Hin) in Et.
    by apply price_check.
  - unfold int_truthy in Ed. apply andb_false_iff in Ed as [Ed|Ed].
    + apply negb_false_iff, Z.eqb_eq in Ed. lia.
    + apply Z.ltb_ge in Ed. lia.
Qed.

Section Gateway.
Context `{CryptoLib}.
Variable env : Env.

Lemma make_authenticated_request_world e t p w :
  snd (_make_authenticated_request env e t p w)
  = {| auth_tokens := auth_tokens w;
       trace := trace w ++ [request_event env e t p] |}.
Proof.
  unfold _make_authenticated_request, try_except, bind, http_post, get_trace,
    emit, lift, ret, raise. simpl.
  repeat case_match; simplify_eq; done.
Qed.

(** C5. [place_order] checks the instruction before anything else. When an
    invariant is violated (quantity not above 0; kind LMT or SL without a
    positive price; kind SLM or SL without a positive trigger price;
    disclosed quantity above the quantity) it raises a [ValueError] and the
    world is untouched, so nothing has gone to the network. When all hold,
    exactly one request goes upstream: the POST of the mapped payload to
    the place-order endpoint. *)
Theorem place_order_validates_first (auth_token : JVal)
    (order_details : OrderCreate) (code : string) (w : World) :
  let '(r, w') := place_order env auth_token order_details code w in
  (~ instruction_invariants order_details ->
     (exists msg, r = Raise (ValueError msg)) /\ w' = w)
  /\ (instruction_invariants order_details ->
        auth_tokens w' = auth_tokens w
        /\ trace w'
           = trace w
             ++ [request_event env "/rest/secure/v1/placeorder" auth_token
                   (_map_order_to_mofsl_payload env order_details code)]).
Proof.
  destruct (place_order env auth_token order_details code w) as [r w'] eqn:Hrun.
  unfold place_order, bind, lift in Hrun.
  split.
  - intros [msg Hv]%validate_raise. rewrite Hv in Hrun.
    injection Hrun as <- <-. eauto.
  - intros Hv%validate_ok. rewrite Hv in Hrun.
    pose proof (make_authenticated_request_world "/rest/secure/v1/placeorder"
                  auth_token
                  (_map_order_to_mofsl_payload env order_details code) w) as Hw.
    destruct (_make_authenticated_request _ _ _ _ _) as [[d|e] w1];
      simpl in Hw; subst w1; simpl in Hrun.
    + destruct (_extract_order_id d); by injection Hrun as <- <-.
    + by injection Hrun as <- <-.
Qed.

End Gateway.

Lemma limit_order_priced :
  instruction_invariants (limit_order (Some {| dec_coeff := 1005; dec_exp := -1 |})).
Proof.
  split; [simpl; lia|]. split; [|split; [|simpl; lia]].
  - intros _. eexists. split; [reflexivity|simpl; lia].
  - intros Hin%(bool_decide_eq_true_2 _). by vm_compute in Hin.
Qed.

Lemma limit_order_unpriced : ~ instruction_invariants (limit_order None).
Proof.
  intros (_ & Hp & _).
  destruct Hp as (d & Hd & _); [apply list_elem_of_here|discriminate].
Qed.

(** C5 on two runs: a limit order without a price is refused with the world
    unchanged, the same order with a price goes upstream once. *)
Lemma place_order_validates_first_witness :
  ((exists msg,
      fst (place_order (sample_env 0) (JStr "tok-1") (limit_order None) "CL001"
             empty_world) = Raise (ValueError msg))
   /\ snd (place_order (sample_env 0) (JStr "tok-1") (limit_order None) "CL001"
             empty_world) = empty_world)
  /\ length (trace (snd (place_order (sample_env 0) (JStr "tok-1")
                           (limit_order (Some {| dec_coeff := 1005; dec_exp := -1 |}))
                           "CL001" empty_world))) = 1%nat.
Proof.
  split.
  - pose proof (place_order_validates_first (sample_env 0) (JStr "tok-1")
                  (limit_order None) "CL001" empty_world) as Hthm.
    destruct (place_order _ _ _ _ _) as [r w'].
    exact (proj1 Hthm limit_order_unpriced).
  - pose proof (place_order_validates_first (sample_env 0) (JStr "tok-1")
                  (limit_order (Some {| dec_coeff := 1005; dec_exp := -1 |}))
                  "CL001" empty_world) as Hthm.
    destruct (place_order _ _ _ _ _) as [r w'].
    destruct (proj2 Hthm limit_order_priced) as [_ Htr]. simpl.
    rewrite Htr. reflexivity.
Defined.

End GatewayProps.

(** ** Batch execution *)

Module BatchProps.
Import Security Wrapper PyLogic Samples Orders Schemas GatewayProps Vocabulary.

Section Batch.
Context `{CryptoLib}.
Variable env : Env.

(** [gather] always returns, with one entry per task. *)
Lemma gather_total {A} (tasks : list (Py A)) (w : World) :
  exists rs, fst (gather tasks w) = Ok rs /\ length rs = length tasks.
Proof.
  revert w. induction tasks as [|t ts IH]; intros w; simpl.
  - by exists [].
  - destruct (t w) as [r w1]. destruct (IH w1) as (rs & Hrs & Hlen).
    destruct (gather ts w1) as [[rs'|e] w2]; simpl in Hrs; [|done].
    injection Hrs as ->. exists (r :: rs). simpl. by rewrite Hlen.
Qed.

(** The entry of a task is what the task returns in the world left by the
    tasks before it. *)
Lemma gather_lookup {A} (before : list (Py A)) (t : Py A) (after : list (Py A))
    (w : World) (rs : list (Res A)) :
  fst (gather (before ++ t :: after) w) = Ok rs ->
  rs !! length before = Some (fst (t (snd (gather before w)))).
Proof.
  revert w rs. induction before as [|t0 ts IH]; intros w rs; simpl.
  - destruct (t w) as [r w1]. simpl.
    destruct (gather after w1) as [[rs'|e] w2]; simpl; [|done].
    by intros [= <-].
  - destruct (t0 w) as [r0 w1].
    specialize (IH w1).
    destruct (gather (ts ++ t :: after) w1) as [[rs'|e] w2]; simpl; [|done].
    intros [= <-]. simpl.
    destruct (gather_total ts w1) as (rs0 & Hrs0 & _).
    destruct (gather ts w1) as [[rs1|e] w3]; simpl in *; [|done].
    by apply IH.
Qed.

(** [execute_single_order] always returns an outcome: the one of its [try]
    block, or the failed outcome made from the exception that left it. *)
Lemma execute_single_order_outcome client_id co request token_id w :
  exists outcome w',
    execute_single_order env client_id co request token_id w = (Ok outcome, w')
    /\ match execute_single_order_body env (env_clock env (trace w)) client_id
               co request token_id w with
       | (Ok r, w1) => outcome = r /\ w' = w1
       | (Raise e, w1) =>
           outcome = failed_outcome co request client_id (str_exn e)
                       (env_elapsed_ms env (env_clock env (trace w))
                          (env_clock env (trace w1)))
           /\ w' = w1
       end.
Proof.
  unfold execute_single_order, bind, clock, try_except. simpl.
  destruct (execute_single_order_body _ _ _ _ _ _ _) as [[r|e] w1]; simpl; eauto.
Qed.

Lemma body_outcome start client_id co request token_id w r w1 :
  execute_single_order_body env start client_id co request token_id w
  = (Ok r, w1) ->
  r_client_id r = client_id /\ success r = true.
Proof.
  unfold execute_single_order_body. intros Hrun.
  unfold bind at 1 in Hrun.
  destruct (get_client_with_validation _ _ _ _) as [[client|e] w2]; [|done].
  unfold bind at 1 in Hrun.
  destruct (lift _ w2) as [[oc|e] w3]; [|done].
  destruct (dry_run request).
  - unfold bind, clock, ret in Hrun. by injection Hrun as <- <-.
  - unfold bind at 1 in Hrun.
    destruct (place_order _ _ _ _ _) as [[oid|e] w4]; [|done].
    unfold bind at 1 in Hrun.
    destruct (emit _ w4) as [[u|e] w5]; [|done].
    unfold bind at 1 in Hrun.
    destruct (db_commit _ w5) as [[u'|e] w6]; [|done].
    unfold bind at 1, clock in Hrun. unfold bind at 1 in Hrun.
    destruct (row_read _ _) as [[u''|e] w7]; [|done].
    unfold ret in Hrun. by injection Hrun as <- <-.
Qed.

(** C2. With a concurrency bound of at least one, [execute_batch_orders]
    raises only for the batch: a failed batch-level check or an empty list
    of valid orders, with nothing executed. Otherwise it returns a response with one outcome per valid
    order, in the order of the valid orders; the outcome at the position of
    an instruction names its client, and when the execution of that
    instruction raised an exception [e] (client unknown or inactive,
    credentials missing, order refused locally or upstream, database
    failure) the outcome is a failure carrying [str(e)] and no order id.
    An exception that leaves a task altogether is turned into a failed
    outcome with its text in the same way. *)
Theorem batch_isolates_failures (request : BatchOrderRequest) (w w' : World)
    (r : Res BatchOrderResponse) :
  1 <= max_concurrent request ->
  execute_batch_orders env request w = (r, w') ->
  match r with
  | Raise e =>
      w' = w
      /\ (batch_precondition request = Some e
          \/ (valid_orders request = []
              /\ e = HTTPException 400 "No valid orders with quantity > 0"))
  | Ok response =>
      length (results response) = length (valid_orders request)
      /\ forall before co after,
           valid_orders request = before ++ co :: after ->
           let w_i := snd (gather (map (task env request) before) w) in
           exists outcome,
             results response !! length before = Some outcome
             /\ r_client_id outcome = co_client_id co
             /\ forall e w1,
                  execute_single_order_body env (env_clock env (trace w_i))
                    (co_client_id co) co request 1 w_i = (Raise e, w1) ->
                  success outcome = false
                  /\ order_id outcome = None
                  /\ error_message outcome = Some (str_exn e)
  end
  /\ forall co e,
       let outcome := process_result request co (Raise e) in
       r_client_id outcome = co_client_id co
       /\ success outcome = false
       /\ order_id outcome = None
       /\ error_message outcome = Some (str_exn e).
Proof.
  intros Hk Hrun. split; [|done]. revert Hrun.
  unfold execute_batch_orders, bind at 1, clock, try_except. simpl.
  destruct (batch_precondition request) as [e|] eqn:Hpre.
  { assert (exists d, e = HTTPException 400 d) as [d ->]
      by (unfold batch_precondition in Hpre; repeat case_match;
          simplify_eq; eauto).
    intros [= <- <-]. split; [done|]. by left. }
  destruct (valid_orders request) as [|co0 rest] eqn:Hvalid.
  { intros [= <- <-]. split; [done|]. by right. }
  replace (max_concurrent request <? 0) with false by lia.
  rewrite <- Hvalid. fold (task env request).
  destruct (gather_total (map (task env request) (valid_orders request)) w)
    as (rs & Hrs & Hlen).
  unfold bind at 1.
  destruct (gather (map (task env request) (valid_orders request)) w)
    as [[rs'|e] w1] eqn:Hg; simpl in Hrs; [|done].
  injection Hrs as ->.
  unfold bind, clock, ret. intros [= <- <-]. simpl.
  rewrite length_map in Hlen.
  split; [rewrite length_zip_with; lia|].
  intros before co after Hsplit.
  (* the gathered entry at the position of [co] *)
  assert (Hr : rs !! length before
               = Some (fst (task env request co
                              (snd (gather (map (task env request) before) w))))).
  { rewrite <- (length_map (task env request) before).
    apply gather_lookup with (after := map (task env request) after).
    by rewrite <- map_cons, <- map_app, <- Hsplit, Hg. }
  destruct (execute_single_order_outcome (co_client_id co) co request 1
              (snd (gather (map (task env request) before) w)))
    as (outcome & w2 & Hrun & Hbody).
  unfold task in Hr at 1. rewrite Hrun in Hr. simpl in Hr.
  exists outcome. split.
  { rewrite lookup_zip_with, Hsplit, list_lookup_middle by done. simpl.
    by rewrite Hr. }
  (* the outcome is the one of the [try] block, or made from its exception *)
  destruct (execute_single_order_body _ _ _ _ _ _ _) as [[r|e] w3] eqn:Hb.
  - destruct Hbody as [-> ->].
    split; [by apply body_outcome in Hb as [? ?]|]. done.
  - destruct Hbody as [-> ->]. split; [done|].
    by intros e' w1' [= <- <-].
Qed.

(** C3, as the code has it. With no order of positive quantity left,
    [execute_batch_orders] executes nothing and raises an HTTP 400 error:
    the whole call fails. When the price and trigger-price checks pass,
    the detail is "No valid orders with quantity > 0". *)
Theorem empty_batch_is_rejected (request : BatchOrderRequest) (w : World) :
  valid_orders request = [] ->
  exists detail,
    execute_batch_orders env request w = (Raise (HTTPException 400 detail), w)
    /\ (batch_precondition request = None ->
        detail = "No valid orders with quantity > 0").
Proof.
  intros Hvalid.
  unfold execute_batch_orders, bind at 1, clock, try_except. simpl.
  rewrite Hvalid.
  destruct (batch_precondition request) as [e|] eqn:Hpre.
  - assert (exists d, e = HTTPException 400 d) as [d ->]
      by (unfold batch_precondition in Hpre; repeat case_match;
          simplify_eq; eauto).
    simpl. by exists d.
  - simpl. eauto.
Qed.

End Batch.

(** C3 fails on the code: a batch whose only order has quantity 0 is not
    answered with a response, it is refused. *)
Lemma empty_batch_counterexample :
  ~ empty_batch_is_reported (sample_env 0)
      (market_batch [order_for 1 0] false 5) empty_world.
Proof.
  intros Hclaim. destruct Hclaim as (response & w' & Hrun & _); [done|].
  vm_compute in Hrun. discriminate.
Qed.

(** C3 (as amended) on a run. *)
Lemma empty_batch_is_rejected_witness :
  execute_batch_orders (sample_env 0) (market_batch [order_for 1 0] false 5)
    empty_world
  = (Raise (HTTPException 400 "No valid orders with quantity > 0"), empty_world).
Proof.
  destruct (empty_batch_is_rejected (sample_env 0)
              (market_batch [order_for 1 0] false 5) empty_world eq_refl)
    as (detail & Hrun & Hdetail).
  rewrite Hrun, (Hdetail eq_refl). reflexivity.
Defined.

(** C2 on a run: of two orders the second names a client the database does
    not know; its outcome, at position 1, is the failure with that text. *)
Lemma batch_isolates_failures_witness :
  exists response w' outcome,
    execute_batch_orders (sample_env 0)
      (market_batch [order_for 1 10; order_for 2 5] false 5) empty_world
    = (Ok response, w')
    /\ results response !! 1%nat = Some outcome
    /\ success outcome = false
    /\ error_message outcome = Some "Client with ID 2 not found".
Proof.
  destruct (execute_batch_orders (sample_env 0)
              (market_batch [order_for 1 10; order_for 2 5] false 5) empty_world)
    as [[response|e] w'] eqn:Hrun; [|vm_compute in Hrun; discriminate].
  destruct (batch_isolates_failures (sample_env 0)
              (market_batch [order_for 1 10; order_for 2 5] false 5) _ _ _
              ltac:(simpl; lia) Hrun)
    as [[_ Hthm] _].
  destruct (Hthm [order_for 1 10] (order_for 2 5) [] eq_refl)
    as (outcome & Hlookup & _ & Hfail).
  exists response, w', outcome. split; [done|]. split; [exact Hlookup|].
  edestruct Hfail as (Hs & _ & Hm); [vm_compute; reflexivity|].
  split; [exact Hs|exact Hm].
Defined.

End BatchProps.

(** ** Exit flow *)

Module ExitProps.
Import Security Wrapper PyLogic Samples Orders Schemas GatewayProps Vocabulary.

Lemma filter_res_ok {A} (p : A -> Res bool) (l kept : list A) :
  filter_res p l = Ok kept ->
  Forall (fun x => is_ok (p x) = true) l
  /\ kept = filter (fun x => ok_true (p x)) l.
Proof.
  revert kept. induction l as [|x l IH]; intros kept; simpl.
  - intros [= <-]. by split.
  - destruct (p x) as [b|e] eqn:Hp; [|done].
    destruct (filter_res p l) as [r|e]; [|done].
    intros [= <-]. destruct (IH r eq_refl) as [Hall ->].
    split; [constructor; [by rewrite Hp|done]|].
    rewrite filter_cons, Hp. by destruct b.
Qed.



Section Exit.
Context `{CryptoLib}.
Variable env : Env.

Lemma place_order_world t o c w r w' :
  place_order env t o c w = (r, w') ->
  (w' = w /\ is_ok r = false)
  \/ w' = {| auth_tokens := auth_tokens w;
             trace := trace w
                      ++ [request_event env "/rest/secure/v1/placeorder" t
                            (_map_order_to_mofsl_payload env o c)] |}.
Proof.
  unfold place_order, bind, lift. intros Hrun.
  destruct (_validate_order_details o); [|injection Hrun as <- <-; by left].
  right.
  pose proof (make_authenticated_request_world env "/rest/secure/v1/placeorder"
                t (_map_order_to_mofsl_payload env o c) w) as Hw.
  destruct (_make_authenticated_request _ _ _ _ _) as [[d|e] w1];
    simpl in Hw; subst w1.
  - destruct (_extract_order_id d); by injection Hrun as <- <-.
  - by injection Hrun as <- <-.
Qed.









End Exit.


(** The live run of the loop body on the long position: one order goes to
    the broker and one row is recorded. *)
Example exit_position_sells :
  trace (snd (exit_position (sample_env 0) (market_exit 5 false) "2885"
                sample_client (sample_token 100) (position 50) empty_world))
  = [EvHttpPost "https://openapi.motilaloswaluat.com/rest/secure/v1/placeorder"
       (Some "Bearer tok-0")
       (JObj [("clientcode", JStr "CL001"); ("symboltoken", JStr "1");
              ("transactiontype", JStr "S"); ("ordertype", JStr "MARKET");
              ("producttype", JStr "MIS"); ("quantity", JStr "50");
              ("exchange", JStr "NSE"); ("validity", JStr "DAY");
              ("remarks", JStr "Exit order for 2885")]);
     EvDbAdd {| om_order_id := "ORD1"; om_client_id := 1; om_token_id := 1;
                om_order_type := "MKT"; om_transaction_type := "SELL";
                om_product_type := JStr "MIS"; om_quantity := 50;
                om_price := None; om_trigger_price := None;
                om_exchange := "NSE"; om_validity := None;
                om_status := "PENDING";
                om_remarks := "Exit order for 2885" |}].
Proof. vm_compute. reflexivity. Qed.

End ExitProps.

(** ** Admission of batch tasks *)

Module AdmissionProps.
Import Samples Orders Vocabulary.

Lemma count_insert (l : list Phase) (i : nat) (p q : Phase) :
  l !! i = Some p ->
  count_in_flight (<[i := q]> l)
  = count_in_flight l
    - (if decide (p = InFlight) then 1 else 0)
    + (if decide (q = InFlight) then 1 else 0).
Proof.
  unfold count_in_flight.
  revert i. induction l as [|x l IH]; intros [|i] Hl; simpl in *; try done.
  - injection Hl as ->. rewrite !filter_cons.
    repeat case_decide; simpl; lia.
  - specialize (IH i Hl). rewrite !filter_cons.
    repeat case_decide; simpl in *; lia.
Qed.

Lemma start_balanced request :
  0 <= max_concurrent request -> balanced (max_concurrent request) (start request).
Proof.
  intros Hk. split; [done|]. unfold in_flight, start. simpl.
  replace (filter _ _) with (@nil Phase); [simpl; lia|].
  induction (valid_orders request) as [|co l IH]; [done|].
  simpl. rewrite filter_cons. by case_decide.
Qed.

Lemma step_balanced k s s' : balanced k s -> step s s' -> balanced k s'.
Proof.
  intros [Hv Hk] Hstep. destruct Hstep as [s i Hq Hpos | s i Hr];
    unfold balanced, in_flight in *; simpl;
    fold (count_in_flight (phases s)) in Hk.
  - fold (count_in_flight (<[i:=InFlight]> (phases s))).
    rewrite (count_insert _ _ _ _ Hq).
    repeat case_decide; try done. lia.
  - fold (count_in_flight (<[i:=Finished]> (phases s))).
    rewrite (count_insert _ _ _ _ Hr).
    repeat case_decide; try done.
    assert (0 <= count_in_flight (phases s)) by (unfold count_in_flight; lia).
    lia.
Qed.

Lemma reachable_balanced request s :
  0 <= max_concurrent request ->
  rtc step (start request) s -> balanced (max_concurrent request) s.
Proof.
  intros Hk Hreach. apply rtc_nsteps in Hreach as [n Hn].
  revert s Hn. induction n as [|n IH]; intros s Hn.
  - inversion Hn; subst. by apply start_balanced.
  - apply nsteps_inv_r in Hn as (s1 & Hn & Hstep).
    eapply step_balanced; [by apply IH|done].
Qed.

(** C9. In every state the tasks of a batch can reach, whatever the
    interleaving, at most [max_concurrent] of them are between acquiring and
    releasing the semaphore, which is where the upstream call is made and
    awaited; and a queued task enters that region only from a state in which
    fewer than [max_concurrent] tasks are in it. *)
Theorem admission_bound (request : BatchOrderRequest) (s : Sched) :
  0 <= max_concurrent request ->
  rtc step (start request) s ->
  in_flight s <= max_concurrent request
  /\ forall i s',
       step s s' ->
       phases s !! i = Some Queued ->
       phases s' !! i = Some InFlight ->
       in_flight s < max_concurrent request.
Proof.
  intros Hk Hreach.
  destruct (reachable_balanced _ _ Hk Hreach) as [Hv Hsum].
  split; [lia|].
  intros i s' Hstep Hq Hin.
  destruct Hstep as [s j Hj Hpos | s j Hj]; [lia|].
  simpl in Hin. destruct (decide (j = i)) as [->|Hne].
  - rewrite list_lookup_insert_eq in Hin by (by eapply lookup_lt_Some). done.
  - rewrite list_lookup_insert_ne in Hin by done. congruence.
Qed.

(** Two of the three tasks have been admitted; no permit is left. *)
Lemma two_admitted :
  rtc step (start three_orders)
    {| sem_value := 0; phases := [InFlight; InFlight; Queued] |}.
Proof.
  eapply rtc_l; [exact (step_acquire (start three_orders) 0 eq_refl eq_refl)|].
  eapply rtc_l; [|apply rtc_refl].
  exact (step_acquire {| sem_value := 1; phases := [InFlight; Queued; Queued] |}
           1 eq_refl eq_refl).
Qed.

(** C9 on a run: with two tasks admitted the bound of two is met, not
    passed. *)
Lemma admission_bound_witness :
  in_flight {| sem_value := 0; phases := [InFlight; InFlight; Queued] |} <= 2.
Proof.
  apply (admission_bound three_orders
           {| sem_value := 0; phases := [InFlight; InFlight; Queued] |}).
  - simpl. lia.
  - exact two_admitted.
Defined.

(** The third task cannot be admitted from there: it waits for a release. *)
Example third_waits s' :
  step {| sem_value := 0; phases := [InFlight; InFlight; Queued] |} s' ->
  phases s' !! 2%nat = Some Queued.
Proof.
  inversion 1 as [s i Hi Hpos | s i Hi]; subst; simpl in *; [lia|].
  destruct i as [|[|[|i]]]; simpl in *; done.
Qed.

End AdmissionProps.

(** ** Instrument search *)

Module TokensProps.
Import Samples Tokens Vocabulary.

Lemma insert_keyed_skip {A} (x : nat * A) (l1 l2 : list (nat * A)) :
  Forall (fun y => (fst y < fst x)%nat) l1 ->
  insert_keyed x (l1 ++ l2) = l1 ++ insert_keyed x l2.
Proof.
  induction 1 as [|y l1 Hy _ IH]; [done|]. simpl.
  destruct (Nat.leb_spec (fst x) (fst y)); [lia|]. by rewrite IH.
Qed.

Lemma insert_keyed_front {A} (x : nat * A) (l : list (nat * A)) :
  Forall (fun y => (fst x <= fst y)%nat) l -> insert_keyed x l = x :: l.
Proof.
  destruct 1 as [|y l Hy _]; [done|]. simpl.
  by destruct (Nat.leb_spec (fst x) (fst y)); [|lia].
Qed.

Lemma tier_keys {A} (k : nat) (l : list (nat * A)) :
  Forall (fun y => fst y = k) (tier k l).
Proof.
  apply Forall_forall. intros y Hy. unfold tier in Hy.
  apply list_elem_of_filter in Hy. by destruct Hy.
Qed.

(** Sorting keys 0, 1, 2 stably lays the three tiers end to end. *)
Lemma sort_keyed_tiers {A} (l : list (nat * A)) :
  Forall (fun x => (fst x <= 2)%nat) l ->
  sort_keyed l = tier 0 l ++ tier 1 l ++ tier 2 l.
Proof.
  induction 1 as [|x l Hx _ IH]; [done|].
  unfold sort_keyed in *. simpl. rewrite IH. unfold tier at 4 5 6.
  rewrite !filter_cons. fold (tier 0 l) (tier 1 l) (tier 2 l).
  pose proof (tier_keys 0 l) as H0. pose proof (tier_keys 1 l) as H1.
  pose proof (tier_keys 2 l) as H2.
  destruct (fst x) as [|[|[|n]]] eqn:Hk; simpl; [| | |lia].
  - apply insert_keyed_front. rewrite !Forall_app. rewrite Hk.
    split_and!; eapply Forall_impl; eauto; simpl; lia.
  - rewrite insert_keyed_skip by (eapply Forall_impl; eauto; simpl; lia).
    f_equal. apply insert_keyed_front. rewrite !Forall_app. rewrite Hk.
    split_and!; eapply Forall_impl; eauto; simpl; lia.
  - rewrite insert_keyed_skip by (eapply Forall_impl; eauto; simpl; lia).
    f_equal.
    rewrite insert_keyed_skip by (eapply Forall_impl; eauto; simpl; lia).
    f_equal. apply insert_keyed_front.
    eapply Forall_impl; eauto; simpl; lia.
Qed.

Lemma slice_to_length {A} (l : list A) (n : Z) :
  0 <= n -> Z.of_nat (length (slice_to l n)) <= n.
Proof.
  intros Hn. unfold slice_to. replace (n <? 0) with false by lia.
  rewrite length_take. lia.
Qed.

Section Search.
Context `{CaseMapping}.

Lemma field_lower_dict item k : is_dict item -> exists s, field_lower item k = Ok s.
Proof. intros [f ->]. unfold field_lower. simpl. eauto. Qed.

Lemma matches_query_dict ql item :
  is_dict item -> exists b, matches_query ql item = Ok b.
Proof.
  intros Hd. unfold matches_query.
  destruct (field_lower_dict item "symbol" Hd) as [s ->].
  destruct (field_lower_dict item "name" Hd) as [n ->].
  destruct (field_lower_dict item "token" Hd) as [t ->]. eauto.
Qed.

Lemma sort_key_dict ql item :
  is_dict item -> exists k, sort_key ql item = Ok k /\ (k <= 2)%nat.
Proof.
  intros Hd. unfold sort_key.
  destruct (field_lower_dict item "symbol" Hd) as [s ->].
  eexists. split; [done|]. repeat case_match; lia.
Qed.

Lemma filter_res_dicts ql (l : list JVal) :
  Forall is_dict l ->
  filter_res (matches_query ql) l = Ok (filter (fun i => matching ql i) l).
Proof.
  induction 1 as [|x l Hx _ IH]; [done|]. simpl.
  destruct (matches_query_dict ql x Hx) as [b Hb]. rewrite Hb, IH.
  assert (Hm : matching ql x = b) by (unfold matching; by rewrite Hb).
  rewrite filter_cons, Hm. by destruct b.
Qed.

Lemma map_res_sort_key ql (l : list JVal) :
  Forall is_dict l ->
  exists keys,
    map_res (sort_key ql) l = Ok keys
    /\ Forall (fun x => (fst x <= 2)%nat) (zip keys l)
    /\ forall k, map snd (tier k (zip keys l)) = filter (fun i => ranked ql k i) l.
Proof.
  induction 1 as [|x l Hx _ (keys & Hkeys & Hle & Htier)].
  - exists []. by split_and!.
  - destruct (sort_key_dict ql x Hx) as (k & Hk & Hk2).
    exists (k :: keys). simpl. rewrite Hk, Hkeys. split_and!; [done|by constructor|].
    intros k'. specialize (Htier k'). unfold tier in *.
    assert (Hr : ranked ql k' x = (k =? k')%nat) by (unfold ranked; by rewrite Hk).
    rewrite !filter_cons, Hr. simpl.
    destruct (Nat.eqb_spec k k') as [->|Hne].
    + rewrite decide_True by done. simpl. by rewrite Htier.
    + rewrite decide_False by done. by rewrite Htier.
Qed.

(** C8, as the code has it. For a query of two characters or more over a
    catalog of JSON objects, the result is: the matching entries whose
    symbol is the query, then those whose symbol starts with it, then the
    other matching entries, each group in catalog order; cut to 50 entries;
    then cut to [limit], so that it never has more than [limit] entries. For
    a shorter query nothing is matched or ranked: the result is the first
    100 catalog entries, cut to [limit]. *)
Theorem search_ranked_and_capped (instruments : list JVal) (q : string)
    (limit : Z) :
  ((2 <= str_len q)%nat ->
   Forall is_dict instruments ->
   let matches := filter (fun i => matching (lower q) i) instruments in
   let tier k := filter (fun i => ranked (lower q) k i) matches in
   exists result,
     limited_results instruments q limit = Ok result
     /\ result
        = slice_to (slice_to (tier 0%nat ++ tier 1%nat ++ tier 2%nat) 50) limit
     /\ (0 <= limit -> Z.of_nat (length result) <= limit))
  /\ ((str_len q < 2)%nat ->
      limited_results instruments q limit
      = Ok (slice_to (slice_to instruments 100) limit)).
Proof.
  split.
  - intros Hlen Hd. simpl. unfold limited_results, filter_instruments.
    replace (negb (str_truthy q) || (str_len q <? 2)%nat) with false.
    2:{ destruct q; [simpl in Hlen; lia|]. cbn [str_truthy negb orb].
        symmetry. by apply Nat.ltb_ge. }
    rewrite (filter_res_dicts _ _ Hd).
    assert (Hd' : Forall is_dict (filter (fun i => matching (lower q) i) instruments)).
    { apply Forall_forall. intros x [_ Hx]%list_elem_of_filter.
      by eapply Forall_forall in Hd. }
    destruct (map_res_sort_key (lower q) _ Hd') as (keys & -> & Hle & Htier).
    rewrite (sort_keyed_tiers _ Hle), !map_app, !Htier.
    eexists. split; [done|]. split; [done|]. apply slice_to_length.
  - intros Hlen. unfold limited_results, filter_instruments.
    replace (negb (str_truthy q) || (str_len q <? 2)%nat) with true; [done|].
    symmetry. apply orb_true_iff. right. apply Nat.ltb_lt. lia.
Qed.

End Search.

(** C8 fails on the code for a query of one character: the entry whose
    symbol is the query comes after one that merely contains it. *)
Lemma search_order_counterexample :
  limited_results small_catalog "R" 50 = Ok small_catalog
  /\ ~ tier_ordered (lower "R") small_catalog.
Proof.
  split; [reflexivity|].
  intros Hord.
  specialize (Hord 0%nat 1%nat _ _ 2%nat 0%nat ltac:(lia) eq_refl eq_refl
                eq_refl eq_refl).
  lia.
Qed.

(** C8 (as amended) on a run: the query "REL" over a catalog that lists
    "RELIANCE" before "REL". *)
Lemma search_ranked_and_capped_witness :
  limited_results
    [instrument "RELIANCE" "Reliance Industries"; instrument "TCS" "Tata";
     instrument "REL" "Rel Ltd"; instrument "AREL" "Arel"] "REL" 2
  = Ok [instrument "REL" "Rel Ltd"; instrument "RELIANCE" "Reliance Industries"].
Proof.
  destruct (proj1 (search_ranked_and_capped
              [instrument "RELIANCE" "Reliance Industries"; instrument "TCS" "Tata";
               instrument "REL" "Rel Ltd"; instrument "AREL" "Arel"] "REL" 2))
    as (result & -> & -> & _).
  - simpl. lia.
  - repeat constructor; eexists; reflexivity.
  - reflexivity.
Defined.

End TokensProps.

(** * Further properties

    Properties of the code around the ten claims: the rest of the session
    manager and of the gateway, the dry-run and failure behaviour of the
    endpoints, the search helpers and the credential store. *)

(** ** Facts about strings *)

Module StringFacts.

Lemma string_app_inv_head (s a b : string) : s +:+ a = s +:+ b -> a = b.
Proof. induction s as [|c s IH]; simpl; [done|]. intros [= ?]. by apply IH. Qed.

Lemma ascii_lower_length (s : string) :
  String.length (ascii_lower s) = String.length s.
Proof. induction s as [|c s IH]; simpl; congruence. Qed.

(** on ASCII text every byte is a character *)
Lemma str_len_ascii (s : string) :
  is_ascii s = true -> str_len s = String.length s.
Proof.
  induction s as [|c s IH]; [done|]. simpl.
  intros [Hc Hs]%andb_true_iff. rewrite (IH Hs).
  unfold is_continuation. apply Nat.ltb_lt in Hc.
  replace (128 <=? nat_of_ascii c)%nat with false; [done|].
  symmetry. apply Nat.leb_gt. lia.
Qed.

(** a slice [s[:n]] has at most [n] characters *)
Lemma str_take_length (n : nat) (s : string) :
  (str_len (str_take n s) <= n)%nat.
Proof.
  revert n. induction s as [|c s IH]; intros n; simpl; [lia|].
  destruct (is_continuation c) eqn:Hc; simpl.
  - rewrite Hc. apply IH.
  - destruct n as [|n]; simpl; [lia|]. rewrite Hc. specialize (IH n). lia.
Qed.

Lemma prefix_app (a b s : string) :
  String.prefix (a +:+ b) s = true -> String.prefix a s = true.
Proof.
  revert s. induction a as [|c a IH]; intros s; [by destruct s|].
  destruct s as [|c' s]; [done|]. simpl.
  destruct (Ascii.ascii_dec c c'); [apply IH|done].
Qed.

(** a text that contains [a +:+ b] contains [a] *)
Lemma contains_app (a b s : string) :
  contains (a +:+ b) s = true -> contains a s = true.
Proof.
  induction s as [|c s IH].
  - cbn [contains]. rewrite !orb_false_r. apply prefix_app.
  - cbn [contains]. rewrite !orb_true_iff.
    intros [Hp|Hc]; [left; by eapply prefix_app|right; by apply IH].
Qed.

Lemma replace_from_absent (old new s : string) :
  contains old s = false -> replace_from old new 0 s = s.
Proof.
  induction s as [|c s IH]; [done|].
  cbn [contains replace_from]. intros [Hp Hc]%orb_false_iff.
  rewrite Hp. by rewrite IH.
Qed.

Lemma pretty_N_go_nonempty (x : N) (s : string) :
  s <> "" -> pretty_N_go x s <> "".
Proof.
  revert s. induction (N.lt_wf_0 x) as [x _ IH]; intros s Hs.
  destruct (decide (x = 0)%N) as [->|Hx]; [by rewrite pretty_N_go_0|].
  rewrite pretty_N_go_step by lia.
  apply IH; [apply N.div_lt; lia|done].
Qed.

Lemma str_int_nonempty (n : Z) : str_int n <> "".
Proof.
  unfold str_int, pretty, pretty_Z.
  assert (Hpos : forall p : positive, pretty p <> "").
  { intros p. unfold pretty, pretty_positive, pretty, pretty_N.
    case_decide; [done|].
    rewrite pretty_N_go_step by lia. by apply pretty_N_go_nonempty. }
  destruct n as [|p|p]; [done|apply Hpos|done].
Qed.

(** the text of a value that counts as true is not empty *)
Lemma str_of_truthy (v : JVal) : truthy v = true -> str v <> "".
Proof.
  destruct v as [|[|]|n|s|l|f]; simpl; try done.
  - intros _. apply str_int_nonempty.
  - by destruct s.
Qed.

End StringFacts.

(** ** The session cache *)

Module CacheProps.
Import Security Wrapper PyLogic Samples Vocabulary SessionProps.

Section Cache.
Context `{CryptoLib}.
Variable env : Env.

(** X1. The expiry computed at a clock reading lies strictly after that
    reading and at most 24 hours after it: a session is never created
    expired, and none lives longer than a day. *)
Theorem expiry_within_a_day (now : Z) :
  now < _calculate_token_expiry now <= now + timedelta 1 0 0.
Proof.
  unfold _calculate_token_expiry, hour, replace_time, date_of, time_of_day,
    timedelta, us_per_day, us_per_hour, us_per_second.
  case_match; Z.div_mod_to_equations; lia.
Qed.

Lemma expiry_after (now : Z) : now < _calculate_token_expiry now.
Proof.
  unfold _calculate_token_expiry, hour, replace_time, date_of, time_of_day,
    timedelta, us_per_day, us_per_hour, us_per_second.
  case_match; Z.div_mod_to_equations; lia.
Qed.

(** X2. The session [authenticate_client] returns has not expired at the
    clock reading of the world it leaves, and from that world every call
    without [force_refresh] made while the clock is before the expiry,
    for whatever segment and in whatever surroundings, returns that very
    session and changes nothing. *)
Theorem session_is_served_again (client : Client) (segment : string)
    (force_refresh : bool) (w w' : World) (tok : AuthToken) :
  authenticate_client env client segment force_refresh w = (Ok tok, w') ->
  env_clock env (trace w') < expires_at tok
  /\ forall (env' : Env) (segment' : string),
       env_clock env' (trace w') < expires_at tok ->
       authenticate_client env' client segment' false w' = (Ok tok, w').
Proof.
  intros Hrun.
  assert (Hhit : auth_tokens w' !! id client = Some tok
                 /\ env_clock env (trace w') < expires_at tok).
  { destruct (authenticate_client_cases _ _ _ _ _ _ _ Hrun)
      as [(_ & (t & Ht & Hexp & [= <-]) & ->) | (r0 & Hfresh & Hr0)].
    - split; [done|]. unfold is_expired in Hexp. lia.
    - destruct r0 as [t|e]; [|by destruct Hr0]. injection Hr0 as <-.
      destruct (authenticate_fresh_spec _ _ _ _ _ _ Hfresh)
        as (_ & Hexp & _ & Hins & _).
      split; [by rewrite Hins, lookup_insert_eq|].
      rewrite Hexp. apply expiry_after. }
  destruct Hhit as [Hc Hnow]. split; [done|].
  intros env' segment' Hnow'.
  unfold authenticate_client, bind, get_tokens, clock. simpl.
  rewrite Hc. unfold is_expired.
  destruct (Z.leb_spec (expires_at tok) (env_clock env' (trace w'))); [lia|done].
Qed.

(** X3. [get_cached_token] returns a session exactly when the cache holds
    one for the client that has not expired; what it returns is what the
    cache holds for the client afterwards, so an expired entry is gone;
    the entries of other clients and the trace are untouched. *)
Theorem get_cached_token_valid (client_id : Z) (w : World) :
  let now := env_clock env (trace w) in
  let '(r, w') := get_cached_token env client_id w in
  exists cached,
    r = Ok cached
    /\ (forall t, cached = Some t <->
                  auth_tokens w !! client_id = Some t /\ now < expires_at t)
    /\ auth_tokens w' !! client_id = cached
    /\ (forall j, j <> client_id -> auth_tokens w' !! j = auth_tokens w !! j)
    /\ trace w' = trace w.
Proof.
  unfold get_cached_token, bind, get_tokens, clock, put_tokens, ret. simpl.
  destruct (auth_tokens w !! client_id) as [t|] eqn:Hc.
  - unfold is_expired.
    destruct (Z.leb_spec (expires_at t) (env_clock env (trace w))); simpl.
    + exists None. split_and!; try done.
      * intros t'. split; [done|]. intros [[= <-] ?]. lia.
      * apply lookup_delete_eq.
      * intros j Hj. by rewrite lookup_delete_ne.
    + exists (Some t). split_and!; try done.
      intros t'. split; [by intros [= <-]|by intros [[= <-] _]].
  - exists None. split_and!; try done.
    intros t'. split; [done|by intros [? _]].
Qed.

(** what [get_cached_token] leaves behind, as a lemma on a run *)
Lemma get_cached_token_run client_id w r w' :
  get_cached_token env client_id w = (r, w') ->
  exists cached,
    r = Ok cached
    /\ (forall t, cached = Some t <->
                  auth_tokens w !! client_id = Some t
                  /\ env_clock env (trace w) < expires_at t)
    /\ auth_tokens w' !! client_id = cached
    /\ (forall j, j <> client_id -> auth_tokens w' !! j = auth_tokens w !! j)
    /\ trace w' = trace w.
Proof.
  unfold get_cached_token, bind, get_tokens, clock, put_tokens, ret. simpl.
  destruct (auth_tokens w !! client_id) as [t|] eqn:Hc.
  - unfold is_expired.
    destruct (Z.leb_spec (expires_at t) (env_clock env (trace w))); simpl;
      intros [= <- <-]; simpl.
    + exists None. split_and!; try done.
      * intros t'. split; [done|]. intros [[= <-] ?]. lia.
      * apply lookup_delete_eq.
      * intros j Hj. by rewrite lookup_delete_ne.
    + exists (Some t). split_and!; try done.
      intros t'. split; [by intros [= <-]|by intros [[= <-] _]].
  - intros [= <- <-]. exists None. split_and!; try done.
    intros t'. split; [done|by intros [? _]].
Qed.

(** X4. [invalidate_token] tells whether the client had an entry, expired
    or not. After it, [authenticate_client] cannot serve from the cache:
    a session it returns is a new one, stored for the client and obtained
    by a request to the authentication endpoint; when it fails the client
    is left without a session. *)
Theorem invalidate_forces_login (client : Client) (segment : string)
    (w w1 w' : World) (r1 : Res bool) (r : Res AuthToken) :
  invalidate_token (id client) w = (r1, w1) ->
  authenticate_client env client segment false w1 = (r, w') ->
  r1 = Ok (bool_decide (is_Some (auth_tokens w !! id client)))
  /\ match r with
     | Ok tok =>
         auth_tokens w' = <[id client := tok]> (auth_tokens w)
         /\ exists pre payload,
              trace w' = trace w ++ pre ++ [EvHttpPost (auth_url env) None payload]
     | Raise _ => auth_tokens w' = delete (id client) (auth_tokens w)
     end.
Proof.
  intros Hinv Hrun.
  assert (Hw1 : r1 = Ok (bool_decide (is_Some (auth_tokens w !! id client)))
                /\ auth_tokens w1 = delete (id client) (auth_tokens w)
                /\ trace w1 = trace w).
  { unfold invalidate_token, bind, get_tokens, put_tokens, ret in Hinv.
    simpl in Hinv.
    destruct (auth_tokens w !! id client) as [t|] eqn:Hc;
      injection Hinv as <- <-; simpl.
    - split_and!; try done.
    - split_and!; try done. symmetry. by apply delete_id. }
  destruct Hw1 as (-> & Hdel & Htr). split; [done|].
  destruct (authenticate_client_cases _ _ _ _ _ _ _ Hrun)
    as [(_ & (t & Ht & _) & _) | (r0 & Hfresh & Hr0)].
  { rewrite Hdel, lookup_delete_eq in Ht. done. }
  destruct (authenticate_fresh_spec _ _ _ _ _ _ Hfresh) as (_ & Hspec).
  destruct r0 as [t|e].
  - subst r. destruct Hspec as (_ & _ & Hins & Hpost).
    rewrite Hins, Hdel, Htr in *. split; [|done].
    apply insert_delete_eq.
  - destruct Hr0 as [e' ->]. by rewrite Hspec.
Qed.

(** X5. After [logout_client] the client has no session, whatever the peer
    answered; the sessions of other clients stay. Without a session that is
    still valid nothing is sent and the result is [True]; with one, exactly
    one request goes to the logout endpoint under the session's token, and
    the result tells whether the request went through. *)
Theorem logout_client_clears (client : Client) (w : World) :
  let now := env_clock env (trace w) in
  let '(r, w') := logout_client env client w in
  auth_tokens w' = delete (id client) (auth_tokens w)
  /\ match auth_tokens w !! id client with
     | Some t =>
         if is_expired now t then r = Ok true /\ trace w' = trace w
         else
           let bearer := Some ("Bearer " +:+ str (token t)) in
           r = Ok (is_ok (env_http env (trace w) (logout_url env) bearer JNull))
           /\ trace w' = trace w ++ [EvHttpPost (logout_url env) bearer JNull]
     | None => r = Ok true /\ trace w' = trace w
     end.
Proof.
  unfold logout_client, bind at 1.
  destruct (get_cached_token env (id client) w) as [r0 w0] eqn:E0.
  destruct (get_cached_token_run _ _ _ _ E0)
    as (cached & -> & Hiff & Hlook & Hothers & Htr).
  assert (Hdel : delete (id client) (auth_tokens w0)
                 = delete (id client) (auth_tokens w)).
  { apply map_eq. intros j. destruct (decide (j = id client)) as [->|Hj].
    - by rewrite !lookup_delete_eq.
    - by rewrite !lookup_delete_ne, Hothers. }
  destruct cached as [t|].
  - destruct (proj1 (Hiff t) eq_refl) as [Ht Hnow]. rewrite Ht.
    unfold is_expired.
    destruct (Z.leb_spec (expires_at t) (env_clock env (trace w))); [lia|].
    unfold try_except, bind, http_post, get_trace, emit, lift, invalidate_token,
      get_tokens, put_tokens, ret, bind. simpl.
    rewrite Htr.
    destruct (env_http env (trace w) (logout_url env)
                (Some ("Bearer " +:+ str (token t))) JNull) as [resp|e];
      simpl; rewrite Hlook; simpl; by split_and!.
  - unfold ret. rewrite Htr.
    assert (Hw0 : auth_tokens w0 = delete (id client) (auth_tokens w)).
    { rewrite <- Hdel. symmetry. by apply delete_id. }
    split; [done|].
    destruct (auth_tokens w !! id client) as [t|] eqn:Ht; [|done].
    unfold is_expired.
    destruct (Z.leb_spec (expires_at t) (env_clock env (trace w))); [done|].
    assert (@None AuthToken = Some t) by (by apply Hiff). done.
Qed.

Lemma decrypt_run c w :
  decrypt env c w
  = (global_decrypt_data (env_crypto env) c,
     {| auth_tokens := auth_tokens w; trace := trace w ++ [EvDecrypt c] |}).
Proof. reflexivity. Qed.

(** A successful decryption of the credentials of a segment reads the four
    stored fields, in the order api key, secret key, user id, password. *)
Lemma decrypt_client_credentials_ok client segment w creds w' :
  _decrypt_client_credentials env client segment w = (Ok creds, w') ->
  exists ek es eu ep,
    segment_fields client segment = Ok [Some ek; Some es; Some eu; Some ep]
    /\ global_decrypt_data (env_crypto env) ek = Ok (api_key creds)
    /\ global_decrypt_data (env_crypto env) es = Ok (secret_key creds)
    /\ global_decrypt_data (env_crypto env) eu = Ok (user_id creds)
    /\ global_decrypt_data (env_crypto env) ep = Ok (password creds)
    /\ dob creds = None /\ totp_secret creds = None
    /\ validate creds = true
    /\ w' = {| auth_tokens := auth_tokens w;
               trace := trace w ++ [EvDecrypt ek; EvDecrypt es; EvDecrypt eu;
                                    EvDecrypt ep] |}.
Proof.
  unfold _decrypt_client_credentials, try_except, bind at 1, lift.
  destruct (segment_fields client segment) as [fields|e]; [|by destruct e].
  destruct (negb (forallb opt_str_truthy fields)); [done|].
  destruct fields as [|[ek|] [|[es|] [|[eu|] [|[ep|] [|? ?]]]]]; try done.
  unfold bind. rewrite decrypt_run.
  destruct (global_decrypt_data (env_crypto env) ek) as [k|e] eqn:Hk;
    [|by destruct e].
  rewrite decrypt_run.
  destruct (global_decrypt_data (env_crypto env) es) as [s|e] eqn:Hs;
    [|by destruct e].
  rewrite decrypt_run.
  destruct (global_decrypt_data (env_crypto env) eu) as [u|e] eqn:Hu;
    [|by destruct e].
  rewrite decrypt_run.
  destruct (global_decrypt_data (env_crypto env) ep) as [p|e] eqn:Hp;
    [|by destruct e].
  simpl. destruct (validate _) eqn:Hv; simpl; [|done].
  intros [= <- <-]. exists ek, es, eu, ep. simpl.
  rewrite <- !app_assoc. simpl. by split_and!.
Qed.

(** X6. A successful [authenticate_client] either changes nothing (the
    cached session was served) or does exactly this, in this order: it
    decrypts the four stored credentials of the segment (api key, secret
    key, user id, password) and sends one request to the authentication
    endpoint, without a bearer token, whose body holds the user id, the
    password and the api key. The secret key is decrypted and never
    sent. *)
Theorem authentication_sends (client : Client) (segment : string)
    (force_refresh : bool) (w w' : World) (tok : AuthToken) :
  authenticate_client env client segment force_refresh w = (Ok tok, w') ->
  w' = w
  \/ exists ek es eu ep k s u p,
       segment_fields client segment = Ok [Some ek; Some es; Some eu; Some ep]
       /\ global_decrypt_data (env_crypto env) ek = Ok k
       /\ global_decrypt_data (env_crypto env) es = Ok s
       /\ global_decrypt_data (env_crypto env) eu = Ok u
       /\ global_decrypt_data (env_crypto env) ep = Ok p
       /\ trace w'
          = trace w
            ++ [EvDecrypt ek; EvDecrypt es; EvDecrypt eu; EvDecrypt ep;
                EvHttpPost (auth_url env) None
                  (JObj [("userid", JStr u); ("password", JStr p);
                         ("apikey", JStr k)])].
Proof.
  intros Hrun.
  destruct (authenticate_client_cases _ _ _ _ _ _ _ Hrun)
    as [(_ & _ & ->) | (r0 & Hfresh & Hr0)]; [by left|].
  right. destruct r0 as [t|e]; [|by destruct Hr0]. clear Hr0 Hrun.
  unfold authenticate_fresh, bind at 1 in Hfresh.
  destruct (_decrypt_client_credentials _ _ _ _) as [[creds|e] w1] eqn:E1;
    [|done].
  apply decrypt_client_credentials_ok in E1
    as (ek & es & eu & ep & Hf & Hk & Hs & Hu & Hp & Hdob & Htotp & _ & ->).
  exists ek, es, eu, ep, (api_key creds), (secret_key creds), (user_id creds),
    (password creds).
  split_and!; try done.
  unfold bind at 1, _prepare_auth_payload in Hfresh.
  rewrite Hdob, Htotp in Hfresh.
  unfold bind at 1, get_trace, ret in Hfresh. simpl in Hfresh.
  unfold bind at 1 in Hfresh.
  destruct (http_post _ _ _ _ _) as [[response|e] w3] eqn:E3; [|done].
  apply http_post_world in E3 as ->.
  unfold bind, lift, clock, get_tokens, put_tokens, ret in Hfresh.
  destruct (_handle_auth_response response client); [|done].
  destruct (json response); [|done].
  destruct (_extract_auth_token _); [|done].
  injection Hfresh as _ <-. simpl. by rewrite <- app_assoc.
Qed.

(** X7. [authenticate_client] raises two kinds of exception only: the
    transport error of the HTTP library, passed on as it is, and a
    [ValueError] whose text starts with "Authentication failed: ". *)
Theorem authenticate_client_failure (client : Client) (segment : string)
    (force_refresh : bool) (w w' : World) (e : Exn) :
  authenticate_client env client segment force_refresh w = (Raise e, w') ->
  (exists m, e = HTTPError m)
  \/ exists m, e = ValueError ("Authentication failed: " +:+ m).
Proof.
  unfold authenticate_client, bind, get_tokens, clock, try_except. simpl.
  intros Hrun.
  assert (Hfresh :
    match authenticate_fresh env client segment w with
    | (Ok a, w'0) => (Ok a, w'0)
    | (Raise e, w'0) =>
        match e with
        | HTTPError m => raise (HTTPError m)
        | _ => raise (ValueError ("Authentication failed: " +:+ str_exn e))
        end w'0
    end = (Raise e, w') ->
    (exists m, e = HTTPError m)
    \/ exists m, e = ValueError ("Authentication failed: " +:+ m)).
  { destruct (authenticate_fresh env client segment w) as [[t|e0] w1]; [done|].
    destruct e0; intros [= <- <-]; eauto. }
  destruct force_refresh; [by apply Hfresh|].
  destruct (auth_tokens w !! id client) as [t|]; [|by apply Hfresh].
  destruct (is_expired _ t); simpl in Hrun; [by apply Hfresh|done].
Qed.

(** X8. When one of the four stored credentials of the segment is missing
    or empty and no cached session is served, [authenticate_client] fails
    before anything is decrypted or sent: the world is unchanged, and the
    error names the segment and the client. *)
Theorem missing_credentials_fail_early (client : Client) (segment : string)
    (force_refresh : bool) (fields : list (option string)) (w : World) :
  segment_fields client segment = Ok fields ->
  forallb opt_str_truthy fields = false ->
  (force_refresh = false -> auth_tokens w !! id client = None) ->
  authenticate_client env client segment force_refresh w
  = (Raise (ValueError
       ("Authentication failed: Failed to decrypt credentials: Missing "
        +:+ segment +:+ " credentials for client " +:+ client_code client)),
     w).
Proof.
  intros Hf Hmiss Hcache.
  unfold authenticate_client, bind, get_tokens, clock, try_except. simpl.
  assert (Hlookup : (if force_refresh then None else auth_tokens w !! id client)
                    = None)
    by (destruct force_refresh; [done|by apply Hcache]).
  rewrite Hlookup.
  unfold authenticate_fresh, bind at 1, _decrypt_client_credentials,
    try_except, bind at 1, lift.
  rewrite Hf, Hmiss. reflexivity.
Qed.

End Cache.

(** X2 on a run: the session made at time 0 for the interactive segment is
    served at time 5 to a call for the commodity segment. *)
Lemma session_is_served_again_witness :
  authenticate_client (sample_env 5) sample_client "commodity" false
    (interactive_world 0)
  = (Ok (first_session 0), interactive_world 0).
Proof.
  destruct (session_is_served_again (sample_env 0) sample_client "interactive"
              false empty_world _ _ (first_authentication 0)) as [_ Hagain].
  apply (Hagain (sample_env 5) "commodity"). vm_compute. reflexivity.
Defined.

(** X4 on a run: after invalidation the next call logs in again. *)
Lemma invalidate_forces_login_witness :
  exists tok w',
    authenticate_client (sample_env 5) sample_client "interactive" false
      (snd (invalidate_token 1 (interactive_world 0))) = (Ok tok, w')
    /\ auth_tokens w' = <[1 := tok]> (auth_tokens (interactive_world 0)).
Proof.
  destruct (authenticate_client (sample_env 5) sample_client "interactive" false
              (snd (invalidate_token 1 (interactive_world 0))))
    as [[tok|e] w'] eqn:Hrun; [|vm_compute in Hrun; discriminate].
  exists tok, w'. split; [done|].
  destruct (invalidate_forces_login (sample_env 5) sample_client "interactive"
              (interactive_world 0) _ w' _ (Ok tok) eq_refl Hrun) as [_ [Hins _]].
  exact Hins.
Defined.

(** X6 on a run: the first authentication of the sample client. *)
Lemma authentication_sends_witness :
  exists k s u p,
    trace (interactive_world 0)
    = [EvDecrypt "#key"; EvDecrypt "#secret"; EvDecrypt "#user";
       EvDecrypt "#pass";
       EvHttpPost (auth_url (sample_env 0)) None
         (JObj [("userid", JStr u); ("password", JStr p); ("apikey", JStr k)])]
    /\ global_decrypt_data (env_crypto (sample_env 0)) "#secret" = Ok s.
Proof.
  destruct (authentication_sends (sample_env 0) sample_client "interactive"
              false empty_world _ _ (first_authentication 0))
    as [Hsame | (ek & es & eu & ep & k & s & u & p & Hf & _ & Hs & _ & _ & Htr)].
  - discriminate Hsame.
  - injection Hf as <- <- <- <-. exists k, s, u, p. split; [exact Htr|exact Hs].
Defined.

(** X7 on a run: the peer cannot be reached. *)
Lemma authenticate_client_failure_witness :
  (exists m, HTTPError "connection refused" = HTTPError m)
  \/ exists m, HTTPError "connection refused"
               = ValueError ("Authentication failed: " +:+ m).
Proof.
  apply (authenticate_client_failure (down_env 0) sample_client "interactive"
           false empty_world
           (snd (authenticate_client (down_env 0) sample_client "interactive"
                   false empty_world))).
  vm_compute. reflexivity.
Defined.

(** X8 on a run: a client without credentials for the commodity segment. *)
Lemma missing_credentials_fail_early_witness :
  authenticate_client (sample_env 0) interactive_only_client "commodity" false
    empty_world
  = (Raise (ValueError
       "Authentication failed: Failed to decrypt credentials: Missing commodity credentials for client CL002"),
     empty_world).
Proof.
  apply (missing_credentials_fail_early (sample_env 0) interactive_only_client
           "commodity" false [None; None; None; None] empty_world).
  - reflexivity.
  - reflexivity.
  - reflexivity.
Defined.

End CacheProps.

(** ** Requests through the gateway *)

Module RequestProps.
Import Security Wrapper PyLogic Samples Vocabulary GatewayProps Schemas
  StringFacts.

Lemma first_truthy_truthy fields d v :
  first_truthy fields d = Some v -> truthy v = true.
Proof.
  induction fields as [|f fs IH]; simpl; [done|].
  destruct (assoc f d) as [x|]; [|done].
  destruct (truthy x) eqn:Hx; [by intros [= <-]|done].
Qed.

Lemma extract_order_id_nonempty d oid :
  _extract_order_id d = Ok oid -> oid <> "".
Proof.
  unfold _extract_order_id. destruct d as [| | | | |root]; try done.
  destruct (match default (JObj []) (assoc "data" root) with
            | JObj d => first_truthy order_id_fields d
            | _ => None
            end) as [v|] eqn:Hn.
  - intros [= <-]. apply str_of_truthy.
    destruct (default (JObj []) (assoc "data" root)); try done.
    by eapply first_truthy_truthy.
  - destruct (first_truthy order_id_fields root) as [v|] eqn:Hr; [|done].
    intros [= <-]. apply str_of_truthy. by eapply first_truthy_truthy.
Qed.

Lemma check_nil ok field msg : check ok field msg = [] -> ok = true.
Proof. by destruct ok. Qed.

(** What the constructor of [OrderCreate] has checked when it returns. *)
Lemma OrderCreate_init_valid cid tid ot tt pt q p tp dq ex v rm o :
  OrderCreate_init cid tid ot tt pt q p tp dq ex v rm = Ok o ->
  exists product,
    pt = JStr product
    /\ o = {| oc_client_id := cid; oc_token_id := tid; oc_order_type := ot;
              oc_transaction_type := tt; oc_product_type := product;
              oc_quantity := q; oc_price := p;
              oc_trigger_price := default None tp;
              oc_disclosed_quantity := default 0 dq; oc_exchange := ex;
              oc_validity := v; oc_remarks := rm |}
    /\ 0 < cid /\ 0 < tid /\ 0 < q
    /\ 0 <= default 0 dq
    /\ ot ∈ ["MKT"; "LMT"; "SLM"; "SL"]
    /\ tt ∈ ["BUY"; "SELL"]
    /\ product ∈ ["MIS"; "CNC"; "NRML"]
    /\ ex ∈ ["NSE"; "BSE"; "MCX"; "NCDEX"]
    /\ v ∈ ["DAY"; "IOC"; "GTD"].
Proof.
  unfold OrderCreate_init.
  set (errors := (_ ++ _)%list).
  destruct errors eqn:Herr; [|by destruct pt].
  destruct pt as [| | |product| |]; try done.
  intros [= <-]. exists product.
  subst errors.
  repeat (apply app_nil in Herr as [?%check_nil Herr]).
  apply app_nil in Herr as [_ Herr].
  apply app_nil in Herr as [_ Herr].
  apply app_nil in Herr as [Hdq Herr].
  apply app_nil in Herr as [?%check_nil Herr].
  apply app_nil in Herr as [?%check_nil _].
  assert (0 <= default 0 dq).
  { destruct dq as [d|]; [|done]. apply check_nil in Hdq. simpl. lia. }
  unfold matches in *.
  repeat match goal with
         | Hb : bool_decide _ = true |- _ => apply bool_decide_eq_true in Hb
         | Hb : (_ <? _) = true |- _ => apply Z.ltb_lt in Hb
         end.
  by split_and!.
Qed.

(** X14. For an order the schema has accepted, the check of the gateway
    comes down to three rules: it passes exactly when a limit or stop-loss
    order has a positive price, a stop-loss or stop-loss-market order a
    positive trigger price, and the disclosed quantity is not above the
    quantity. The check of the quantity itself cannot fail after the
    schema. *)
Theorem gateway_check_of_accepted_order (cid tid : Z) (ot txn : string)
    (pt : JVal) (q : Z) (p : option Decimal) (tp : option (option Decimal))
    (dq : option Z) (ex v : string) (rm : option string) (o : OrderCreate) :
  OrderCreate_init cid tid ot txn pt q p tp dq ex v rm = Ok o ->
  (_validate_order_details o = Ok tt <->
   (ot ∈ ["LMT"; "SL"] -> positive_price p)
   /\ (ot ∈ ["SLM"; "SL"] -> positive_price (default None tp))
   /\ default 0 dq <= q).
Proof.
  intros (product & -> & -> & _ & _ & Hq & Hdq & _)%OrderCreate_init_valid.
  split.
  - unfold _validate_order_details. simpl.
    destruct (negb (int_truthy q) || (q <=? 0)); [done|].
    destruct (bool_decide (ot ∈ ["LMT"; "SL"]) && _) eqn:Ep; [done|].
    destruct (bool_decide (ot ∈ ["SLM"; "SL"]) && _) eqn:Et; [done|].
    destruct (int_truthy (default 0 dq) && _) eqn:Ed; [done|].
    intros _. split_and!.
    + intros Hin. rewrite (bool_decide_eq_true_2 _ Hin) in Ep.
      by apply price_check.
    + intros Hin. rewrite (bool_decide_eq_true_2 _ Hin) in Et.
      by apply price_check.
    + unfold int_truthy in Ed. apply andb_false_iff in Ed as [Ed|Ed].
      * apply negb_false_iff, Z.eqb_eq in Ed. lia.
      * apply Z.ltb_ge in Ed. lia.
  - intros (Hp & Ht & Hd). apply validate_ok. split_and!; simpl; try done.
Qed.

Section Gateway.
Context `{CryptoLib} `{CaseMapping}.
Variable env : Env.

(** X9. An authenticated request fails in two ways only: with the
    transport error of the HTTP library, exactly as the peer raised it, or
    with a [ValueError] whose text starts with "Request failed: " (which
    also wraps the errors found in an answer). *)
Theorem request_errors (endpoint : string) (auth_token payload : JVal)
    (w w' : World) (e : Exn) :
  _make_authenticated_request env endpoint auth_token payload w = (Raise e, w') ->
  (exists m,
     e = HTTPError m
     /\ env_http env (trace w) (env_base_url env +:+ endpoint)
          (Some ("Bearer " +:+ str auth_token)) payload = Raise (HTTPError m))
  \/ exists m, e = ValueError ("Request failed: " +:+ m).
Proof.
  unfold _make_authenticated_request, try_except, bind, http_post, get_trace,
    emit, lift, ret, raise. simpl.
  destruct (env_http env (trace w) _ _ payload) as [response|e0] eqn:Hhttp.
  - intros Hrun. right.
    repeat case_match; simplify_eq; eauto.
  - destruct e0; intros [= <- <-]; eauto.
Qed.

(** X10. An answer with status 200 whose body is an object with a "data"
    field is returned as it is, whatever its "status" field says: an answer
    that reports an error and carries "data" is not raised as an error. *)
Theorem data_key_overrides_status (endpoint : string)
    (auth_token payload : JVal) (w : World) (response : HttpResponse)
    (fields : list (string * JVal)) :
  env_http env (trace w) (env_base_url env +:+ endpoint)
    (Some ("Bearer " +:+ str auth_token)) payload = Ok response ->
  status_code response = 200 ->
  json response = Ok (JObj fields) ->
  is_Some (assoc "data" fields) ->
  fst (_make_authenticated_request env endpoint auth_token payload w)
  = Ok (JObj fields).
Proof.
  intros Hhttp Hcode Hjson Hdata.
  unfold _make_authenticated_request, try_except, bind, http_post, get_trace,
    emit, lift, ret, raise. simpl.
  rewrite Hhttp, Hcode, Hjson. simpl.
  rewrite (bool_decide_eq_true_2 _ Hdata), orb_true_r. done.
Qed.

(** X11. The order id [place_order] returns is never the empty string. *)
Theorem place_order_id_nonempty (auth_token : JVal) (order_details : OrderCreate)
    (code : string) (w w' : World) (oid : string) :
  place_order env auth_token order_details code w = (Ok oid, w') ->
  oid <> "".
Proof.
  unfold place_order, bind, lift.
  destruct (_validate_order_details order_details); [|done].
  destruct (_make_authenticated_request _ _ _ _ _) as [[d|e] w1]; [|done].
  destruct (_extract_order_id d) as [o|e] eqn:Hex; [|done].
  intros [= <- <-]. by eapply extract_order_id_nonempty.
Qed.

(** X12. [search_instruments] compares the exchange in upper case with the
    four it knows. For any other exchange it raises a [ValueError] and
    sends nothing; for a known one it sends exactly one request, to the
    instrument endpoint, with the exchange in upper case. *)
Theorem search_instruments_validates_first (auth_token : JVal)
    (exchange : string) (w : World) :
  let '(r, w') := search_instruments env auth_token exchange w in
  (upper exchange ∉ valid_exchanges ->
     (exists msg, r = Raise (ValueError msg)) /\ w' = w)
  /\ (upper exchange ∈ valid_exchanges ->
        auth_tokens w' = auth_tokens w
        /\ trace w'
           = trace w
             ++ [request_event env "/rest/report/v1/getscripsbyexchangename"
                   auth_token (JObj [("exchangename", JStr (upper exchange))])]).
Proof.
  destruct (search_instruments env auth_token exchange w) as [r w'] eqn:Hrun.
  unfold search_instruments in Hrun.
  destruct (decide (upper exchange ∈ valid_exchanges)) as [Hin|Hout].
  - rewrite (bool_decide_eq_true_2 _ Hin) in Hrun. simpl in Hrun.
    split; [done|]. intros _.
    unfold bind at 1 in Hrun.
    pose proof (make_authenticated_request_world env
                  "/rest/report/v1/getscripsbyexchangename" auth_token
                  (JObj [("exchangename", JStr (upper exchange))]) w) as Hw.
    destruct (_make_authenticated_request _ _ _ _ _) as [[d|e] w1];
      simpl in Hw; subst w1.
    + unfold lift in Hrun. by injection Hrun as <- <-.
    + by injection Hrun as <- <-.
  - rewrite (bool_decide_eq_false_2 _ Hout) in Hrun. simpl in Hrun.
    injection Hrun as <- <-. split; [eauto|done].
Qed.

(** X13. The body sent for an order the schema has accepted: it names the
    client code, the token and the quantity as text, "B" or "S" for the
    side, one of the four order kinds of the broker, and the exchange and
    validity unchanged; "price" and "triggerprice" are present exactly when
    the order has them, "disclosedquantity" exactly when the disclosed
    quantity is above zero; "remarks" is sent for remarks that are not
    empty and holds their first 100 characters, never more. *)
Theorem payload_of_accepted_order (cid tid : Z) (ot txn : string) (pt : JVal)
    (q : Z) (p : option Decimal) (tp : option (option Decimal))
    (dq : option Z) (ex v : string) (rm : option string) (o : OrderCreate)
    (code : string) :
  OrderCreate_init cid tid ot txn pt q p tp dq ex v rm = Ok o ->
  exists fields,
    _map_order_to_mofsl_payload env o code = JObj fields
    /\ assoc "clientcode" fields = Some (JStr code)
    /\ assoc "symboltoken" fields = Some (JStr (str_int tid))
    /\ assoc "transactiontype" fields
       = Some (JStr (if String.eqb txn "BUY" then "B" else "S"))
    /\ (exists kind, assoc "ordertype" fields = Some (JStr kind)
                     /\ kind ∈ ["MARKET"; "LIMIT"; "SL-M"; "SL"])
    /\ assoc "quantity" fields = Some (JStr (str_int q))
    /\ assoc "exchange" fields = Some (JStr ex)
    /\ assoc "validity" fields = Some (JStr v)
    /\ assoc "price" fields = (fun d => JStr (env_float_str env d)) <$> p
    /\ assoc "triggerprice" fields
       = (fun d => JStr (env_float_str env d)) <$> default None tp
    /\ assoc "disclosedquantity" fields
       = (if 0 <? default 0 dq then Some (JStr (str_int (default 0 dq)))
          else None)
    /\ assoc "remarks" fields
       = match rm with
         | Some full =>
             if str_truthy full then Some (JStr (str_take 100 full)) else None
         | None => None
         end
    /\ forall r, assoc "remarks" fields = Some (JStr r) ->
         (str_len r <= 100)%nat.
Proof.
  intros (product & -> & -> & _ & _ & _ & Hdq & Hot & Htt & Hpt & Hex & Hv)
    %OrderCreate_init_valid.
  assert (Hside : mapping_get transaction_type_mapping txn txn
                  = if String.eqb txn "BUY" then "B" else "S").
  { set_unfold in Htt. by destruct Htt as [->|[->|[]]]. }
  assert (Hkind : mapping_get order_type_mapping ot ot
                  ∈ ["MARKET"; "LIMIT"; "SL-M"; "SL"]).
  { set_unfold in Hot. set_unfold.
    destruct Hot as [->|[->|[->|[->|[]]]]]; simpl; tauto. }
  assert (Hval : mapping_get validity_mapping v "DAY" = v).
  { set_unfold in Hv. by destruct Hv as [->|[->|[->|[]]]]. }
  unfold _map_order_to_mofsl_payload. cbn [oc_price oc_trigger_price
    oc_disclosed_quantity oc_remarks oc_token_id oc_transaction_type
    oc_order_type oc_product_type oc_quantity oc_exchange oc_validity].
  rewrite Hside, Hval.
  generalize dependent (mapping_get order_type_mapping ot ot). intros kind Hkind.
  generalize (mapping_get product_type_mapping product product). intros prod.
  assert (Hd : int_truthy (default 0 dq) && (0 <? default 0 dq)
               = (0 <? default 0 dq)).
  { unfold int_truthy. destruct (Z.ltb_spec 0 (default 0 dq)); [|by rewrite andb_false_r].
    replace (default 0 dq =? 0) with false by lia. done. }
  rewrite Hd. generalize (default 0 dq). intros d.
  assert (Hcut : forall full, exists cut,
            str_take 100 full = cut /\ (str_len cut <= 100)%nat).
  { intros full. eexists. split; [done|apply str_take_length]. }
  destruct p as [pd|], (default None tp) as [td|], (0 <? d), rm as [r0|];
    try destruct (str_truthy r0) eqn:Hr0;
    try (destruct (Hcut r0) as (cut & Hcut' & Hlen); rewrite Hcut';
         clear Hcut);
    (eexists; split; [reflexivity|]);
    (split_and!; [reflexivity..|by exists kind|reflexivity|reflexivity
                  |reflexivity|reflexivity|reflexivity|reflexivity
                  |reflexivity| ]);
    intros r Hr; simpl in Hr; simplify_eq; eauto.
Qed.

(** X15. How the answer to a cancellation or modification is read. With a
    textual "message" the operation counts as done when "status" is
    "success", or the message, in lower case, contains "success",
    "completed" or "done", or "data" is an object whose "status" is
    "success"; otherwise it counts as not done, without an error. A
    "message" that is not text is tolerated only when "status" is
    "success"; otherwise reading it raises. *)
Theorem operation_success_reading (fields : list (string * JVal))
    (operation : string) :
  let status := default JNull (assoc "status" fields) in
  let in_data :=
    match default (JObj []) (assoc "data" fields) with
    | JObj d => is_str (default JNull (assoc "status" d)) "success"
    | _ => false
    end in
  match default (JStr "") (assoc "message" fields) with
  | JStr m =>
      _check_order_operation_success (JObj fields) operation
      = Ok (is_str status "success"
            || contains "success" (lower m) || contains "completed" (lower m)
            || contains "done" (lower m) || in_data)
  | _ =>
      if is_str status "success"
      then _check_order_operation_success (JObj fields) operation = Ok true
      else exists msg,
             _check_order_operation_success (JObj fields) operation
             = Raise (AttributeError msg)
  end.
Proof.
  unfold _check_order_operation_success, get. cbn [default].
  destruct (is_str (default JNull (assoc "status" fields)) "success") eqn:Hst.
  { by destruct (default (JStr "") (assoc "message" fields)). }
  destruct (default (JStr "") (assoc "message" fields)) as [| | |m| |];
    try (by eexists).
  cbn [existsb success_keywords orb].
  assert (Hred : contains "successful" (lower m) = true ->
                 contains "success" (lower m) = true)
    by apply (contains_app "success" "ful").
  destruct (contains "success" (lower m)) eqn:H1; [done|].
  destruct (contains "successful" (lower m)); [by discriminate Hred|].
  cbn [orb].
  destruct (contains "completed" (lower m)); [done|].
  destruct (contains "done" (lower m)); [done|]. cbn [orb].
  by destruct (default (JObj []) (assoc "data" fields)).
Qed.

End Gateway.

(** X9 on a run: the peer cannot be reached. *)
Lemma request_errors_witness :
  (exists m,
     HTTPError "connection refused" = HTTPError m
     /\ env_http (down_env 0) (trace empty_world)
          (env_base_url (down_env 0) +:+ "/rest/report/v1/getposition")
          (Some ("Bearer " +:+ str (JStr "tok-1"))) JNull = Raise (HTTPError m))
  \/ exists m, HTTPError "connection refused"
               = ValueError ("Request failed: " +:+ m).
Proof.
  apply (request_errors (down_env 0) "/rest/report/v1/getposition"
           (JStr "tok-1") JNull empty_world
           (snd (_make_authenticated_request (down_env 0)
                   "/rest/report/v1/getposition" (JStr "tok-1") JNull
                   empty_world))).
  vm_compute. reflexivity.
Defined.

(** X10 on a run: the answer says "error" and carries an empty "data". *)
Lemma data_key_overrides_status_witness :
  fst (_make_authenticated_request (refusing_env 0)
         "/rest/report/v1/getposition" (JStr "tok-1") JNull empty_world)
  = Ok (JObj [("status", JStr "error"); ("message", JStr "Invalid token");
              ("data", JList [])]).
Proof.
  apply (data_key_overrides_status (refusing_env 0)
           "/rest/report/v1/getposition" (JStr "tok-1") JNull empty_world
           refused_response).
  - reflexivity.
  - reflexivity.
  - reflexivity.
  - vm_compute. by eexists.
Defined.

(** X11 on a run: a priced limit order placed with the sample peer. *)
Lemma place_order_id_nonempty_witness : "ORD1" <> "".
Proof.
  apply (place_order_id_nonempty (sample_env 0) (JStr "tok-1")
           (limit_order (Some {| dec_coeff := 1005; dec_exp := -1 |})) "CL001"
           empty_world
           (snd (place_order (sample_env 0) (JStr "tok-1")
                   (limit_order (Some {| dec_coeff := 1005; dec_exp := -1 |}))
                   "CL001" empty_world))).
  vm_compute. reflexivity.
Defined.

(** X13 on a run: a market order with remarks and a disclosed quantity. *)
Lemma payload_of_accepted_order_witness :
  exists o fields,
    OrderCreate_init 1 2885 "MKT" "SELL" (JStr "CNC") 10 None None (Some 5)
      "NSE" "DAY" (Some "exit") = Ok o
    /\ _map_order_to_mofsl_payload (sample_env 0) o "CL001" = JObj fields
    /\ assoc "transactiontype" fields = Some (JStr "S")
    /\ assoc "price" fields = None
    /\ assoc "disclosedquantity" fields = Some (JStr "5").
Proof.
  destruct (OrderCreate_init 1 2885 "MKT" "SELL" (JStr "CNC") 10 None None
              (Some 5) "NSE" "DAY" (Some "exit")) as [o|e] eqn:Ho;
    [|vm_compute in Ho; discriminate].
  destruct (payload_of_accepted_order (sample_env 0) _ _ _ _ _ _ _ _ _ _ _ _ o
              "CL001" Ho)
    as (fields & Hp & _ & _ & Hside & _ & _ & _ & _ & Hprice & _ & Hdq & _).
  exists o, fields.
  split_and!; [reflexivity|exact Hp|exact Hside|exact Hprice|exact Hdq].
Defined.

(** X14 on a run: an order that discloses 20 of 10 units passes the schema
    and fails the gateway. *)
Lemma gateway_check_of_accepted_order_witness :
  exists o,
    OrderCreate_init 1 2885 "MKT" "BUY" (JStr "MIS") 10 None None (Some 20)
      "NSE" "DAY" None = Ok o
    /\ _validate_order_details o <> Ok tt.
Proof.
  destruct (OrderCreate_init 1 2885 "MKT" "BUY" (JStr "MIS") 10 None None
              (Some 20) "NSE" "DAY" None) as [o|e] eqn:Ho;
    [|vm_compute in Ho; discriminate].
  exists o. split; [reflexivity|].
  intros Hok.
  apply (gateway_check_of_accepted_order _ _ _ _ _ _ _ _ _ _ _ _ o Ho) in Hok
    as (_ & _ & Hd).
  simpl in Hd. lia.
Defined.

End RequestProps.

(** ** The portfolio summary *)

Module SummaryProps.
Import Security Wrapper PyLogic Samples Vocabulary SessionProps GatewayProps
  Schemas.

Section Summary.
Context `{CryptoLib}.
Variable env : Env.

(** A call that makes one authenticated request and then only reads the
    answer leaves the world with that one request added. *)
Lemma request_then_read {A} endpoint t payload (k : JVal -> Res A) w :
  snd ((let* response_data := _make_authenticated_request env endpoint t payload in
        lift (k response_data)) w)
  = {| auth_tokens := auth_tokens w;
       trace := trace w ++ [request_event env endpoint t payload] |}.
Proof.
  unfold bind.
  pose proof (make_authenticated_request_world env endpoint t payload w) as Hw.
  destruct (_make_authenticated_request _ _ _ _ _) as [[d|e] w1];
    simpl in Hw; by subst w1.
Qed.

Lemma get_positions_world t c w :
  snd (get_positions env t c w)
  = {| auth_tokens := auth_tokens w;
       trace := trace w ++ [request_event env "/rest/report/v1/getposition" t
                              (JObj [("clientcode", JStr c)])] |}.
Proof.
  unfold get_positions, bind.
  pose proof (make_authenticated_request_world env "/rest/report/v1/getposition"
                t (JObj [("clientcode", JStr c)]) w) as Hw.
  destruct (_make_authenticated_request _ _ _ _ _) as [[d|e] w1];
    simpl in Hw; subst w1; [|done].
  unfold lift. destruct (get d "data" (JList [])) as [v|e]; [|done].
  by destruct v.
Qed.

Lemma get_client_profile_world t c w :
  snd (get_client_profile env t c w)
  = {| auth_tokens := auth_tokens w;
       trace := trace w ++ [request_event env "/rest/report/v1/profile" t
                              (JObj [("clientcode", JStr c)])] |}.
Proof.
  unfold get_client_profile, bind.
  pose proof (make_authenticated_request_world env "/rest/report/v1/profile"
                t (JObj [("clientcode", JStr c)]) w) as Hw.
  destruct (_make_authenticated_request _ _ _ _ _) as [[d|e] w1];
    simpl in Hw; subst w1; [|done].
  unfold lift. by destruct (get d "data" (JObj [])) as [v|e].
Qed.

Lemma get_client_profile_dict t c w d :
  fst (get_client_profile env t c w) = Ok d -> is_dict d.
Proof.
  unfold get_client_profile, bind.
  destruct (_make_authenticated_request _ _ _ _ _) as [[r|e] w1]; [|done].
  unfold lift. destruct (get r "data" (JObj [])) as [v|e]; [|done].
  simpl. intros [= <-]. destruct v; simpl; by eexists.
Qed.

(** X16. [get_portfolio_summary] fails only when the authentication fails,
    and then with its error. Otherwise it asks for positions, holdings and
    profile, in this order and each exactly once, also after one of them
    failed; a part that failed is reported empty (a list, or an empty
    object for the profile) and adds one line to the errors, so the number
    of errors is the number of failed parts. The session is not touched. *)
Theorem portfolio_summary_isolates (client : Client) (segment : string)
    (w w1 : World) (r : Res AuthToken) :
  authenticate_client env client segment false w = (r, w1) ->
  match r with
  | Raise e => get_portfolio_summary env client segment w = (Raise e, w1)
  | Ok tok =>
      let code := client_code client in
      let payload := JObj [("clientcode", JStr code)] in
      let '(positions, w2) := get_positions env (token tok) code w1 in
      let '(holdings, w3) := get_holdings env (token tok) code w2 in
      let '(profile, w4) := get_client_profile env (token tok) code w3 in
      exists s,
        get_portfolio_summary env client segment w = (Ok s, w4)
        /\ auth_tokens w4 = auth_tokens w1
        /\ trace w4
           = trace w1
             ++ [request_event env "/rest/report/v1/getposition" (token tok) payload;
                 request_event env "/rest/report/v1/getdpholding" (token tok) payload;
                 request_event env "/rest/report/v1/profile" (token tok) payload]
        /\ ps_positions s = match positions with Ok l => l | Raise _ => [] end
        /\ ps_holdings s = match holdings with Ok l => l | Raise _ => [] end
        /\ ps_profile s = match profile with Ok d => d | Raise _ => JObj [] end
        /\ is_dict (ps_profile s)
        /\ ps_errors s
           = fetch_error "positions" positions ++ fetch_error "holdings" holdings
             ++ fetch_error "profile" profile
        /\ length (ps_errors s)
           = length (filter (fun ok => ok = false)
                       [is_ok positions; is_ok holdings; is_ok profile])
  end.
Proof.
  intros Hauth. destruct r as [tok|e];
    unfold get_portfolio_summary; unfold bind at 1; rewrite Hauth; [|done].
  simpl.
  pose proof (get_positions_world (token tok) (client_code client) w1) as H2.
  destruct (get_positions env (token tok) (client_code client) w1)
    as [positions w2] eqn:E2. simpl in H2.
  pose proof (request_then_read "/rest/report/v1/getdpholding" (token tok)
                (JObj [("clientcode", JStr (client_code client))])
                data_list w2) as H3.
  fold (get_holdings env (token tok) (client_code client)) in H3.
  destruct (get_holdings env (token tok) (client_code client) w2)
    as [holdings w3] eqn:E3. simpl in H3.
  pose proof (get_client_profile_world (token tok) (client_code client) w3) as H4.
  pose proof (get_client_profile_dict (token tok) (client_code client) w3) as Hd.
  destruct (get_client_profile env (token tok) (client_code client) w3)
    as [profile w4] eqn:E4. simpl in H4, Hd.
  unfold bind, attempt, clock, ret. rewrite E2, E3, E4. simpl.
  eexists. split; [reflexivity|]. simpl.
  split_and!; try done.
  - by rewrite H4, H3, H2.
  - rewrite H4, H3, H2. simpl. by rewrite <- !app_assoc.
  - destruct profile as [d|e]; [by apply Hd|by exists []].
  - by destruct positions, holdings, profile.
Qed.

End Summary.

(** X16 on a run: the summary of the sample client. *)
Lemma portfolio_summary_isolates_witness :
  exists s w4,
    get_portfolio_summary (sample_env 0) sample_client "interactive" empty_world
    = (Ok s, w4)
    /\ auth_tokens w4 = auth_tokens (interactive_world 0)
    /\ is_dict (ps_profile s).
Proof.
  pose proof (portfolio_summary_isolates (sample_env 0) sample_client
                "interactive" empty_world _ _ (first_authentication 0)) as Hs.
  cbv beta iota zeta in Hs.
  destruct (get_positions _ _ _ _) as [positions w2].
  destruct (get_holdings _ _ _ _) as [holdings w3].
  destruct (get_client_profile _ _ _ _) as [profile w4].
  destruct Hs as (s & Hrun & Htok & _ & _ & _ & _ & Hdict & _).
  exists s, w4. split; [exact Hrun|]. split; [exact Htok|exact Hdict].
Defined.

End SummaryProps.

(** ** Reasoning on traces

    [silent] and [adds] through the combinators of the monad, so that what a
    handler may add to the trace follows the structure of its code. *)

Module TraceLogic.
Import Security Wrapper Orders PyLogic Vocabulary.

Lemma silent_bind {A B} (m : Py A) (k : A -> Py B) :
  silent m -> (forall a, silent (k a)) -> silent (bind m k).
Proof.
  intros Hm Hk w r w' Hb. unfold bind in Hb.
  destruct (m w) as [[a|e] w1] eqn:E; rewrite <- (Hm _ _ _ E).
  - by eapply Hk.
  - by injection Hb.
Qed.

Lemma silent_try_except {A} (m : Py A) (h : Exn -> Py A) :
  silent m -> (forall e, silent (h e)) -> silent (try_except m h).
Proof.
  intros Hm Hh w r w' Hb. unfold try_except in Hb.
  destruct (m w) as [[a|e] w1] eqn:E; rewrite <- (Hm _ _ _ E).
  - by injection Hb.
  - by eapply Hh.
Qed.

Lemma silent_gather {A} (tasks : list (Py A)) :
  Forall silent tasks -> silent (gather tasks).
Proof.
  induction 1 as [|t ts Ht _ IH]; intros w r w'; simpl.
  - by intros [= <- <-].
  - destruct (t w) as [r0 w1] eqn:E. apply Ht in E as ->.
    destruct (gather ts w) as [[rs|e] w2] eqn:E2; apply IH in E2 as ->;
      by intros [= <- <-].
Qed.

Lemma adds_silent {A} P (m : Py A) : silent m -> adds P m.
Proof.
  intros Hs w r w' Hrun. rewrite (Hs _ _ _ Hrun).
  exists []. by rewrite app_nil_r.
Qed.

Lemma adds_emit (P : Event -> Prop) e : P e -> adds P (emit e).
Proof. intros He w r w' [= <- <-]. exists [e]. split; [done|by constructor]. Qed.

Lemma adds_bind {A B} P (m : Py A) (k : A -> Py B) :
  adds P m -> (forall a, adds P (k a)) -> adds P (bind m k).
Proof.
  intros Hm Hk w r w' Hb. unfold bind in Hb.
  destruct (m w) as [[a|e] w1] eqn:E.
  - destruct (Hm _ _ _ E) as (ev1 & V1 & P1).
    destruct (Hk _ _ _ _ Hb) as (ev2 & V2 & P2).
    exists (ev1 ++ ev2). split; [by rewrite V2, V1, app_assoc|].
    by apply Forall_app.
  - injection Hb as <- <-. exact (Hm _ _ _ E).
Qed.

Lemma adds_try_except {A} P (m : Py A) (h : Exn -> Py A) :
  adds P m -> (forall e, adds P (h e)) -> adds P (try_except m h).
Proof.
  intros Hm Hh w r w' Hb. unfold try_except in Hb.
  destruct (m w) as [[a|e] w1] eqn:E.
  - injection Hb as <- <-. exact (Hm _ _ _ E).
  - destruct (Hm _ _ _ E) as (ev1 & V1 & P1).
    destruct (Hh _ _ _ _ Hb) as (ev2 & V2 & P2).
    exists (ev1 ++ ev2). split; [by rewrite V2, V1, app_assoc|].
    by apply Forall_app.
Qed.

Lemma adds_gather {A} P (tasks : list (Py A)) :
  Forall (adds P) tasks -> adds P (gather tasks).
Proof.
  induction 1 as [|t ts Ht _ IH]; intros w r w'; simpl.
  - intros [= <- <-]. exists []. by rewrite app_nil_r.
  - destruct (t w) as [r0 w1] eqn:E. apply Ht in E as (ev1 & V1 & P1).
    destruct (gather ts w1) as [[rs|e] w2] eqn:E2;
      apply IH in E2 as (ev2 & V2 & P2); intros [= <- <-];
      (exists (ev1 ++ ev2); split; [by rewrite V2, V1, app_assoc|];
       by apply Forall_app).
Qed.

Lemma adds_put_tokens P m : adds P (put_tokens m).
Proof. intros w r w' [= <- <-]. exists []. by rewrite app_nil_r. Qed.

Lemma keeps_gather {A} (tasks : list (Py A)) :
  Forall keeps tasks -> keeps (gather tasks).
Proof.
  induction 1 as [|t ts Ht _ IH]; intros w r w'; simpl.
  - intros [= <- <-]. split; [done|]. exists []. by rewrite app_nil_r.
  - destruct (t w) as [r0 w1] eqn:E. apply Ht in E as (T1 & ev1 & V1).
    destruct (gather ts w1) as [[rs|e] w2] eqn:E2;
      apply IH in E2 as (T2 & ev2 & V2); intros [= <- <-];
      (split; [congruence|]; exists (ev1 ++ ev2);
       by rewrite V2, V1, app_assoc).
Qed.

(** Structural proofs of [silent] and [adds] goals, as [keeps_tac]. *)
Ltac silent_tac :=
  repeat first
    [ apply silent_bind; [|intros]
    | apply silent_try_except; [|intros]
    | solve [ eauto with py ]
    | progress cbv beta zeta
    | case_match ].

Ltac adds_tac :=
  repeat first
    [ assumption
    | apply adds_bind; [|intros]
    | apply adds_try_except; [|intros]
    | solve [ apply adds_silent; eauto with py ]
    | solve [ apply adds_emit; simpl; eauto ]
    | solve [ apply adds_put_tokens ]
    | solve [ eauto with py ]
    | progress cbv beta zeta
    | case_match ].

Section Endpoints.
Context `{CryptoLib}.
Variable env : Env.

Lemma silent_get_client_with_validation cid segment :
  silent (get_client_with_validation env cid segment).
Proof. unfold get_client_with_validation. silent_tac. Qed.

Lemma adds_http_post (P : Event -> Prop) u b p :
  P (EvHttpPost u b p) -> adds P (http_post env u b p).
Proof. intros HP. unfold http_post. adds_tac. Qed.

Lemma adds_decrypt (P : Event -> Prop) c :
  P (EvDecrypt c) -> adds P (decrypt env c).
Proof. intros HP. unfold decrypt. adds_tac. Qed.

Lemma adds_make_authenticated_request (P : Event -> Prop) endpoint t p :
  P (request_event env endpoint t p) ->
  adds P (_make_authenticated_request env endpoint t p).
Proof.
  intros HP w r w' Hrun.
  pose proof (GatewayProps.make_authenticated_request_world env endpoint t p w) as Hw.
  rewrite Hrun in Hw. simpl in Hw. subst w'. simpl.
  eexists. split; [done|]. by constructor.
Qed.

Lemma adds_place_order (P : Event -> Prop) t o c :
  (forall p, P (request_event env "/rest/secure/v1/placeorder" t p)) ->
  adds P (place_order env t o c).
Proof.
  intros HP. unfold place_order.
  apply adds_bind; [adds_tac|intros].
  cbv zeta. apply adds_bind; [|intros; adds_tac].
  by apply adds_make_authenticated_request.
Qed.

Lemma silent_row_read : silent (row_read env).
Proof. unfold row_read. silent_tac. Qed.

Lemma keeps_db_commit : keeps (db_commit env).
Proof. unfold db_commit. keeps_tac. Qed.

Lemma adds_db_commit (P : Event -> Prop) : P EvDbCommit -> adds P (db_commit env).
Proof. intros HP. unfold db_commit. adds_tac. Qed.

End Endpoints.
End TraceLogic.

(** ** Batches *)

Module BatchMore.
Import Security Wrapper Orders PyLogic Samples Vocabulary Schemas BatchProps
  TraceLogic.

Lemma filter_success_split (l : list OrderExecutionResult) :
  (length (filter (fun r => success r = true) l)
   + length (filter (fun r => success r = false) l) = length l)%nat.
Proof.
  induction l as [|x l IH]; [done|]. rewrite !filter_cons.
  destruct (success x); simpl; lia.
Qed.

Section Batch.
Context `{CryptoLib}.
Variable env : Env.


(** The outcome of one order, whatever happens to it. *)
Lemma execute_single_order_result cid co request tid w r w' :
  execute_single_order env cid co request tid w = (r, w') ->
  exists outcome,
    r = Ok outcome
    /\ r_client_id outcome = cid
    /\ r_quantity outcome = co_quantity co
    /\ (success outcome = false -> order_id outcome = None)
    /\ (dry_run request = true -> success outcome = true ->
        order_id outcome = Some "DRY_RUN").
Proof.
  intros Hrun.
  destruct (execute_single_order_outcome env cid co request tid w)
    as (outcome & w2 & Hrun' & Hbody).
  rewrite Hrun in Hrun'. injection Hrun' as -> ->.
  exists outcome. split; [done|].
  destruct (execute_single_order_body _ _ _ _ _ _ _) as [[r|e] w1] eqn:Hb.
  2:{ destruct Hbody as [-> _]. by split_and!. }
  destruct Hbody as [-> _].
  unfold execute_single_order_body in Hb.
  unfold bind at 1 in Hb.
  destruct (get_client_with_validation _ _ _ _) as [[client|e] w3]; [|done].
  unfold bind at 1 in Hb.
  destruct (lift _ w3) as [[oc|e] w4]; [|done].
  destruct (dry_run request).
  - unfold bind, clock, ret in Hb. injection Hb as <- <-. by split_and!.
  - unfold bind at 1 in Hb.
    destruct (place_order _ _ _ _ _) as [[oid|e] w5]; [|done].
    unfold bind at 1 in Hb.
    destruct (emit _ w5) as [[u|e] w6]; [|done].
    unfold bind at 1 in Hb.
    destruct (db_commit _ w6) as [[u'|e] w7]; [|done].
    unfold bind at 1, clock in Hb. unfold bind at 1 in Hb.
    destruct (row_read _ _) as [[u''|e] w8]; [|done].
    unfold ret in Hb. injection Hb as <- <-. by split_and!.
Qed.

Lemma silent_execute_single_order cid co request tid :
  dry_run request = true ->
  silent (execute_single_order env cid co request tid).
Proof.
  intros Hdry. unfold execute_single_order.
  apply silent_bind; [silent_tac|intros start].
  apply silent_try_except; [|intros; silent_tac].
  unfold execute_single_order_body. rewrite Hdry.
  apply silent_bind; [apply silent_get_client_with_validation|intros].
  silent_tac.
Qed.

Lemma keeps_execute_single_order cid co request tid :
  keeps (execute_single_order env cid co request tid).
Proof.
  unfold execute_single_order.
  apply keeps_bind; [keeps_tac|intros start].
  apply keeps_try_except; [|intros; keeps_tac].
  unfold execute_single_order_body.
  apply keeps_bind;
    [apply silent_keeps, silent_get_client_with_validation|intros].
  apply keeps_bind; [keeps_tac|intros].
  cbv zeta. case_match; [keeps_tac|].
  apply keeps_bind; [apply keeps_place_order|intros].
  apply keeps_bind; [keeps_tac|intros].
  apply keeps_bind; [apply keeps_db_commit|intros].
  apply keeps_bind; [keeps_tac|intros].
  apply keeps_bind; [apply silent_keeps, silent_row_read|intros]. keeps_tac.
Qed.

Lemma adds_execute_single_order cid co request tid :
  adds (batch_event env) (execute_single_order env cid co request tid).
Proof.
  unfold execute_single_order.
  apply adds_bind; [adds_tac|intros start].
  apply adds_try_except; [|intros; adds_tac].
  unfold execute_single_order_body.
  apply adds_bind;
    [apply adds_silent, silent_get_client_with_validation|intros].
  apply adds_bind; [adds_tac|intros].
  cbv zeta. case_match; [adds_tac|].
  apply adds_bind; [apply adds_place_order; intros; by split|intros].
  apply adds_bind; [adds_tac|intros].
  apply adds_bind; [by apply adds_db_commit|intros].
  apply adds_bind; [adds_tac|intros].
  apply adds_bind; [apply adds_silent, silent_row_read|intros]. adds_tac.
Qed.

Lemma Forall2_right {A B} (P : A -> B -> Prop) (Q : B -> Prop) l k :
  Forall2 P l k -> (forall x y, x ∈ l -> P x y -> Q y) -> Forall Q k.
Proof.
  induction 1 as [|x y l k Hxy _ IH]; intros HQ; constructor.
  - eapply HQ; [apply list_elem_of_here|done].
  - apply IH. intros x' y' Hx'. apply HQ. by apply list_elem_of_further.
Qed.

Lemma gather_map_Forall2 {A B} (f : A -> Py B) (Q : A -> Res B -> Prop)
    (l : list A) (w : World) (rs : list (Res B)) (w' : World) :
  (forall x w r w', f x w = (r, w') -> Q x r) ->
  gather (map f l) w = (Ok rs, w') -> Forall2 Q l rs.
Proof.
  intros Hf. revert w rs. induction l as [|x l IH]; intros w rs; simpl.
  - intros [= <- <-]. constructor.
  - destruct (f x w) as [r w1] eqn:E.
    destruct (gather (map f l) w1) as [[rs'|e] w2] eqn:E2; [|done].
    intros [= <- <-]. constructor; [by eapply Hf|by eapply IH].
Qed.

(** the two ways [execute_batch_orders] can go: it raises with the world
    untouched, or it gathers the tasks of the valid orders and reports on
    their results *)
Lemma execute_batch_orders_cases request w r w' :
  execute_batch_orders env request w = (r, w') ->
  (w' = w /\ exists e, r = Raise e)
  \/ exists rs response,
       r = Ok response
       /\ valid_orders request <> []
       /\ gather (map (task env request) (valid_orders request)) w = (Ok rs, w')
       /\ results response
          = zip_with (process_result request) (valid_orders request) rs
       /\ total_orders (summary response) = len (valid_orders request)
       /\ successful_orders (summary response)
          = len (filter (fun r => success r = true) (results response))
       /\ failed_orders (summary response)
          = len (filter (fun r => success r = false) (results response))
       /\ total_quantity (summary response)
          = sum_Z (map r_quantity
                     (filter (fun r => success r = true) (results response)))
       /\ b_success response = (0 <? successful_orders (summary response)).
Proof.
  unfold execute_batch_orders. unfold bind at 1, clock, try_except. simpl.
  destruct (batch_precondition request) as [e|] eqn:Hpre.
  { intros Hrun. left. destruct e; injection Hrun as <- <-; eauto. }
  destruct (valid_orders request) as [|co0 rest] eqn:Hvalid.
  { intros [= <- <-]. left. eauto. }
  destruct (max_concurrent request <? 0).
  { intros [= <- <-]. left. eauto. }
  rewrite <- Hvalid. fold (task env request).
  destruct (gather_total (map (task env request) (valid_orders request)) w)
    as (rs & Hrs & Hlen).
  unfold bind at 1.
  destruct (gather (map (task env request) (valid_orders request)) w)
    as [[rs'|e] w1] eqn:Hg; simpl in Hrs; [|done].
  injection Hrs as ->.
  unfold bind, clock, ret. intros [= <- <-].
  right. eexists rs, _. split; [reflexivity|]. simpl.
  split; [by rewrite Hvalid|]. by split_and!.
Qed.

(** every gathered result of a batch is the outcome of its order *)
Lemma batch_results request w rs w' :
  gather (map (task env request) (valid_orders request)) w = (Ok rs, w') ->
  Forall2 (fun co o =>
             r_client_id o = co_client_id co
             /\ r_quantity o = co_quantity co
             /\ (success o = false -> order_id o = None)
             /\ (dry_run request = true -> success o = true ->
                 order_id o = Some "DRY_RUN"))
    (valid_orders request)
    (zip_with (process_result request) (valid_orders request) rs).
Proof.
  intros Hg.
  eapply (gather_map_Forall2 _
            (fun co r => exists o, r = Ok o
               /\ r_client_id o = co_client_id co
               /\ r_quantity o = co_quantity co
               /\ (success o = false -> order_id o = None)
               /\ (dry_run request = true -> success o = true ->
                   order_id o = Some "DRY_RUN"))) in Hg.
  2:{ intros co w0 r w0' Hrun. by eapply execute_single_order_result. }
  induction Hg as [|co r l rs' (o & -> & Ho) _ IH]; simpl; by constructor.
Qed.

(** X17. A batch with [dry_run] set changes nothing: no request is sent, no
    credential is decrypted, nothing is written to the database, the
    session cache stays as it is. Each outcome it reports carries the order
    id "DRY_RUN" when it succeeded and none when it failed. *)
Theorem dry_run_batch_is_silent (request : BatchOrderRequest) (w w' : World)
    (r : Res BatchOrderResponse) :
  dry_run request = true ->
  execute_batch_orders env request w = (r, w') ->
  w' = w
  /\ forall response, r = Ok response ->
       Forall (fun o => order_id o
                        = if success o then Some "DRY_RUN" else None)
         (results response).
Proof.
  intros Hdry Hrun.
  destruct (execute_batch_orders_cases _ _ _ _ Hrun)
    as [(-> & e & ->) | (rs & response & -> & _ & Hg & Hres & _)]; [done|].
  split.
  - eapply silent_gather; [|exact Hg].
    apply Forall_forall. intros t (co & -> & _)%list_elem_of_fmap.
    by apply silent_execute_single_order.
  - intros ? [= <-]. rewrite Hres.
    apply batch_results in Hg.
    eapply Forall2_right; [exact Hg|].
    intros co o _ (_ & _ & Hf & Hd). simpl.
    destruct (success o); [by apply Hd|by apply Hf].
Qed.

(** X18. A batch never authenticates: whatever its orders and their
    outcomes, the session cache is unchanged, no credential is decrypted,
    and the only requests it sends go to the place-order endpoint, each
    under a bearer token that is the empty string. *)
Theorem batch_never_authenticates (request : BatchOrderRequest) (w w' : World)
    (r : Res BatchOrderResponse) :
  execute_batch_orders env request w = (r, w') ->
  auth_tokens w' = auth_tokens w
  /\ exists evs, trace w' = trace w ++ evs /\ Forall (batch_event env) evs.
Proof.
  intros Hrun.
  destruct (execute_batch_orders_cases _ _ _ _ Hrun)
    as [(-> & _) | (rs & response & -> & _ & Hg & _)].
  { split; [done|]. exists []. by rewrite app_nil_r. }
  split.
  - eapply keeps_gather; [|exact Hg].
    apply Forall_forall. intros t (co & -> & _)%list_elem_of_fmap.
    apply keeps_execute_single_order.
  - eapply adds_gather; [|exact Hg].
    apply Forall_forall. intros t (co & -> & _)%list_elem_of_fmap.
    apply adds_execute_single_order.
Qed.

Lemma sum_at_least_count (l : list OrderExecutionResult) :
  Forall (fun o => 0 < r_quantity o) l -> len l <= sum_Z (map r_quantity l).
Proof.
  unfold len. induction 1 as [|o l Ho _ IH]; simpl; [done|].
  unfold sum_Z in *. lia.
Qed.

(** X19. The summary of a batch that returns: the total counts the
    outcomes and is positive, successes and failures add up to the total,
    the batch reports success exactly when one order succeeded, and the
    quantity filled is at least the number of successes. *)
Theorem batch_summary_counts (request : BatchOrderRequest) (w w' : World)
    (response : BatchOrderResponse) :
  execute_batch_orders env request w = (Ok response, w') ->
  let s := summary response in
  total_orders s = len (results response)
  /\ 0 < total_orders s
  /\ successful_orders s + failed_orders s = total_orders s
  /\ (b_success response = true <-> 0 < successful_orders s)
  /\ successful_orders s <= total_quantity s.
Proof.
  intros Hrun.
  destruct (execute_batch_orders_cases _ _ _ _ Hrun)
    as [(_ & e & [=]) | (rs & ? & [= <-] & Hne & Hg & Hres & Ht & Hs & Hf & Hq & Hb)].
  simpl. rewrite Hb, Ht, Hs, Hf, Hq.
  apply batch_results in Hg. rewrite <- Hres in Hg.
  pose proof (Forall2_length _ _ _ Hg) as Hlen.
  pose proof (filter_success_split (results response)) as Hsplit.
  unfold len in *.
  split_and!.
  - lia.
  - destruct (valid_orders request); [done|simpl; lia].
  - lia.
  - apply Z.ltb_lt.
  - apply (sum_at_least_count (filter (fun r => success r = true)
                                 (results response))).
    apply Forall_forall. intros o [_ Ho]%list_elem_of_filter. revert o Ho.
    apply Forall_forall. eapply Forall2_right; [exact Hg|].
    intros co o Hco (_ & -> & _). simpl.
    by apply list_elem_of_filter in Hco as [Hpos _].
Qed.

End Batch.
(** X17 on a run: a dry run of two orders, one for an unknown client. *)
Lemma dry_run_batch_is_silent_witness :
  exists response,
    execute_batch_orders (sample_env 0)
      (market_batch [order_for 1 10; order_for 2 5] true 5) empty_world
    = (Ok response, empty_world).
Proof.
  destruct (execute_batch_orders (sample_env 0)
              (market_batch [order_for 1 10; order_for 2 5] true 5) empty_world)
    as [[response|e] w'] eqn:Hrun; [|vm_compute in Hrun; discriminate].
  destruct (dry_run_batch_is_silent (sample_env 0)
              (market_batch [order_for 1 10; order_for 2 5] true 5) _ _ _
              eq_refl Hrun) as [-> _].
  by exists response.
Defined.

(** X18 on a run: a live batch leaves the cache empty. *)
Lemma batch_never_authenticates_witness :
  auth_tokens
    (snd (execute_batch_orders (sample_env 0)
            (market_batch [order_for 1 10; order_for 2 5] false 5) empty_world))
  = auth_tokens empty_world.
Proof.
  destruct (batch_never_authenticates (sample_env 0)
              (market_batch [order_for 1 10; order_for 2 5] false 5) empty_world
              _ _ (surjective_pairing _)) as [Htok _].
  exact Htok.
Defined.

(** X19 on a run: one order placed, one refused. *)
Lemma batch_summary_counts_witness :
  exists response w',
    execute_batch_orders (sample_env 0)
      (market_batch [order_for 1 10; order_for 2 5] false 5) empty_world
    = (Ok response, w')
    /\ successful_orders (summary response) + failed_orders (summary response)
       = total_orders (summary response).
Proof.
  destruct (execute_batch_orders (sample_env 0)
              (market_batch [order_for 1 10; order_for 2 5] false 5) empty_world)
    as [[response|e] w'] eqn:Hrun; [|vm_compute in Hrun; discriminate].
  pose proof (batch_summary_counts (sample_env 0)
                (market_batch [order_for 1 10; order_for 2 5] false 5) _ _ _
                Hrun) as Hs.
  cbv zeta in Hs. destruct Hs as (_ & _ & Hsum & _).
  exists response, w'. split; [reflexivity|exact Hsum].
Defined.

End BatchMore.

(** ** Exits *)

Module ExitMore.
Import Security Wrapper Orders PyLogic Samples Vocabulary Schemas ExitProps
  TraceLogic StringFacts.

Section Exit.
Context `{CryptoLib}.
Variable env : Env.

(** X20. A client [get_client_with_validation] returns is the row the
    database holds under that id and is active; for the segments
    "interactive" and "commodity" its four stored credentials of the segment
    are all present and not empty. The check itself changes nothing. *)
Theorem validated_client_is_usable (client_id : Z) (segment : string)
    (w w' : World) (client : Client) :
  get_client_with_validation env client_id segment w = (Ok client, w') ->
  w' = w
  /\ env_db_client env (trace w) client_id = Ok (Some client)
  /\ is_active client = true
  /\ (segment = "interactive" \/ segment = "commodity" ->
      exists ek es eu ep,
        segment_fields client segment = Ok [Some ek; Some es; Some eu; Some ep]
        /\ ek <> "" /\ es <> "" /\ eu <> "" /\ ep <> "").
Proof.
  intros Hrun.
  split; [by eapply silent_get_client_with_validation|].
  cbv [get_client_with_validation bind get_trace lift] in Hrun.
  destruct (env_db_client env (trace w) client_id) as [[c|]|e]; try done.
  destruct (is_active c) eqn:Hact; cbn [negb] in Hrun; [|done].
  assert (Hall : forall a b c d : option string,
            forallb opt_str_truthy [a; b; c; d] = true ->
            exists ek es eu ep,
              [a; b; c; d] = [Some ek; Some es; Some eu; Some ep]
              /\ ek <> "" /\ es <> "" /\ eu <> "" /\ ep <> "").
  { intros [[|]|] [[|]|] [[|]|] [[|]|]; simpl; try done.
    intros _. eexists _, _, _, _. by split_and!. }
  unfold segment_fields.
  destruct (String.eqb_spec segment "interactive") as [->|Hi].
  - destruct (forallb _ _) eqn:Hf; cbn [negb] in Hrun; [|done].
    injection Hrun as <- <-. split_and!; try done. intros _.
    destruct (Hall _ _ _ _ Hf) as (ek & es & eu & ep & -> & ?). eauto 10.
  - destruct (String.eqb_spec segment "commodity") as [->|Hc].
    + destruct (forallb _ _) eqn:Hf; cbn [negb] in Hrun; [|done].
      injection Hrun as <- <-. split_and!; try done. intros _.
      destruct (Hall _ _ _ _ Hf) as (ek & es & eu & ep & -> & ?). eauto 10.
    + injection Hrun as <- <-. split_and!; try done. by intros [?|?].
Qed.

(** a comprehension whose test never raises does not raise *)
Lemma filter_res_total {A} (p : A -> Res bool) (l : list A) :
  Forall (fun x => is_ok (p x) = true) l -> is_ok (filter_res p l) = true.
Proof.
  induction 1 as [|x l Hx _ IH]; [done|]. simpl.
  destruct (p x); [|done]. by destruct (filter_res p l).
Qed.

(** X21. [get_client_positions_for_token] never raises. When the
    authentication fails, or the request for the positions, it returns the
    empty list. Otherwise it returns the positions whose token is the
    token asked for, compared as text without surrounding whitespace, all
    of them and in the order received; or the empty list, if one of the
    entries received is not a JSON object. *)
Theorem positions_for_token_never_raises (client : Client)
    (token_mofsl_id : string) (segment : string) (w : World) :
  match authenticate_client env client segment false w with
  | (Raise _, w1) =>
      get_client_positions_for_token env client token_mofsl_id segment w
      = (Ok [], w1)
  | (Ok auth, w1) =>
      match get_positions env (token auth) (client_code client) w1 with
      | (Raise _, w2) =>
          get_client_positions_for_token env client token_mofsl_id segment w
          = (Ok [], w2)
      | (Ok all_positions, w2) =>
          exists l,
            get_client_positions_for_token env client token_mofsl_id segment w
            = (Ok l, w2)
            /\ (Forall is_dict all_positions ->
                l = filter (fun pos => on_token token_mofsl_id pos) all_positions)
            /\ (~ Forall is_dict all_positions -> l = [])
            /\ Forall (fun pos =>
                         exists t, get pos "token" (JStr "") = Ok t
                                   /\ strip (str t) = strip token_mofsl_id) l
      end
  end.
Proof.
  destruct (authenticate_client env client segment false w)
    as [[auth|e] w1] eqn:Hauth.
  2:{ unfold get_client_positions_for_token, try_except, bind.
      by rewrite Hauth. }
  destruct (get_positions env (token auth) (client_code client) w1)
    as [[all|e] w2] eqn:Hget.
  2:{ unfold get_client_positions_for_token, try_except, bind.
      by rewrite Hauth, Hget. }
  set (test := fun pos : JVal =>
                 match get pos "token" (JStr "") with
                 | Raise e => Raise e
                 | Ok t => Ok (String.eqb (strip (str t)) (strip token_mofsl_id))
                 end).
  assert (Hrun :
    get_client_positions_for_token env client token_mofsl_id segment w
    = (match filter_res test all with Ok l => Ok l | Raise _ => Ok [] end, w2)).
  { unfold get_client_positions_for_token, try_except, bind, lift.
    rewrite Hauth, Hget. fold test. by destruct (filter_res test all). }
  rewrite Hrun. clear Hrun.
  assert (Htest : forall pos, ok_true (test pos) = on_token token_mofsl_id pos).
  { intros pos. unfold test, on_token.
    by destruct (get pos "token" (JStr "")). }
  assert (Hdict : forall pos, is_ok (test pos) = true <-> is_dict pos).
  { intros pos. unfold test, get, is_dict.
    destruct pos; simpl; split; try done; try (by intros [? ?]); eauto. }
  destruct (filter_res test all) as [kept|e] eqn:Hf.
  - exists kept. split; [done|].
    apply filter_res_ok in Hf as [Hall ->]. split_and!.
    + intros _. apply list_filter_iff. intros pos. by rewrite Htest.
    + intros Hn. exfalso. apply Hn.
      eapply Forall_impl; [exact Hall|]. intros pos. apply Hdict.
    + apply Forall_forall. intros pos [Hpos _]%list_elem_of_filter.
      unfold test in Hpos.
      destruct (get pos "token" (JStr "")) as [t|e]; [|done].
      exists t. split; [done|]. simpl in Hpos.
      by apply Is_true_true, String.eqb_eq in Hpos.
  - exists []. split; [done|]. split_and!; try done.
    intros Hall. exfalso.
    assert (is_ok (filter_res test all) = true) as Hok; [|by rewrite Hf in Hok].
    apply filter_res_total. eapply Forall_impl; [exact Hall|].
    intros pos. apply Hdict.
Qed.

(** The loop over the positions of a client always ends, each position
    having added one to the count, or one error, or nothing. *)
Lemma exit_loop_total request tokid client auth positions n errs w :
  exists n' more w',
    exit_loop env request tokid client auth positions n errs w
    = (Ok (n', errs ++ more), w')
    /\ n <= n'
    /\ n' - n + len more <= len positions.
Proof.
  unfold len.
  revert n errs w. induction positions as [|pos l IH]; intros n errs w; simpl.
  - exists n, [], w. rewrite app_nil_r. split; [done|]. simpl. lia.
  - unfold bind at 1, try_except, bind at 1.
    destruct (exit_position _ _ _ _ _ _ _) as [[counted|e] w1]; simpl.
    + destruct (IH (if counted then n + 1 else n) errs w1)
        as (n' & more & w' & -> & Hle & Hsum).
      exists n', more, w'. split; [done|]. destruct counted; lia.
    + destruct (IH n (errs ++ ["Position exit failed: " +:+ str_exn e]) w1)
        as (n' & more & w' & -> & Hle & Hsum).
      exists n', (("Position exit failed: " +:+ str_exn e) :: more), w'.
      rewrite <- app_assoc. split; [done|]. simpl. lia.
Qed.

(** X22. [execute_client_exit] raises in one case only: when the row of
    the client cannot be read in the [except] block, as after a commit that
    failed, and then with the error of that read; the caller reports such
    a task without the name of the client. Every other failure ends in a
    result for the client. A result names the client and the number of
    positions given; the positions exited are between zero and that
    number; [success] holds exactly when there is no error message. *)
Theorem client_exit_result (request : ExitOrderRequest) (tokid : string)
    (client : Client) (positions : list JVal) (w : World) :
  let '(r, w') := execute_client_exit env request tokid (client, positions) w in
  (forall e, r = Raise e <-> env_db_row env (trace w') = Some e)
  /\ forall res, r = Ok res ->
       e_client_id res = id client
       /\ e_client_code res = client_code client
       /\ total_positions res = Some (len positions)
       /\ 0 <= positions_exited res <= len positions
       /\ (e_success res = true <-> e_error_message res = None).
Proof.
  unfold execute_client_exit, try_except.
  assert (Hlen : 0 <= len positions) by (unfold len; lia).
  assert (Hread : forall w0,
            row_read env w0
            = (match env_db_row env (trace w0) with
               | Some e => Raise e
               | None => Ok tt
               end, w0)).
  { intros w0. unfold row_read, bind, get_trace, raise, ret. simpl.
    by destruct (env_db_row env (trace w0)). }
  destruct (bind _ _ w) as [[res|e] wb] eqn:Hbody.
  - (* the [try] block returned: its last read of the row went through *)
    unfold bind at 1 in Hbody. rewrite Hread in Hbody.
    destruct (env_db_row env (trace w)); [done|].
    unfold bind at 1 in Hbody.
    destruct (authenticate_client _ _ _ _ _) as [[tok|e] w1]; [|done].
    unfold bind at 1 in Hbody.
    destruct (exit_loop_total request tokid client tok positions 0 [] w1)
      as (n' & more & w2 & Hloop & Hle & Hsum).
    rewrite Hloop in Hbody. simpl in Hbody.
    unfold bind at 1 in Hbody.
    destruct (db_commit env w2) as [[u|e] w3]; [|done].
    unfold bind at 1 in Hbody. rewrite Hread in Hbody.
    destruct (env_db_row env (trace w3)) eqn:Hrow; [done|].
    unfold ret in Hbody. injection Hbody as <- <-. simpl.
    assert (0 <= len more) by (unfold len; lia).
    split; [intros e; by rewrite Hrow|].
    intros ? [= <-]. simpl. split_and!; try done; try lia.
    rewrite bool_decide_eq_true. by destruct more.
  - (* the [except] block: the read of the row decides *)
    unfold bind. rewrite Hread.
    destruct (env_db_row env (trace wb)) as [e'|] eqn:Hrow; simpl.
    + split; [|done]. intros e0. rewrite Hrow. split; by intros [= ->].
    + unfold ret. split; [intros e0; by rewrite Hrow|].
      intros ? [= <-]. simpl. split_and!; (done || lia).
Qed.

(** When the broker answers no request, the positions of a client read as
    none. *)
Lemma positions_when_down client tokid segment w :
  (forall tr url bearer payload, is_ok (env_http env tr url bearer payload) = false) ->
  fst (get_client_positions_for_token env client tokid segment w) = Ok [].
Proof.
  intros Hdown.
  unfold get_client_positions_for_token, try_except.
  destruct (bind _ _ w) as [[l|e] w'] eqn:Hbody; [|done].
  exfalso. unfold bind at 1 in Hbody.
  destruct (authenticate_client _ _ _ _ _) as [[tok|e] w1]; [|done].
  unfold bind at 1 in Hbody.
  destruct (get_positions _ _ _ _) as [[all|e] w2] eqn:Hpos; [|done].
  clear Hbody.
  unfold get_positions, bind at 1, _make_authenticated_request, try_except,
    bind at 1, http_post, bind, get_trace, emit, lift in Hpos.
  simpl in Hpos.
  specialize (Hdown (trace w1)
                (env_base_url env +:+ "/rest/report/v1/getposition")
                (Some ("Bearer " +:+ str (token tok)))
                (JObj [("clientcode", JStr (client_code client))])).
  destruct (env_http env _ _ _ _) as [resp|e]; [done|].
  by destruct e.
Qed.

Lemma collect_exits_when_down request tokid clients w :
  (forall tr url bearer payload, is_ok (env_http env tr url bearer payload) = false) ->
  fst (collect_exits env request tokid clients w) = Ok ([], []).
Proof.
  intros Hdown. revert w. induction clients as [|c l IH]; intros w; [done|].
  simpl. unfold bind at 1, try_except, bind at 1.
  pose proof (positions_when_down c tokid (x_segment request) w Hdown) as Hp.
  destruct (get_client_positions_for_token _ _ _ _ _) as [r w1].
  simpl in Hp. subst r. simpl.
  unfold bind at 1. specialize (IH w1).
  destruct (collect_exits _ _ _ _ _) as [[acc|e] w2]; simpl in IH; [|done].
  by injection IH as ->.
Qed.

(** X23. When the broker answers no request at all, [exit_all_positions]
    still reports success: every failed read of positions counts as "no
    positions", so the answer is the one for a token nobody holds, with the
    number of clients seen and no result. *)
Theorem exit_reports_nothing_when_down (tokid : string)
    (request : ExitOrderRequest) (w : World) (clients : list Client) :
  (forall tr url bearer payload, is_ok (env_http env tr url bearer payload) = false) ->
  env_db_clients env (trace w)
    match client_filter request with
    | Some (_ :: _ as f) => Some f
    | _ => None
    end = Ok clients ->
  clients <> [] ->
  fst (exit_all_positions env tokid request w)
  = Ok {| x_success := true;
          x_message := "No positions found to exit for the specified token";
          clients_processed := len clients;
          clients_with_positions := 0;
          total_positions_exited := 0;
          x_results := [] |}.
Proof.
  intros Hdown Hdb Hne.
  unfold exit_all_positions, try_except. unfold bind at 1, get_trace.
  unfold bind at 1, lift. rewrite Hdb.
  destruct clients as [|c l]; [done|].
  unfold bind at 1.
  pose proof (collect_exits_when_down request tokid (c :: l) w Hdown) as Hc.
  destruct (collect_exits _ _ _ _ _) as [r w1]. simpl in Hc. subst r. done.
Qed.

Lemma not_place_order_url (path : string) :
  path <> "/rest/secure/v1/placeorder" ->
  forall bearer payload,
    places_no_order env (EvHttpPost (env_base_url env +:+ path) bearer payload).
Proof. intros Hne bearer payload Heq. by apply string_app_inv_head in Heq. Qed.

Lemma adds_authenticate_client client segment force :
  adds (places_no_order env) (authenticate_client env client segment force).
Proof.
  assert (Hpost : forall p, adds (places_no_order env)
                              (http_post env (auth_url env) None p)).
  { intros p. apply adds_http_post. by apply not_place_order_url. }
  assert (Hdec : forall c, adds (places_no_order env) (decrypt env c)).
  { intros c. by apply adds_decrypt. }
  assert (Hfresh : adds (places_no_order env)
                     (authenticate_fresh env client segment)).
  { unfold authenticate_fresh.
    apply adds_bind; [unfold _decrypt_client_credentials; adds_tac|intros].
    apply adds_bind; [unfold _prepare_auth_payload; adds_tac|intros].
    apply adds_bind; [apply Hpost|intros]. adds_tac. }
  clear Hpost Hdec.
  unfold authenticate_client. adds_tac.
Qed.

Lemma adds_get_positions t c :
  adds (places_no_order env) (get_positions env t c).
Proof.
  unfold get_positions. cbv zeta.
  apply adds_bind; [|intros; adds_tac].
  apply adds_make_authenticated_request. by apply not_place_order_url.
Qed.

Lemma adds_collect_exits request tokid clients :
  adds (places_no_order env) (collect_exits env request tokid clients).
Proof.
  induction clients as [|c l IH]; simpl; [adds_tac|].
  apply adds_bind; [|intros r; apply adds_bind; [exact IH|intros; adds_tac]].
  apply adds_try_except; [|intros; adds_tac].
  apply adds_bind; [|intros; adds_tac].
  unfold get_client_positions_for_token.
  apply adds_try_except; [|intros; adds_tac].
  apply adds_bind; [apply adds_authenticate_client|intros].
  apply adds_bind; [apply adds_get_positions|intros]. adds_tac.
Qed.

Lemma silent_exit_loop_dry request tokid client auth positions n errs :
  x_dry_run request = true ->
  silent (exit_loop env request tokid client auth positions n errs).
Proof.
  intros Hdry. revert n errs.
  induction positions as [|pos l IH]; intros n errs; simpl; [silent_tac|].
  apply silent_bind; [|intros [counted|e]; apply IH].
  apply silent_try_except; [|intros; silent_tac].
  unfold exit_position. rewrite Hdry. silent_tac.
Qed.

(** X24. An exit with [dry_run] set sends no request to the place-order
    endpoint and records no order in the database, whatever the positions
    are and however the requests it does send (logins, position reads)
    turn out. *)
Theorem dry_run_exit_places_no_order (tokid : string)
    (request : ExitOrderRequest) (w w' : World) (r : Res ExitResponse) :
  x_dry_run request = true ->
  exit_all_positions env tokid request w = (r, w') ->
  exists evs, trace w' = trace w ++ evs /\ Forall (places_no_order env) evs.
Proof.
  intros Hdry. revert w r w'. fold (adds (places_no_order env)
                                      (exit_all_positions env tokid request)).
  unfold exit_all_positions.
  apply adds_try_except; [|intros; adds_tac].
  apply adds_bind; [adds_tac|intros tr].
  apply adds_bind; [adds_tac|intros clients].
  destruct clients as [|c l]; [adds_tac|].
  apply adds_bind; [apply adds_collect_exits|intros [to_exit early]].
  destruct to_exit as [|cp rest]; [adds_tac|].
  apply adds_bind; [|intros; adds_tac].
  apply adds_gather, Forall_forall.
  intros t ([client positions] & -> & _)%list_elem_of_fmap.
  unfold execute_client_exit.
  assert (Hrow : adds (places_no_order env) (row_read env))
    by apply adds_silent, silent_row_read.
  apply adds_try_except; [|intros; adds_tac].
  apply adds_bind; [exact Hrow|intros].
  apply adds_bind; [apply adds_authenticate_client|intros tok].
  apply adds_bind;
    [by apply adds_silent, silent_exit_loop_dry|intros [count errs]].
  apply adds_bind; [by apply adds_db_commit|intros]. adds_tac.
Qed.

End Exit.

(** After a commit that failed the row of the client cannot be read: the
    order has gone to the broker, and the task ends in the error of the
    read. *)
Example client_exit_after_failed_commit :
  let '(r, w') :=
    execute_client_exit (failing_db_env 0) (market_exit 5 false) "2885"
      (sample_client, [position 50]) (cached_world 100) in
  r = Raise (DatabaseError "transaction has been rolled back")
  /\ length (filter (fun e => is_upstream e) (trace w')) = 1%nat.
Proof. vm_compute. by split. Qed.

(** X20 on a run: the sample client for the interactive segment. *)
Lemma validated_client_is_usable_witness :
  env_db_client (sample_env 0) (trace empty_world) 1 = Ok (Some sample_client)
  /\ is_active sample_client = true.
Proof.
  destruct (validated_client_is_usable (sample_env 0) 1 "interactive"
              empty_world empty_world sample_client) as (_ & Hrow & Hact & _).
  - vm_compute. reflexivity.
  - split; [exact Hrow|exact Hact].
Defined.

(** X23 on a run: one client in the database, no broker. *)
Lemma exit_reports_nothing_when_down_witness :
  fst (exit_all_positions (down_env 0) "2885" (market_exit 5 false) empty_world)
  = Ok {| x_success := true;
          x_message := "No positions found to exit for the specified token";
          clients_processed := 1;
          clients_with_positions := 0;
          total_positions_exited := 0;
          x_results := [] |}.
Proof.
  apply (exit_reports_nothing_when_down (down_env 0) "2885"
           (market_exit 5 false) empty_world [sample_client]).
  - intros tr url bearer payload. reflexivity.
  - reflexivity.
  - discriminate.
Defined.

(** X24 on a run: a dry exit with the sample peer. *)
Lemma dry_run_exit_places_no_order_witness :
  exists evs,
    trace (snd (exit_all_positions (sample_env 0) "2885" (market_exit 5 true)
                  empty_world))
    = trace empty_world ++ evs
    /\ Forall (places_no_order (sample_env 0)) evs.
Proof.
  apply (dry_run_exit_places_no_order (sample_env 0) "2885"
           (market_exit 5 true) empty_world _
           (fst (exit_all_positions (sample_env 0) "2885" (market_exit 5 true)
                   empty_world))).
  - reflexivity.
  - apply surjective_pairing.
Defined.

End ExitMore.

(** ** The catalog search *)

Module CatalogProps.
Import Samples Tokens Vocabulary TokensProps StringFacts.

Section Search.
Context `{CaseMapping}.

(** X25. On ASCII queries the search does not look at the case: two
    queries of ASCII text that are equal in lower case give the same
    result, errors included. (Outside ASCII, lowering can change the
    length of a query, and with it the side of the two-character rule.) *)
Theorem search_ignores_case (instruments : list JVal) (q q' : string) :
  is_ascii q = true -> is_ascii q' = true ->
  lower q = lower q' ->
  filter_instruments instruments q = filter_instruments instruments q'.
Proof.
  intros Ha Ha' Hq. unfold filter_instruments. rewrite Hq.
  assert (Hlen : String.length q = String.length q').
  { rewrite !lower_ascii in Hq by done.
    by rewrite <- (ascii_lower_length q), Hq, ascii_lower_length. }
  rewrite !str_len_ascii, Hlen by done.
  replace (str_truthy q) with (str_truthy q'); [done|].
  destruct q, q'; simpl in *; done.
Qed.

Lemma insert_keyed_perm {A} (x : nat * A) (l : list (nat * A)) :
  insert_keyed x l ≡ₚ x :: l.
Proof.
  induction l as [|y l IH]; simpl; [done|].
  case_match; [done|]. rewrite IH. apply Permutation_swap.
Qed.

Lemma sort_keyed_perm {A} (l : list (nat * A)) : sort_keyed l ≡ₚ l.
Proof.
  unfold sort_keyed. induction l as [|x l IH]; simpl; [done|].
  by rewrite insert_keyed_perm, IH.
Qed.

Lemma map_res_length {A B} (f : A -> Res B) l r :
  map_res f l = Ok r -> length r = length l.
Proof.
  revert r. induction l as [|x l IH]; intros r; simpl.
  - by intros [= <-].
  - destruct (f x); [|done]. destruct (map_res f l); [|done].
    intros [= <-]. simpl. by rewrite (IH _ eq_refl).
Qed.

(** X26. For a query of two characters or more over a catalog of JSON
    objects, the search returns matching entries only, each at most as
    often as the catalog lists it, and at most 50 of them; when at most 50
    entries match, it returns all of them. *)
Theorem search_sound_and_complete (instruments : list JVal) (q : string) :
  (2 <= str_len q)%nat ->
  Forall is_dict instruments ->
  let matches := filter (fun i => matching (lower q) i) instruments in
  exists result,
    filter_instruments instruments q = Ok result
    /\ result ⊆+ matches
    /\ (length result <= 50)%nat
    /\ ((length matches <= 50)%nat -> result ≡ₚ matches).
Proof.
  intros Hlen Hd matches. unfold filter_instruments.
  replace (negb (str_truthy q) || (str_len q <? 2)%nat) with false.
  2:{ destruct q; [simpl in Hlen; lia|]. cbn [str_truthy negb orb].
      symmetry. by apply Nat.ltb_ge. }
  rewrite (filter_res_dicts _ _ Hd). fold matches.
  assert (Hd' : Forall is_dict matches).
  { apply Forall_forall. intros x [_ Hx]%list_elem_of_filter.
    by eapply Forall_forall in Hd. }
  destruct (map_res_sort_key (lower q) _ Hd') as (keys & Hkeys & _ & _).
  rewrite Hkeys. eexists. split; [reflexivity|].
  assert (Hperm : map snd (sort_keyed (zip keys matches)) ≡ₚ matches).
  { rewrite sort_keyed_perm. rewrite snd_zip; [done|].
    apply map_res_length in Hkeys. lia. }
  unfold slice_to. simpl.
  set (sorted := map snd (sort_keyed (zip keys matches))) in *.
  split_and!.
  - rewrite <- Hperm. apply sublist_submseteq, sublist_take.
  - rewrite length_take. lia.
  - intros Hfew. rewrite take_ge; [done|]. by rewrite Hperm.
Qed.

End Search.

(** X25 on a run: "rel" and "REL" over the small catalog. *)
Lemma search_ignores_case_witness :
  filter_instruments small_catalog "rel" = filter_instruments small_catalog "REL".
Proof.
  apply (search_ignores_case small_catalog "rel" "REL"); reflexivity.
Defined.

(** X26 on a run: both entries of the small catalog match "ar" in their
    name or symbol. *)
Lemma search_sound_and_complete_witness :
  exists result,
    filter_instruments small_catalog "ar" = Ok result
    /\ result ≡ₚ filter (fun i => matching (lower "ar") i) small_catalog.
Proof.
  assert (Hd : Forall is_dict small_catalog)
    by (repeat constructor; by eexists).
  pose proof (search_sound_and_complete small_catalog "ar"
                ltac:(simpl; lia) Hd) as Hs.
  cbv zeta in Hs. destruct Hs as (result & Hrun & _ & _ & Hall).
  exists result. split; [exact Hrun|]. apply Hall. vm_compute. lia.
Defined.

End CatalogProps.

(** ** The cache key *)

Module CacheKeyProps.
Import Python Samples Tokens Vocabulary.

Lemma leb_cases (a b : string) :
  String.leb a b = true <-> a = b \/ OrderedTypeEx.String_as_OT.lt a b.
Proof.
  unfold String.leb.
  destruct (String.compare a b) eqn:Hc.
  - apply OrderedTypeEx.String_as_OT.cmp_eq in Hc. tauto.
  - apply OrderedTypeEx.String_as_OT.cmp_lt in Hc. tauto.
  - split; [done|]. intros [->|Hlt].
    + assert (String.compare b b = Eq)
        by (by apply OrderedTypeEx.String_as_OT.cmp_eq).
      congruence.
    + apply OrderedTypeEx.String_as_OT.cmp_lt in Hlt.
      unfold OrderedTypeEx.String_as_OT.cmp in Hlt. congruence.
Qed.

Lemma leb_trans (a b c : string) :
  String.leb a b = true -> String.leb b c = true -> String.leb a c = true.
Proof.
  rewrite !leb_cases. intros [->|Hab] [->|Hbc]; eauto.
  right. by eapply OrderedTypeEx.String_as_OT.lt_trans.
Qed.

#[local] Instance key_le_trans {A} : Transitive (@key_le A).
Proof. intros x y z. unfold key_le. apply leb_trans. Qed.

Lemma insert_item_perm {A} (x : string * A) l : insert_item x l ≡ₚ x :: l.
Proof.
  induction l as [|y l IH]; simpl; [done|].
  case_match; [done|]. rewrite IH. apply Permutation_swap.
Qed.

Lemma sorted_items_perm {A} (l : list (string * A)) : sorted_items l ≡ₚ l.
Proof.
  unfold sorted_items. induction l as [|x l IH]; simpl; [done|].
  by rewrite insert_item_perm, IH.
Qed.

Lemma insert_item_sorted {A} (x : string * A) l :
  Sorted key_le l -> Sorted key_le (insert_item x l).
Proof.
  induction 1 as [|y l Hl IH Hy]; simpl.
  - by repeat constructor.
  - destruct (String.leb (fst x) (fst y)) eqn:Hxy.
    + constructor; [by constructor|by constructor].
    + assert (Hyx : key_le y x).
      { unfold key_le. by destruct (String.leb_total (fst x) (fst y)) as [?|?];
          [congruence|]. }
      constructor; [done|].
      destruct l as [|z l]; simpl in *; [by constructor|].
      destruct (String.leb (fst x) (fst z)); constructor; [done|].
      by inversion Hy.
Qed.

Lemma sorted_items_sorted {A} (l : list (string * A)) :
  Sorted key_le (sorted_items l).
Proof.
  unfold sorted_items. induction l as [|x l IH]; simpl; [constructor|].
  by apply insert_item_sorted.
Qed.

(** Sorting the items of a dict gives one list, whatever order the items
    come in. *)
Lemma sorted_items_unique {A} (l l' : list (string * A)) :
  NoDup (map fst l) -> l ≡ₚ l' -> sorted_items l = sorted_items l'.
Proof.
  intros Hnd Hperm.
  apply (Sorted_unique_strong key_le);
    [|apply sorted_items_sorted..|by rewrite !sorted_items_perm].
  intros x y Hx Hy Hxy Hyx.
  rewrite sorted_items_perm in Hx. rewrite sorted_items_perm, <- Hperm in Hy.
  assert (Hk : fst x = fst y) by (by apply String.leb_antisym).
  clear Hxy Hyx Hperm.
  induction l as [|z l IH]; [by apply elem_of_nil in Hx|].
  apply NoDup_cons in Hnd as [Hz Hnd]. simpl in Hz.
  apply elem_of_cons in Hx as [->|Hx], Hy as [->|Hy]; eauto.
  - exfalso. apply Hz. rewrite Hk. by apply list_elem_of_fmap_2.
  - exfalso. apply Hz. rewrite <- Hk. by apply list_elem_of_fmap_2.
Qed.

(** X27. The cache key of a search depends on the keyword arguments as a
    dict, not on the order they are given in: two argument lists with the
    same entries, each keyword once, give the same key. *)
Theorem cache_key_ignores_order (endpoint : string)
    (kwargs kwargs' : list (string * JVal)) :
  NoDup (map fst kwargs) ->
  kwargs ≡ₚ kwargs' ->
  get_cache_key endpoint kwargs = get_cache_key endpoint kwargs'.
Proof.
  intros Hnd Hperm. unfold get_cache_key.
  by rewrite (sorted_items_unique _ _ Hnd Hperm).
Qed.

(** X27 on a run: the same two keywords in both orders. *)
Lemma cache_key_ignores_order_witness :
  get_cache_key "search" [("query", JStr "rel"); ("exchange", JStr "NSE")]
  = get_cache_key "search" [("exchange", JStr "NSE"); ("query", JStr "rel")].
Proof.
  apply (cache_key_ignores_order "search"
           [("query", JStr "rel"); ("exchange", JStr "NSE")]
           [("exchange", JStr "NSE"); ("query", JStr "rel")]).
  - compute_done.
  - apply Permutation_swap.
Defined.

End CacheKeyProps.

(** ** The credential store *)

Module CredentialProps.
Import Python Security Samples Vocabulary SecurityProps StringFacts.

Lemma assoc_set_fresh k v l :
  k ∉ map fst l -> assoc_set k v l = l ++ [(k, v)].
Proof.
  induction l as [|[k' v'] l IH]; simpl; [done|].
  intros Hk. apply not_elem_of_cons in Hk as [Hne Hk].
  destruct (String.eqb_spec k k'); [done|]. by rewrite IH.
Qed.

Lemma foldl_assoc_set_fresh (acc kvs : list (string * JVal)) :
  NoDup (map fst (acc ++ kvs)) ->
  foldl (fun a kv => assoc_set (fst kv) (snd kv) a) acc kvs = acc ++ kvs.
Proof.
  revert acc. induction kvs as [|[k v] kvs IH]; intros acc Hnd; simpl.
  - by rewrite app_nil_r.
  - rewrite assoc_set_fresh.
    + rewrite IH; rewrite <- app_assoc; [done|]. exact Hnd.
    + rewrite map_app in Hnd. apply NoDup_app in Hnd as (_ & Hd & _).
      intros Hin. apply (Hd k Hin). simpl. apply list_elem_of_here.
Qed.

Lemma original_key key :
  contains "encrypted_" key = false ->
  startswith ("encrypted_" +:+ key) "encrypted_" = true
  /\ str_replace ("encrypted_" +:+ key) "encrypted_" "" = key.
Proof.
  intros Hc. split.
  - unfold startswith. simpl. by destruct key.
  - unfold str_replace. simpl. change ("" +:+ key) with key.
    replace (String.prefix "" key) with true by (by destruct key).
    change ("" +:+ replace_from "encrypted_" "" 0 key)
      with (replace_from "encrypted_" "" 0 key).
    by apply replace_from_absent.
Qed.

Section RoundTrip.
Context `{CryptoLib}.

(** Encryption always succeeds, and what it gives decrypts to the
    plaintext; the ciphertext of a non-empty text is not empty. *)
Lemma encrypt_data_decrypts (k : fernet) (r : entropy) (s : string) :
  exists c, encrypt_data k r s = Ok c
            /\ decrypt_data k c = Ok s
            /\ (s <> "" -> c <> "").
Proof.
  unfold encrypt_data. destruct (str_truthy s) eqn:Hs; simpl.
  - destruct (b64encode_ascii (fernet_encrypt k r (utf8_encode s))) as [c Hc].
    rewrite Hc. exists c. split; [done|].
    pose proof (decode_nonempty _ _
                  (b64encode_nonempty _ (fernet_token_nonempty k r _)) Hc) as Hne.
    split; [|intros _ ->; done].
    unfold decrypt_data. rewrite Hne. simpl.
    rewrite (utf8_encode_decode _ _ Hc), b64decode_encode.
    by rewrite fernet_decrypt_encrypt, utf8_decode_encode.
  - destruct s; [|done]. by exists "".
Qed.

Lemma encrypt_items_spec (k : fernet) (r : nat -> entropy)
    (items : list (string * JVal)) (n : nat) (acc : list (string * JVal)) :
  exists cs,
    Forall2 (fun kv c => c <> "" /\ decrypt_data k c = Ok (str (snd kv)))
      (filter (fun kv => truthy (snd kv) = true) items) cs
    /\ encrypt_items (Ok k) r n items acc
       = Ok (foldl (fun a kv => assoc_set (fst kv) (snd kv) a) acc
               (zip_with (fun kv c => ("encrypted_" +:+ fst kv, JStr c))
                  (filter (fun kv => truthy (snd kv) = true) items) cs)).
Proof.
  revert n acc. induction items as [|[key value] items IH]; intros n acc.
  - exists []. split; [constructor|done].
  - simpl. rewrite filter_cons. simpl.
    destruct (truthy value) eqn:Hv.
    + rewrite decide_True by done.
      destruct (encrypt_data_decrypts k (r n) (str value))
        as (c & -> & Hdec & Hne).
      destruct (IH (S n) (assoc_set ("encrypted_" +:+ key) (JStr c) acc))
        as (cs & Hcs & ->).
      exists (c :: cs). split; [|done].
      constructor; [|done]. split; [|done]. by apply Hne, str_of_truthy.
    + rewrite decide_False by done. apply IH.
Qed.

Lemma decrypt_items_spec (k : fernet) (fl : list (string * JVal))
    (cs : list string) (acc : list (string * JVal)) :
  Forall2 (fun kv c => c <> "" /\ decrypt_data k c = Ok (str (snd kv))) fl cs ->
  Forall (fun kv => contains "encrypted_" (fst kv) = false) fl ->
  decrypt_items (Ok k)
    (zip_with (fun kv c => ("encrypted_" +:+ fst kv, JStr c)) fl cs) acc
  = Ok (foldl (fun a kv => assoc_set (fst kv) (snd kv) a) acc
          (map (fun kv => (fst kv, JStr (str (snd kv)))) fl)).
Proof.
  intros Hcs. revert acc.
  induction Hcs as [|[key value] c fl cs [Hne Hdec] _ IH]; intros acc Hkeys;
    [done|].
  apply Forall_cons in Hkeys as [Hkey Hkeys]. simpl in Hkey.
  cbn [zip_with decrypt_items map foldl fst snd].
  destruct (original_key key Hkey) as [-> ->].
  assert (Ht : truthy (JStr c) = true) by (by destruct c).
  rewrite Ht. cbn [andb decrypt_value global_decrypt_data].
  rewrite Hdec. by apply IH.
Qed.

(** X28. A credential dict that names api key, secret key, user id and
    password, each keyword once and none containing "encrypted_", is
    encrypted without error, and decrypting the result gives back the
    entries that were not empty, each value as text, in their order. Empty
    entries are dropped on the way, and a number comes back as a string. *)
Theorem credentials_round_trip (k : fernet) (r : nat -> entropy)
    (credentials : list (string * JVal)) :
  NoDup (map fst credentials) ->
  validate_credential_data credentials = true ->
  Forall (fun kv => contains "encrypted_" (fst kv) = false) credentials ->
  exists encrypted,
    encrypt_client_credentials (Ok k) r credentials = Ok encrypted
    /\ decrypt_client_credentials (Ok k) encrypted
       = Ok (map (fun kv => (fst kv, JStr (str (snd kv))))
               (filter (fun kv => truthy (snd kv) = true) credentials)).
Proof.
  intros Hnd Hvalid Hkeys.
  unfold encrypt_client_credentials, decrypt_client_credentials.
  rewrite Hvalid. simpl.
  destruct (encrypt_items_spec k r credentials 0 []) as (cs & Hcs & ->).
  eexists. split; [reflexivity|].
  set (fl := filter (fun kv => truthy (snd kv) = true) credentials) in *.
  assert (Hnd' : NoDup (map fst fl)).
  { eapply sublist_NoDup; [exact Hnd|apply fmap_sublist, sublist_filter]. }
  assert (Hkeys' : Forall (fun kv => contains "encrypted_" (fst kv) = false) fl).
  { apply Forall_forall. intros kv [_ Hkv]%list_elem_of_filter.
    by eapply Forall_forall in Hkeys. }
  rewrite foldl_assoc_set_fresh.
  - simpl. rewrite (decrypt_items_spec k fl cs [] Hcs Hkeys').
    rewrite foldl_assoc_set_fresh; [done|].
    simpl. by rewrite <- list_fmap_compose.
  - simpl.
    assert (Hmap : map fst (zip_with (fun kv c =>
                                        ("encrypted_" +:+ fst kv, JStr c)) fl cs)
                   = map (fun kv => "encrypted_" +:+ fst kv) fl).
    { clear -Hcs. induction Hcs; simpl; [done|]. by f_equal. }
    rewrite Hmap.
    change (map (fun kv => "encrypted_" +:+ fst kv) fl)
      with ((String.append "encrypted_" ∘ fst) <$> fl).
    rewrite (list_fmap_compose fst (String.append "encrypted_")).
    apply NoDup_fmap_2; [|done].
    intros a b. apply string_app_inv_head.
Qed.

End RoundTrip.
(** X28 on a run: an integer user id and an empty date of birth. *)
Lemma credentials_round_trip_witness :
  exists encrypted,
    encrypt_client_credentials (Ok tt) sample_entropy credentials_dict
    = Ok encrypted
    /\ decrypt_client_credentials (Ok tt) encrypted
       = Ok [("api_key", JStr "key"); ("secret_key", JStr "secret");
             ("user_id", JStr "4711"); ("password", JStr "pass")].
Proof.
  apply (@credentials_round_trip toy_crypto tt sample_entropy credentials_dict).
  - compute_done.
  - reflexivity.
  - repeat constructor.
Defined.

End CredentialProps.

Module StoredProps.
Import Security Wrapper Clients Samples Vocabulary SecurityProps.
Import CredentialProps CacheProps.

Section Stored.
Context `{CryptoLib}.
Variable env : Env.

(** X29. Credentials stored for a MOFSL broker are the ones the session
    manager reads: after the assignment of valid credentials the client has
    the four fields of the broker's segment, and decrypting them for the
    authentication performs four decryptions and gives back the api key,
    secret key, user id and password as entered (or the error of
    [validate], if they do not pass it). *)
Theorem stored_credentials_are_used (k : fernet) (r : nat -> entropy)
    (client : Client) (credentials : ClientCredentials) (w : World) :
  env_crypto env = Ok k ->
  ClientCredentials_valid credentials = true ->
  broker_name credentials <> "zerodha" ->
  let segment :=
    if String.eqb (broker_name credentials) "mofsl_interactive"
    then "interactive" else "commodity" in
  let plain :=
    {| api_key := cc_api_key credentials;
       secret_key := cc_secret_key credentials;
       user_id := cc_user_id credentials;
       password := cc_password credentials;
       dob := None; totp_secret := None |} in
  exists client' ea es eu ep,
    assign_credentials (Ok k) r client credentials = Ok client'
    /\ segment_fields client' segment = Ok [Some ea; Some es; Some eu; Some ep]
    /\ _decrypt_client_credentials env client' segment w
       = (if validate plain then Ok plain
          else Raise (ValueError
                 ("Failed to decrypt credentials: Invalid decrypted credentials for client "
                  +:+ client_code client)),
          {| auth_tokens := auth_tokens w;
             trace := trace w ++ [EvDecrypt ea; EvDecrypt es; EvDecrypt eu;
                                  EvDecrypt ep] |}).
Proof.
  intros Hk Hvalid Hbroker segment plain.
  unfold ClientCredentials_valid in Hvalid.
  apply andb_true_iff in Hvalid as [Hname Hlen].
  apply bool_decide_eq_true in Hname.
  cbn [forallb fst snd] in Hlen.
  apply andb_true_iff in Hlen as [[H0%Nat.leb_le _]%andb_true_iff Hlen].
  apply andb_true_iff in Hlen as [[H1%Nat.leb_le _]%andb_true_iff Hlen].
  apply andb_true_iff in Hlen as [[H2%Nat.leb_le _]%andb_true_iff Hlen].
  apply andb_true_iff in Hlen as [[H3%Nat.leb_le _]%andb_true_iff _].
  assert (Hne : forall s, (1 <= str_len s)%nat -> s <> "")
    by (intros [|] ?; [simpl in *; lia|done]).
  destruct (encrypt_data_decrypts k (r 0%nat) (cc_api_key credentials))
    as (ea & Ha & Hda & Hna).
  destruct (encrypt_data_decrypts k (r 1%nat) (cc_secret_key credentials))
    as (es & Hs & Hds & Hns).
  destruct (encrypt_data_decrypts k (r 2%nat) (cc_user_id credentials))
    as (eu & Hu & Hdu & Hnu).
  destruct (encrypt_data_decrypts k (r 3%nat) (cc_password credentials))
    as (ep & Hp & Hdp & Hnp).
  assert (Hfour : encrypt_four (Ok k) r credentials = Ok (ea, es, eu, ep)).
  { unfold encrypt_four, global_encrypt_data. by rewrite Ha, Hs, Hu, Hp. }
  assert (Htruthy : forallb opt_str_truthy [Some ea; Some es; Some eu; Some ep]
                    = true).
  { simpl. pose proof (Hna (Hne _ H0)). pose proof (Hns (Hne _ H1)).
    pose proof (Hnu (Hne _ H2)). pose proof (Hnp (Hne _ H3)).
    by destruct ea, es, eu, ep. }
  assert (Hrun : forall c seg,
    client_code c = client_code client ->
    segment_fields c seg = Ok [Some ea; Some es; Some eu; Some ep] ->
    _decrypt_client_credentials env c seg w
    = (if validate plain then Ok plain
       else Raise (ValueError
              ("Failed to decrypt credentials: Invalid decrypted credentials for client "
               +:+ client_code client)),
       {| auth_tokens := auth_tokens w;
          trace := trace w ++ [EvDecrypt ea; EvDecrypt es; EvDecrypt eu;
                               EvDecrypt ep] |})).
  { intros c seg Hcode Hfields.
    unfold _decrypt_client_credentials, try_except, bind at 1, lift.
    rewrite Hfields, Htruthy. cbn [negb].
    unfold bind. rewrite !decrypt_run, Hk. cbn [global_decrypt_data].
    rewrite Hda, Hds, Hdu, Hdp. fold plain. rewrite Hcode.
    destruct (validate plain); simpl; by rewrite <- !app_assoc. }
  set_unfold in Hname. subst segment.
  destruct Hname as [Hn|[Hn|[Hn|[]]]]; [| |done];
    unfold assign_credentials; rewrite Hn; simpl; rewrite Hfour;
    eexists _, ea, es, eu, ep; (split; [reflexivity|]);
    (split; [reflexivity|]); by apply Hrun.
Qed.

End Stored.
(** X29 on a run: commodity credentials for a client that had none. *)
Lemma stored_credentials_are_used_witness :
  exists client',
    assign_credentials (Ok tt) sample_entropy interactive_only_client
      sample_credentials = Ok client'
    /\ fst (_decrypt_client_credentials (sample_env 0) client' "commodity"
              empty_world)
       = Ok {| api_key := "k2"; secret_key := "s2"; user_id := "u2";
               password := "p2"; dob := None; totp_secret := None |}.
Proof.
  pose proof (stored_credentials_are_used (sample_env 0) tt sample_entropy
                interactive_only_client sample_credentials empty_world
                eq_refl eq_refl ltac:(discriminate)) as Hs.
  cbv zeta in Hs. destruct Hs as (client' & ea & es & eu & ep & Hset & _ & Hrun).
  exists client'. split; [exact Hset|]. exact (f_equal fst Hrun).
Defined.

End StoredProps.

(** ** The credential status *)

Module StatusProps.
Import Security Wrapper Orders Clients PyLogic Samples Vocabulary.

Section Status.
Context `{CryptoLib}.
Variable env : Env.

(** X30. The credential status the client API reports is the one trading
    requires: for an active client of the database, the validation for the
    segment "interactive" (for "commodity") passes exactly when
    [check_credential_existence] reports credentials for it. For any other
    segment the validation passes without looking at credentials. *)
Theorem credential_status_agrees (client_id : Z) (w : World) (client : Client) :
  env_db_client env (trace w) client_id = Ok (Some client) ->
  is_active client = true ->
  is_ok (fst (get_client_with_validation env client_id "interactive" w))
  = fst (check_credential_existence client)
  /\ is_ok (fst (get_client_with_validation env client_id "commodity" w))
     = snd (check_credential_existence client)
  /\ forall segment,
       segment <> "interactive" -> segment <> "commodity" ->
       fst (get_client_with_validation env client_id segment w) = Ok client.
Proof.
  intros Hdb Hact.
  unfold get_client_with_validation, check_credential_existence, bind,
    get_trace, lift.
  rewrite Hdb, Hact. cbn [negb String.eqb Ascii.eqb Bool.eqb fst snd forallb].
  unfold opt_str_truthy.
  split_and!.
  - destruct (encrypted_mofsl_api_key_interactive client) as [[|]|],
      (encrypted_mofsl_secret_key_interactive client) as [[|]|],
      (encrypted_mofsl_user_id_interactive client) as [[|]|],
      (encrypted_mofsl_password_interactive client) as [[|]|]; done.
  - destruct (encrypted_mofsl_api_key_commodity client) as [[|]|],
      (encrypted_mofsl_secret_key_commodity client) as [[|]|],
      (encrypted_mofsl_user_id_commodity client) as [[|]|],
      (encrypted_mofsl_password_commodity client) as [[|]|]; done.
  - intros segment Hi Hc.
    destruct (String.eqb_spec segment "interactive"); [done|].
    by destruct (String.eqb_spec segment "commodity").
Qed.

End Status.

(** X30 on a run: the sample client and the commodity segment. *)
Lemma credential_status_agrees_witness :
  is_ok (fst (get_client_with_validation (sample_env 0) 1 "commodity"
                empty_world))
  = snd (check_credential_existence sample_client).
Proof.
  destruct (credential_status_agrees (sample_env 0) 1 empty_world sample_client
              eq_refl eq_refl) as (_ & Hc & _).
  exact Hc.
Defined.

End StatusProps.
